(** * LBT2PH: unit conversion helpers and the window components

    A shallow embedding of [scripts/LBT2PH/helpers.py] and of the
    Grasshopper components [LBT2PH_ApplyWindowShadingFactors],
    [LBT2PH_CreateWindowReveals] and [LBT2PH_DHW_Piping_Recirc].

    Python values are an inductive type, dictionaries are finite maps keyed
    by strings, exceptions are an explicit result type, and the objects the
    components mutate live in an explicit store.

    Numbers.  A Python float is represented by the exact rational it denotes
    (plus the two infinities and not-a-number): binary64 rounding and
    overflow are not modelled.  Everything proved below is about parsing,
    table lookup, control flow and sign, none of which rounding changes. *)

From Stdlib Require Import Ascii QArith.
From stdpp Require Import gmap strings list fin_maps.

(** ** Python values and exceptions *)

Inductive pyfloat :=
| Finite (q : Q)
| Infinity (neg : bool)
| NaN.

#[warnings="-register-all"]
Inductive val :=
| VNone
| VInt (z : Z)
| VFloat (f : pyfloat)
| VStr (s : string)
| VDict (d : gmap string val).

Inductive exn :=
| KeyError | TypeError | ValueError | AttributeError | IndexError | SystemError
| OtherException.

Inductive res (A : Type) :=
| Ok (a : A)
| Raise (e : exn).
Arguments Ok {A} a.
Arguments Raise {A} e.

Definition bind {A B} (m : res A) (k : A -> res B) : res B :=
  match m with
  | Ok a => k a
  | Raise e => Raise e
  end.

Notation "'try!' x ':=' m 'in' k" := (bind m (fun x => k))
  (at level 10, x pattern, m at level 100, k at level 200).

(** [a * b] on floats. *)
Definition fmul (a b : pyfloat) : pyfloat :=
  match a, b with
  | Finite x, Finite y => Finite (x * y)
  | NaN, _ | _, NaN => NaN
  | Infinity s, Infinity t => Infinity (xorb s t)
  | Infinity s, Finite y | Finite y, Infinity s =>
      match (y ?= 0)%Q with
      | Eq => NaN
      | Lt => Infinity (negb s)
      | Gt => Infinity s
      end
  end.

(** [0 <= f] on floats (false for not-a-number). *)
Definition fnonneg (f : pyfloat) : Prop :=
  match f with
  | Finite q => (0 <= q)%Q
  | Infinity neg => neg = false
  | NaN => False
  end.

(** ** Strings: the builtins the helpers use *)

Definition is_digit (c : ascii) : bool :=
  let n := N_of_ascii c in ((48 <=? n) && (n <=? 57))%N.

Definition is_space (c : ascii) : bool :=
  let n := N_of_ascii c in ((n =? 32) || ((9 <=? n) && (n <=? 13)))%N.

Definition upper_char (c : ascii) : ascii :=
  let n := N_of_ascii c in
  if ((97 <=? n) && (n <=? 122))%N then ascii_of_N (n - 32) else c.

Definition lower_char (c : ascii) : ascii :=
  let n := N_of_ascii c in
  if ((65 <=? n) && (n <=? 90))%N then ascii_of_N (n + 32) else c.

Fixpoint str_map (f : ascii -> ascii) (s : string) : string :=
  match s with
  | EmptyString => EmptyString
  | String c r => String (f c) (str_map f r)
  end.

(** [s.upper()] and [s.lower()]. *)
Definition upper : string -> string := str_map upper_char.
Definition lower : string -> string := str_map lower_char.

(** [sub in s] for strings. *)
Fixpoint str_in (sub s : string) : bool :=
  String.prefix sub s ||
  match s with
  | EmptyString => false
  | String _ r => str_in sub r
  end.

Fixpoint lstrip (s : string) : string :=
  match s with
  | EmptyString => EmptyString
  | String c r => if is_space c then lstrip r else s
  end.

(** [s.strip()]. *)
Definition strip (s : string) : string :=
  String.rev (lstrip (String.rev (lstrip s))).

(** The one-character string made of the double quote. *)
Definition dquote : string := String (ascii_of_N 34) EmptyString.

(** ** [float(x)] *)

(** Longest prefix of decimal digits, and what follows it. *)
Fixpoint take_digits (s : string) : string * string :=
  match s with
  | EmptyString => (EmptyString, EmptyString)
  | String c r =>
      if is_digit c
      then let '(d, t) := take_digits r in (String c d, t)
      else (EmptyString, s)
  end.

Fixpoint digits_value (acc : N) (s : string) : N :=
  match s with
  | EmptyString => acc
  | String c r => digits_value (10 * acc + (N_of_ascii c - 48))%N r
  end.

Definition parse_sign (s : string) : bool * string :=
  match s with
  | String "-" r => (true, r)
  | String "+" r => (false, r)
  | _ => (false, s)
  end.

(** The exponent part: empty, or [e] or [E], an optional sign and at least
    one digit, up to the end of the text. *)
Definition parse_exponent (s : string) : option Z :=
  match s with
  | EmptyString => Some 0%Z
  | String c r =>
      if (N_of_ascii c =? 101)%N || (N_of_ascii c =? 69)%N then
        let '(neg, r1) := parse_sign r in
        let '(ds, r2) := take_digits r1 in
        match ds, r2 with
        | String _ _, EmptyString =>
            let e := Z.of_N (digits_value 0 ds) in
            Some (if neg then (- e)%Z else e)
        | _, _ => None
        end
      else None
  end.

(** [m * 10^e] as a rational. *)
Definition scale10 (m : N) (e : Z) : Q :=
  if (0 <=? e)%Z
  then inject_Z (Z.of_N m * 10 ^ e)
  else (Z.of_N m # Pos.pow 10 (Z.to_pos (- e))).

(** An unsigned decimal literal: digits, an optional period and digits (at
    least one digit in all), an optional exponent. *)
Definition parse_decimal (s : string) : option Q :=
  let '(ip, r1) := take_digits s in
  let '(fp, r2) :=
    match r1 with
    | String "." r => take_digits r
    | _ => (EmptyString, r1)
    end in
  match (ip ++ fp)%string with
  | EmptyString => None
  | String _ _ as ds =>
      match parse_exponent r2 with
      | None => None
      | Some e =>
          Some (scale10 (digits_value 0 ds) (e - Z.of_nat (String.length fp)))
      end
  end.

(** [float(s)] for a string [s]; [None] is the ValueError. White space
    around the text is ignored; the text is a signed decimal literal or one
    of inf, infinity and nan in any case. *)
Definition float_of_string (s : string) : option pyfloat :=
  let '(neg, r) := parse_sign (strip s) in
  let l := lower r in
  if String.eqb l "inf" || String.eqb l "infinity" then Some (Infinity neg)
  else if String.eqb l "nan" then Some NaN
  else
    match parse_decimal r with
    | Some q => Some (Finite (if neg then (- q)%Q else q))
    | None => None
    end.

(** [float(x)] for any value. *)
Definition py_float (x : val) : res pyfloat :=
  match x with
  | VNone => Raise TypeError
  | VInt z => Ok (Finite (inject_Z z))
  | VFloat f => Ok f
  | VStr s =>
      match float_of_string s with
      | Some f => Ok f
      | None => Raise ValueError
      end
  | VDict _ => Raise TypeError
  end.

(** ** scripts/LBT2PH/helpers.py *)

Module helpers.

(** The character class of the pattern given to [re.split]: a decimal digit
    or a period. The pattern itself is the complement of this class. *)
Definition is_numeric_char (c : ascii) : bool :=
  is_digit c || (N_of_ascii c =? 46)%N.

(** [re.split(r'[^\d\.]', s)]: [s] is cut at every single character that is
    neither a digit nor a period; a text with n such characters gives n+1
    pieces, empty ones included. *)
Fixpoint re_split_text (s : string) : list string :=
  match s with
  | EmptyString => [EmptyString]
  | String c r =>
      if is_numeric_char c then
        match re_split_text r with
        | p :: ps => String c p :: ps
        | [] => [String c EmptyString]
        end
      else EmptyString :: re_split_text r
  end.

(** [re.split] raises TypeError on anything that is not a string. *)
Definition re_split (x : val) : res (list string) :=
  match x with
  | VStr s => Ok (re_split_text s)
  | _ => Raise TypeError
  end.

(** [d.get(k, dflt)]: the keys of [d] are strings; a dictionary is not
    hashable and cannot be looked up. *)
Definition dict_get {V} (d : gmap string V) (k : val) (dflt : V) : res V :=
  match k with
  | VStr s => Ok (default dflt (d !! s))
  | VDict _ => Raise TypeError
  | _ => Ok dflt
  end.

(** [find_input_string(_in)]; the argument is the text [str(_in)], which is
    [_in] itself when [_in] is a string. *)
Definition find_input_string (_in : string) : string :=
  let evalString := upper _in in
  if str_in "FT" evalString || str_in "'" evalString then "FT"
  else if str_in "IN" evalString || str_in dquote evalString then "IN"
  else if str_in "MM" evalString then "MM"
  else if str_in "CM" evalString then "CM"
  else if str_in "M" evalString && negb (str_in "MM" evalString) then "M"
  else if str_in "IP" evalString then "IP"
  else if str_in "FT3" evalString then "FT3"
  else "SI".

(** A row of the schema for a length: the keys are the same in the three
    rows, the foot and the inch are listed under their name and under
    their sign. *)
Definition length_row (m cm mm ft inch : val) : gmap string val :=
  list_to_map
    [("SI", VInt 1); ("M", m); ("CM", cm); ("MM", mm); ("FT", ft); ("'", ft);
     ("IN", inch); (dquote, inch)].

Definition flt (q : Q) : val := VFloat (Finite q).

Definition schema : gmap string (gmap string val) :=
  list_to_map
    [("M", length_row (VInt 1) (flt 0.01) (flt 0.001) (flt 0.3048) (flt 0.0254));
     ("CM", length_row (VInt 100) (VInt 1) (flt 0.1) (flt 30.48) (flt 2.54));
     ("MM", length_row (VInt 1000) (VInt 10) (VInt 1) (flt 304.8) (flt 25.4));
     ("W/M2K", list_to_map [("SI", VInt 1); ("IP", flt 5.678264134)]);
     ("W/MK", list_to_map [("SI", VInt 1); ("IP", flt 1.730734908)]);
     ("M3", list_to_map [("SI", VInt 1); ("FT3", flt 0.028316847)])].

(** The loop over the pieces: the first non-empty one replaces
    [inputValue]; with no such piece [inputValue] keeps its value. *)
Fixpoint first_nonempty (pieces : list string) (inputValue : val) : val :=
  match pieces with
  | [] => inputValue
  | each :: rest =>
      if (0 <? String.length each)%nat then VStr each
      else first_nonempty rest inputValue
  end.

(** [schema.get(_outputUnit, {}).get(inputUnit, 1)]. *)
Definition conversion_factor (_outputUnit : val) (inputUnit : string) : res val :=
  try! row := dict_get schema _outputUnit ∅ in
  dict_get row (VStr inputUnit) (VInt 1).

(** The body of the inner [try], after the loop has set [inputValue]. *)
Definition convert_inner (_inputString : string) (_outputUnit inputValue : val)
  : res val :=
  let inputUnit := find_input_string _inputString in
  try! conversionFactor := conversion_factor _outputUnit inputUnit in
  try! v := py_float inputValue in
  try! f := py_float conversionFactor in
  Ok (VFloat (fmul v f)).

(** [convert_value_to_metric(_inputString, _outputUnit)]. Both [except]
    clauses are bare: whatever is raised under them is caught. The inner
    [try] goes past [re.split] only for a string, which is then what
    [find_input_string] is given. *)
Definition convert_value_to_metric (_inputString _outputUnit : val) : res val :=
  let inputValue := _inputString in
  match _inputString with
  | VNone => Ok VNone
  | _ =>
      match py_float inputValue with
      | Ok f => Ok (VFloat f)
      | Raise _ =>
          match re_split _inputString, _inputString with
          | Ok pieces, VStr s =>
              let inputValue := first_nonempty pieces inputValue in
              match convert_inner s _outputUnit inputValue with
              | Ok r => Ok r
              | Raise _ => Ok inputValue
              end
          | _, _ => Ok inputValue
          end
      end
  end.

(** *** Dictionaries inside values *)

(** The truth value of [x], which [not x] negates. *)
Definition truthy (x : val) : bool :=
  match x with
  | VNone => false
  | VInt z => negb (z =? 0)%Z
  | VFloat (Finite q) => negb (Qeq_bool q 0)
  | VFloat _ => true
  | VStr s => negb (String.eqb s EmptyString)
  | VDict d => negb (bool_decide (d = ∅))
  end.

(** [x[k]] *)
Definition getitem (x : val) (k : string) : res val :=
  match x with
  | VDict d =>
      match d !! k with
      | Some v => Ok v
      | None => Raise KeyError
      end
  | _ => Raise TypeError
  end.

(** [x[k] = v] *)
Definition setitem (x : val) (k : string) (v : val) : res val :=
  match x with
  | VDict d => Ok (VDict (<[k := v]> d))
  | _ => Raise TypeError
  end.

(** [x.update(y)]: the entries of [y] are written over those of [x]. *)
Definition dict_update (x y : val) : res val :=
  match x, y with
  | VDict d, VDict e => Ok (VDict (e ∪ d))
  | VDict d, VStr EmptyString => Ok (VDict d)
  | VDict _, VStr _ => Raise ValueError
  | VDict _, _ => Raise TypeError
  | _, _ => Raise AttributeError
  end.

(** [x.has_key(k)] *)
Definition has_key (x : val) (k : string) : res bool :=
  match x with
  | VDict d => Ok (bool_decide (is_Some (d !! k)))
  | _ => Raise AttributeError
  end.

(** [deepcopy]: values are immutable here, a copy is the value. *)
Definition deepcopy (x : val) : val := x.

(** A Honeybee object as far as the helpers see it: only [user_data] is
    read and written. *)
Record hb_obj := { identifier : string; user_data : val }.

Definition set_user_data (o : hb_obj) (u : val) : hb_obj :=
  {| identifier := identifier o; user_data := u |}.

(** [{'phpp': {_key: _dict}}] *)
Definition fresh_phpp (_key : string) (_dict : val) : val :=
  VDict {[ "phpp" := VDict {[ _key := _dict ]} ]}.

(** The statements of the outer [try] of [add_to_HB_model]; the nested
    dictionary is written in place, so the result is [user_data] with its
    phpp entry replaced. *)
Definition write_phpp (user_data : val) (_key : string) (_dict : val)
  (_write : string) : res val :=
  if String.eqb _write "update" then
    try! p := getitem user_data "phpp" in
    try! old := getitem p _key in
    try! new := dict_update old _dict in
    try! p' := setitem p _key new in
    setitem user_data "phpp" p'
  else if String.eqb _write "overwrite" then
    try! p := getitem user_data "phpp" in
    try! p' := setitem p _key _dict in
    setitem user_data "phpp" p'
  else Ok user_data.

(** The first KeyError handler:
    [user_data['phpp'].update({_key: _dict})]. *)
Definition update_phpp (user_data : val) (_key : string) (_dict : val)
  : res val :=
  try! p := getitem user_data "phpp" in
  try! p' := dict_update p (VDict {[ _key := _dict ]}) in
  setitem user_data "phpp" p'.

(** [add_to_HB_model(_hb_model, _key, _dict, _ghenv, _write)]. The model
    is changed in place and returned: the result is the model after the
    call. The innermost handler, the only use of [_ghenv], guards the
    construction of a dictionary literal, which cannot raise; [_ghenv] is
    left out. *)
Definition add_to_HB_model (_hb_model : hb_obj) (_key : string) (_dict : val)
  (_write : string) : res hb_obj :=
  let user_data := deepcopy (user_data _hb_model) in
  if negb (truthy user_data) then
    Ok (set_user_data _hb_model (fresh_phpp _key _dict))
  else
    match write_phpp user_data _key _dict _write with
    | Ok user_data => Ok (set_user_data _hb_model user_data)
    | Raise KeyError =>
        match update_phpp user_data _key _dict with
        | Ok user_data => Ok (set_user_data _hb_model user_data)
        | Raise KeyError =>
            Ok (set_user_data _hb_model (fresh_phpp _key _dict))
        | Raise e => Raise e
        end
    | Raise e => Raise e
    end.

(** [add_to_hb_obj_user_data(_hb_obj, key, _val)], the sibling of
    [add_to_HB_model] for any Honeybee object. *)
Definition add_to_hb_obj_user_data (_hb_obj : hb_obj) (key : string) (_val : val)
  : res hb_obj :=
  let ud :=
    match user_data _hb_obj with
    | VNone => VDict ∅
    | u => u
    end in
  match ud with
  | VDict d =>
      let new_user_data := deepcopy ud in
      try! has := has_key new_user_data "phpp" in
      if has then
        try! p := getitem new_user_data "phpp" in
        try! has_k := has_key p key in
        if has_k then
          try! old := getitem p key in
          try! new := dict_update old _val in
          try! p' := setitem p key new in
          try! u := setitem new_user_data "phpp" p' in
          Ok (set_user_data _hb_obj u)
        else
          try! p' := setitem p key _val in
          try! u := setitem new_user_data "phpp" p' in
          Ok (set_user_data _hb_obj u)
      else
        try! u0 := setitem new_user_data "phpp" (VDict ∅) in
        try! p := getitem u0 "phpp" in
        try! p' := setitem p key _val in
        try! u := setitem u0 "phpp" p' in
        Ok (set_user_data _hb_obj u)
  | _ => Raise OtherException
  end.

End helpers.

(** ** The store of Honeybee objects

    Rooms, faces and apertures are objects with identity: a room holds
    references to its faces and a face to its apertures. The [user_data]
    of an aperture is [None] or a dictionary, and a dictionary holds what
    is under its keys by reference: these are objects of the store too, so
    that two dictionaries can hold one and the same object. A location is
    an index into the store and a new object is put at its end. *)

Abbreviation loc := nat (only parsing).

Inductive obj :=
| ORoom (faces : list loc)
| OFace (apertures : list loc)
| OAperture (display_name : string) (user_data : option (gmap string loc))
| OValue (v : val).

Abbreviation heap := (list obj) (only parsing).

Definition alloc (h : heap) (o : obj) : heap * loc := (h ++ [o], length h).

(** Computations that read and write the store and may raise; the store
    reached when an exception is raised is kept. *)
Definition M (A : Type) := heap -> res A * heap.

Definition ret {A} (a : A) : M A := fun h => (Ok a, h).
Definition throw {A} (e : exn) : M A := fun h => (Raise e, h).
Definition sbind {A B} (m : M A) (k : A -> M B) : M B :=
  fun h =>
    match m h with
    | (Ok a, h1) => k a h1
    | (Raise e, h1) => (Raise e, h1)
    end.

Notation "'do!' x ':=' m 'in' k" := (sbind m (fun x => k))
  (at level 10, x pattern, m at level 100, k at level 200).

(** [for x in xs: body(x)], collecting what the body returns. *)
Fixpoint for_each {A B} (body : A -> M B) (xs : list A) : M (list B) :=
  match xs with
  | [] => ret []
  | x :: rest =>
      do! y := body x in
      do! ys := for_each body rest in
      ret (y :: ys)
  end.

(** *** Honeybee's [duplicate]

    [obj.duplicate()] belongs to the Honeybee library. It builds a new
    object; a room duplicates each of its faces and a face each of its
    apertures. An aperture takes [user_data.copy()] when its [user_data] is
    not [None]: a dictionary of its own with the same keys, which holds the
    very objects that the dictionary of the first aperture holds. *)

Definition dup_aperture (a : loc) : M loc :=
  fun h =>
    match h !! a with
    | Some (OAperture n u) => let '(h1, a1) := alloc h (OAperture n u) in (Ok a1, h1)
    | _ => (Raise AttributeError, h)
    end.

Definition dup_face (f : loc) : M loc :=
  fun h =>
    match h !! f with
    | Some (OFace aps) =>
        match for_each dup_aperture aps h with
        | (Ok aps1, h1) => let '(h2, f1) := alloc h1 (OFace aps1) in (Ok f1, h2)
        | (Raise e, h1) => (Raise e, h1)
        end
    | _ => (Raise AttributeError, h)
    end.

Definition duplicate (r : loc) : M loc :=
  fun h =>
    match h !! r with
    | Some (ORoom fs) =>
        match for_each dup_face fs h with
        | (Ok fs1, h1) => let '(h2, r1) := alloc h1 (ORoom fs1) in (Ok r1, h2)
        | (Raise e, h1) => (Raise e, h1)
        end
    | _ => (Raise AttributeError, h)
    end.

(** [user_data[k]]: [None] cannot be indexed, and a key that is not there
    is a KeyError. *)
Definition user_data_item (user_data : option (gmap string loc)) (k : string)
  : res loc :=
  match user_data with
  | None => Raise TypeError
  | Some d =>
      match d !! k with
      | Some l => Ok l
      | None => Raise KeyError
      end
  end.

(** The component's runtime messages. *)
Inductive level := Remark | Warning | Error.

(** The line feed. *)
Definition nl : string := String (ascii_of_N 10) EmptyString.

(** ** ghuser_py/LBT2PH_ApplyWindowShadingFactors.py *)

Module ApplyWindowShadingFactors.

Record Params := { winter : pyfloat; summer : pyfloat }.

Definition warning : string :=
  ("The number of windows in the HB Model doesn't match the shading factor inputs?"
   ++ nl ++
   "Check the HB Model / shading factor values. For now I'll use 0.75 for all the missing ones.")%string.

Definition warn (k : string) : string :=
  ("Warning. One or more windows have a calculated shading factor of 0?" ++ nl ++
   "Thats probably not right. Double check window: " ++ k ++
   ". It might have its surface normal" ++ nl ++
   "backwards or something else funny is happening with your shading surfaces? Double check.")%string.

(** [len(a) != len(b) or len(a) != len(c)] *)
Definition length_mismatch {A B C} (a : list A) (b : list B) (c : list C) : bool :=
  negb (length a =? length b)%nat || negb (length a =? length c)%nat.

(** [float(factors[i])] under its two handlers: a missing entry gives the
    default; what [float] raises is not handled. *)
Definition shading_factor (factors : list val) (i : nat) : res pyfloat :=
  match (match factors !! i with
         | Some x => py_float x
         | None => Raise IndexError
         end) with
  | Raise IndexError => Ok (Finite 0.75)
  | Raise SystemError => Ok (Finite 0.75)
  | r => r
  end.

(** The loop that builds [param_dict], from index [i] on. *)
Fixpoint build_param_dict (i : nat) (_window_names : list string)
  (_winter_shading_factors _summer_shading_factors : list val)
  (param_dict : gmap string Params) : res (gmap string Params) :=
  match _window_names with
  | [] => Ok param_dict
  | window_name :: rest =>
      try! winter_factor := shading_factor _winter_shading_factors i in
      try! summer_factor := shading_factor _summer_shading_factors i in
      build_param_dict (S i) rest _winter_shading_factors _summer_shading_factors
        (<[window_name := {| winter := winter_factor; summer := summer_factor |}]>
           param_dict)
  end.

(** [0 in v] for a pair of factors. *)
Definition is_zero (f : pyfloat) : bool :=
  match f with
  | Finite q => Qeq_bool q 0
  | _ => false
  end.

Definition zero_in (v : Params) : bool := is_zero (winter v) || is_zero (summer v).

(** The closing loop: one warning for each window with a factor of 0. *)
Definition zero_warnings (param_dict : gmap string Params) : list (level * string) :=
  omap (fun '(k, v) => if zero_in v then Some (Warning, warn k) else None)
       (map_to_list param_dict).

Section Component.

(** [LBT2PH.windows.PHPP_Window] is not part of the files at hand: the
    class, its constructor from a dictionary, the three attributes the
    component sets and its serialiser are parameters. [from_dict] is handed
    an object of the store, the one under phpp, which the copy of an
    aperture shares with the aperture it was copied from, and the window
    it makes may keep this object. Each of the five operations is therefore
    given what the object holds and says, beside its result, what the
    object holds afterwards. [from_dict] returns a window or raises;
    setting an attribute and [to_dict] return, and [to_dict] makes a new
    object. *)
Variable PHPP_Window : Type.
Variable from_dict : val -> res PHPP_Window * val.
Variable set_shading_factor_winter :
  PHPP_Window -> pyfloat -> val -> PHPP_Window * val.
Variable set_shading_factor_summer :
  PHPP_Window -> pyfloat -> val -> PHPP_Window * val.
Variable set_shading_dimensions : PHPP_Window -> val -> val -> PHPP_Window * val.
Variable to_dict : PHPP_Window -> val -> val * val.

(** The three assignments to the window and [to_dict], one after the
    other, on an object under phpp that holds [d]: what [to_dict] returns,
    and what the object holds in the end. *)
Definition shade (phpp_window : PHPP_Window) (window_factors : Params) (d : val)
  : val * val :=
  let '(w1, d1) :=
    set_shading_factor_winter phpp_window (winter window_factors) d in
  let '(w2, d2) := set_shading_factor_summer w1 (summer window_factors) d1 in
  let '(w3, d3) := set_shading_dimensions w2 VNone d2 in
  to_dict w3 d3.

(** The body of the loop over the apertures of a face of the new room. The
    two [print] calls of the handlers are left out. What the operations
    on the window leave in the object under phpp is put back in the store.
    An entry under phpp that is no value object (a dictionary that holds a
    room, say) is not among the stores described here: the body raises on
    it. *)
Definition apply_to_aperture (param_dict : gmap string Params) (aperture : loc)
  : M unit :=
  fun h =>
    match h !! aperture with
    | Some (OAperture name ud) =>
        match user_data_item ud "phpp" with
        | Raise KeyError => (Ok (), h)
        | Raise TypeError => (Ok (), h)
        | Raise e => (Raise e, h)
        | Ok l =>
            match h !! l with
            | Some (OValue d) =>
                let '(r, d1) := from_dict d in
                let h1 := <[l := OValue d1]> h in
                match r with
                | Raise KeyError => (Ok (), h1)
                | Raise TypeError => (Ok (), h1)
                | Raise e => (Raise e, h1)
                | Ok phpp_window =>
                    match param_dict !! name with
                    | None => (Ok (), h1)
                    | Some window_factors =>
                        let '(phpp, d2) := shade phpp_window window_factors d1 in
                        let '(h2, v) := alloc (<[l := OValue d2]> h) (OValue phpp) in
                        let user_data := Some {[ "phpp" := v ]} in
                        (Ok (), <[aperture := OAperture name user_data]> h2)
                    end
                end
            | _ => (Raise AttributeError, h)
            end
        end
    | _ => (Raise AttributeError, h)
    end.

Definition apply_to_face (param_dict : gmap string Params) (face : loc) : M unit :=
  fun h =>
    match h !! face with
    | Some (OFace aps) =>
        match for_each (apply_to_aperture param_dict) aps h with
        | (Ok _, h1) => (Ok (), h1)
        | (Raise e, h1) => (Raise e, h1)
        end
    | _ => (Raise AttributeError, h)
    end.

(** The body of the loop over [_HB_rooms]; what it returns is appended to
    [HB_rooms_]. *)
Definition apply_to_room (param_dict : gmap string Params) (room : loc) : M loc :=
  do! new_room := duplicate room in
  do! _ :=
    (fun h =>
       match h !! new_room with
       | Some (ORoom fs) => for_each (apply_to_face param_dict) fs h
       | _ => (Raise AttributeError, h)
       end) in
  ret new_room.

(** What a run of the component leaves: the outputs or the exception that
    ended it, the store and the runtime messages. *)
Record run := {
  HB_rooms_ : res (list loc);
  store : heap;
  messages : list (level * string)
}.

Definition component (_HB_rooms : list loc) (_window_names : list string)
  (_winter_shading_factors _summer_shading_factors : list val) (h : heap) : run :=
  let msgs :=
    if length_mismatch _window_names _winter_shading_factors _summer_shading_factors
    then [(Warning, warning)] else [] in
  match build_param_dict 0 _window_names _winter_shading_factors
          _summer_shading_factors ∅ with
  | Raise e => {| HB_rooms_ := Raise e; store := h; messages := msgs |}
  | Ok param_dict =>
      match for_each (apply_to_room param_dict) _HB_rooms h with
      | (Raise e, h1) => {| HB_rooms_ := Raise e; store := h1; messages := msgs |}
      | (Ok rooms, h1) =>
          {| HB_rooms_ := Ok rooms; store := h1;
             messages := msgs ++ zero_warnings param_dict |}
      end
  end.

End Component.

End ApplyWindowShadingFactors.

(** ** ghuser_py/LBT2PH_CreateWindowReveals.py *)

Module CreateWindowReveals.

Section Component.

(** Geometry belongs to the host: Honeybee face geometry, the Rhino
    geometry made from it, and the reveal and window surfaces of a
    [PHPP_Window]. *)
Variable Face3D : Type.
Variable Brep : Type.
Variable from_face3d : Face3D -> Brep.

(** [LBT2PH.windows.PHPP_Window] is not part of the files at hand. Its two
    geometric properties are computed and may raise. *)
Variable PHPP_Window : Type.
Variable from_dict : val -> res PHPP_Window.
Variable reveal_geometry : PHPP_Window -> res (list Brep).
Variable inset_window_surface : PHPP_Window -> res Brep.

(** The component only reads the rooms: they are plain data here. *)
Record aperture := { display_name : string; user_data : val }.

Record face := {
  geometry : Face3D;
  punched_geometry : Face3D;
  apertures : list aperture
}.

Record room := { faces : list face }.

(** The variables of the script. [window_surrounds_] is a Grasshopper data
    tree: a list of items under each path. *)
Record vars := {
  window_surrounds_ : gmap nat (list Brep);
  envelope_surfaces_ : list Brep;
  window_names_ : list string;
  window_surfaces_ : list Brep;
  envelope_surfaces_punched : list Brep;
  count : nat
}.

Definition initial : vars :=
  {| window_surrounds_ := ∅; envelope_surfaces_ := []; window_names_ := [];
     window_surfaces_ := []; envelope_surfaces_punched := []; count := 0 |}.

(** [window_surrounds_.AddRange(items, GH_Path(count))] *)
Definition add_range (st : vars) (items : list Brep) : vars :=
  {| window_surrounds_ :=
       <[count st := default [] (window_surrounds_ st !! count st) ++ items]>
         (window_surrounds_ st);
     envelope_surfaces_ := envelope_surfaces_ st;
     window_names_ := window_names_ st;
     window_surfaces_ := window_surfaces_ st;
     envelope_surfaces_punched := envelope_surfaces_punched st;
     count := count st |}.

(** The three statements after [AddRange]: append the surface, append the
    name, count the window. *)
Definition record_window (st : vars) (name : string) (surface : Brep) : vars :=
  {| window_surrounds_ := window_surrounds_ st;
     envelope_surfaces_ := envelope_surfaces_ st;
     window_names_ := window_names_ st ++ [name];
     window_surfaces_ := window_surfaces_ st ++ [surface];
     envelope_surfaces_punched := envelope_surfaces_punched st;
     count := S (count st) |}.

(** The first two statements of the loop over the faces. *)
Definition add_envelope (st : vars) (f : face) : vars :=
  {| window_surrounds_ := window_surrounds_ st;
     envelope_surfaces_ := envelope_surfaces_ st ++ [from_face3d (geometry f)];
     window_names_ := window_names_ st;
     window_surfaces_ := window_surfaces_ st;
     envelope_surfaces_punched :=
       envelope_surfaces_punched st ++ [from_face3d (punched_geometry f)];
     count := count st |}.

(** The two handlers of the [try]: KeyError and TypeError are printed and
    passed over, anything else ends the script. *)
Definition handle (e : exn) (st : vars) : res unit * vars :=
  match e with
  | KeyError => (Ok (), st)
  | TypeError => (Ok (), st)
  | _ => (Raise e, st)
  end.

(** The body of the loop over the apertures of a face. *)
Definition reveal_aperture (ap : aperture) (st : vars) : res unit * vars :=
  let name := display_name ap in
  match (try! d := helpers.getitem (user_data ap) "phpp" in from_dict d) with
  | Raise e => handle e st
  | Ok phpp_window =>
      match reveal_geometry phpp_window with
      | Raise e => handle e st
      | Ok items =>
          let st1 := add_range st items in
          match inset_window_surface phpp_window with
          | Raise e => handle e st1
          | Ok surface => (Ok (), record_window st1 name surface)
          end
      end
  end.

(** [for x in xs: body(x)] over the variables of the script. *)
Fixpoint loop {A} (body : A -> vars -> res unit * vars) (xs : list A) (st : vars)
  : res unit * vars :=
  match xs with
  | [] => (Ok (), st)
  | x :: rest =>
      match body x st with
      | (Ok _, st1) => loop body rest st1
      | (Raise e, st1) => (Raise e, st1)
      end
  end.

Definition reveal_face (f : face) (st : vars) : res unit * vars :=
  let st1 := add_envelope st f in
  match apertures f with
  | [] => (Ok (), st1)
  | aps => loop reveal_aperture aps st1
  end.

Definition reveal_room (hb_room : room) (st : vars) : res unit * vars :=
  loop reveal_face (faces hb_room) st.

(** The whole script: how it ended and the variables it leaves. *)
Definition component (_HB_rooms : list room) : res unit * vars :=
  loop reveal_room _HB_rooms initial.

(** What one aperture adds to [window_names_] and [window_surfaces_]: its
    name and its inset surface when the window is rebuilt and both of its
    properties are computed, nothing otherwise. *)
Definition contribution (ap : aperture) : option (string * Brep) :=
  match (try! d := helpers.getitem (user_data ap) "phpp" in
         try! w := from_dict d in
         try! _ := reveal_geometry w in
         inset_window_surface w) with
  | Ok surface => Some (display_name ap, surface)
  | Raise _ => None
  end.

(** The apertures in the order the loops visit them. *)
Definition all_apertures (_HB_rooms : list room) : list aperture :=
  r ← _HB_rooms; f ← faces r; apertures f.

End Component.

End CreateWindowReveals.

(** ** ghuser_py/LBT2PH_DHW_Piping_Recirc.py *)

Module DHW_Piping_Recirc.

(** [s.split(sep)[0]] for a separator that is not empty: the text before
    the first place where [sep] occurs, all of [s] when it occurs nowhere. *)
Fixpoint split_head (sep s : string) : string :=
  match s with
  | EmptyString => EmptyString
  | String c r =>
      if String.prefix sep s then EmptyString else String c (split_head sep r)
  end.

(** [sub in x]: a text is searched, a dictionary is asked for the key, and
    nothing else can be iterated. *)
Definition contains (sub : string) (x : val) : res bool :=
  match x with
  | VStr s => Ok (str_in sub s)
  | VDict d => Ok (bool_decide (is_Some (d !! sub)))
  | _ => Raise TypeError
  end.

(** [x.split(sep)[0]]: only a text has the method. *)
Definition split_first (x : val) (sep : string) : res val :=
  match x with
  | VStr s => Ok (VStr (split_head sep s))
  | _ => Raise AttributeError
  end.

(** One of the two [if] blocks of [cleanPipeDimInputs]; the function has
    the same block for the diameter and for the thickness. *)
Definition clean_dimension (_dim : val) : res val :=
  match _dim with
  | VNone => Ok _dim
  | _ =>
      try! noted := contains " (" _dim in
      if noted then
        try! head := split_first _dim " (" in
        try! f := py_float head in
        Ok (VFloat f)
      else Ok _dim
  end.

Definition cleanPipeDimInputs (_diam _thickness : val) : res (val * val) :=
  try! _diam := clean_dimension _diam in
  try! _thickness := clean_dimension _thickness in
  Ok (_diam, _thickness).

(** The named tuple returned by [get_values_from_Rhino]. *)
Record Output := {
  lengths : list pyfloat;
  diams : list val;
  insul_thicknesses : list val;
  insul_conductivities : list val;
  insul_reflectives : list val
}.

(** What the handler reads of the object an input refers to: the length of
    its curve and its four user texts, each one a text or [None]. *)
Record rhino_object := {
  curve_length : pyfloat;
  insulation_conductivity : val;
  insulation_reflective : val;
  insulation_thickness : val;
  pipe_diameter : val
}.

Definition message (e input : string) : string :=
  (e ++ nl ++ "Sorry, I am not sure what to do with the input: " ++ input
     ++ " in 'pipe_geom_'?" ++ nl
     ++ "Please input either a Curve or a number/numbers representing the pipe segments.")%string.

Section Component.

(** What Grasshopper and Rhino own. An input of the component is a Python
    value or an object of the host (a referenced curve); [host_float] is
    [float] on such an object; [find_object i] stands for the statements of
    the handler that look up the object behind input [i] and read its length
    and user texts; [str_exn] and [str_input] are [str] on an exception and
    the text [format] makes of an input. *)
Variable host : Type.

Inductive input :=
| Value (v : val)
| Reference (h : host).

Variable host_float : host → res pyfloat.
Variable find_object : nat → res rhino_object.
Variable str_exn : exn → string.
Variable str_input : input → string.

(** [float(convert_value_to_metric(input, 'M'))]. For an object of the host
    [convert_value_to_metric] returns the float when [float] reads the
    object and the object itself when it does not, since [re.split] then
    raises under the bare [except]; [float] is then asked again. *)
Definition length_of (x : input) : res pyfloat :=
  match x with
  | Value v =>
      try! r := helpers.convert_value_to_metric v (VStr "M") in
      py_float r
  | Reference h => host_float h
  end.

(** The statements under the inner [try]: nothing is appended before
    [cleanPipeDimInputs] has returned. *)
Definition from_scene (i : nat) : res (rhino_object * val * val) :=
  try! rh_obj := find_object i in
  try! dt := cleanPipeDimInputs (pipe_diameter rh_obj)
                (insulation_thickness rh_obj) in
  let '(d, t) := dt in
  Ok (rh_obj, d, t).

(** The loop of [get_values_from_Rhino] from index [i] on. Only an
    AttributeError of the first statement reaches the handler, and the
    handler turns every exception of its own statements into a warning;
    any other exception of the first statement leaves the function, with
    the warnings given so far. *)
Fixpoint loop (i : nat) (_inputs : list input) (out : Output)
  (msgs : list (level * string)) : res Output * list (level * string) :=
  match _inputs with
  | [] => (Ok out, msgs)
  | x :: rest =>
      match length_of x with
      | Ok length =>
          loop (S i) rest
            {| lengths := lengths out ++ [length];
               diams := diams out;
               insul_thicknesses := insul_thicknesses out;
               insul_conductivities := insul_conductivities out;
               insul_reflectives := insul_reflectives out |} msgs
      | Raise AttributeError =>
          match from_scene i with
          | Ok (rh_obj, d, t) =>
              loop (S i) rest
                {| lengths := lengths out ++ [curve_length rh_obj];
                   diams := diams out ++ [d];
                   insul_thicknesses := insul_thicknesses out ++ [t];
                   insul_conductivities :=
                     insul_conductivities out ++ [insulation_conductivity rh_obj];
                   insul_reflectives :=
                     insul_reflectives out ++ [insulation_reflective rh_obj] |}
                msgs
          | Raise e =>
              loop (S i) rest out
                (msgs ++ [(Warning, message (str_exn e) (str_input x))])
          end
      | Raise e => (Raise e, msgs)
      end
  end.

Definition get_values_from_Rhino (_inputs : list input)
  : res Output * list (level * string) :=
  loop 0 _inputs
    {| lengths := []; diams := []; insul_thicknesses := [];
       insul_conductivities := []; insul_reflectives := [] |} [].

End Component.

Arguments Value {host} v.
Arguments Reference {host} h.

(** [clean_input(_input, _unit)]: [convert_value_to_metric] on each entry,
    in order. *)
Fixpoint clean_input (_input : list val) (_unit : val) : res (list val) :=
  match _input with
  | [] => Ok []
  | x :: rest =>
      try! v := helpers.convert_value_to_metric x _unit in
      try! vs := clean_input rest _unit in
      Ok (v :: vs)
  end.

End DHW_Piping_Recirc.

(** * The vocabulary of the statements *)

Import helpers.

(** Every character of [s] satisfies [P]. *)
Fixpoint str_all (P : ascii -> bool) (s : string) : bool :=
  match s with
  | EmptyString => true
  | String c r => P c && str_all P r
  end.

(** The unit names [find_input_string] can return. *)
Definition input_units : list string := ["FT"; "IN"; "MM"; "CM"; "M"; "IP"; "SI"].

(** [post] is empty or starts with a character that is neither a digit nor
    a period. *)
Definition run_ends (post : string) : Prop :=
  match post with
  | EmptyString => True
  | String c _ => is_numeric_char c = false
  end.

(** [run] is the first maximal run of digits and periods of [s]: nothing
    before it is a digit or a period, it is not empty, and it stops at the
    end of [s] or at a character of another kind. *)
Definition is_first_run (s run : string) : Prop :=
  ∃ pre post,
    s = (pre ++ run ++ post)%string
    ∧ str_all (λ c, negb (is_numeric_char c)) pre = true
    ∧ run ≠ EmptyString
    ∧ str_all is_numeric_char run = true
    ∧ run_ends post.

(** The characters of a decimal literal. *)
Definition is_decimal_char (c : ascii) : bool :=
  is_digit c
  || match N_of_ascii c with
     | 46 | 101 | 69 | 43 | 45 => true
     | _ => false
     end%N.

(** Digits, periods and white space: what stands before the unit. *)
Definition is_neutral_char (c : ascii) : bool := is_numeric_char c || is_space c.

(** The integers that [float] turns into a float. On a larger one Python
    raises OverflowError, which [py_float] leaves out: the statements about
    what returns are made for the integers in this range. *)
Definition in_float_range (v : val) : Prop :=
  match v with
  | VInt z => (Z.abs z < 2 ^ 1023)%Z
  | _ => True
  end.

(** A call that writes into a dictionary keeps the entries under the
    other keys. *)
Definition keeps_others (d : gmap string val) (u : val) : Prop :=
  ∃ d', u = VDict d' ∧ ∀ k, k ≠ "phpp" → d' !! k = d !! k.

(** The object at [a] is an aperture. *)
Definition is_aperture (h : heap) (a : loc) : Prop :=
  ∃ n u, h !! a = Some (OAperture n u).

(** What the dictionary [u] holds under its keys are value objects of the
    store. *)
Definition holds_values (h : heap) (u : option (gmap string loc)) : Prop :=
  ∀ d k l, u = Some d → d !! k = Some l → ∃ v, h !! l = Some (OValue v).

(** An aperture whose [user_data] holds values, a face whose apertures are
    such apertures, and a room whose faces are such faces. *)
Definition wf_aperture (h : heap) (a : loc) : Prop :=
  ∃ n u, h !! a = Some (OAperture n u) ∧ holds_values h u.

Definition wf_face (h : heap) (f : loc) : Prop :=
  ∃ aps, h !! f = Some (OFace aps) ∧ Forall (wf_aperture h) aps.

Definition wf_room (h : heap) (r : loc) : Prop :=
  ∃ fs, h !! r = Some (ORoom fs) ∧ Forall (wf_face h) fs.

(** Objects made after the store had [b] objects. *)
Definition new_aperture (b : nat) (h : heap) (a : loc) : Prop :=
  b ≤ a ∧ is_aperture h a.

Definition new_face (b : nat) (h : heap) (f : loc) : Prop :=
  b ≤ f ∧ ∃ aps, h !! f = Some (OFace aps) ∧ Forall (new_aperture b h) aps.

Definition new_room (b : nat) (h : heap) (r : loc) : Prop :=
  b ≤ r ∧ ∃ fs, h !! r = Some (ORoom fs) ∧ Forall (new_face b h) fs.

(** [changes w b h h']: an object of [h] that is not the same in [h'] is
    an aperture made after the store had [b] objects, which differs in its
    [user_data], or, when [w] is true, a value, which differs in what it
    holds. *)
Definition changes (w : bool) (b : nat) (h h' : heap) : Prop :=
  ∀ l o, h !! l = Some o →
    h' !! l = Some o
    ∨ (b ≤ l ∧ ∃ n u u', o = OAperture n u ∧ h' !! l = Some (OAperture n u'))
    ∨ (w = true ∧ ∃ v v', o = OValue v ∧ h' !! l = Some (OValue v')).

(** [rewrites w b h h']: the store changes in this way, and the only
    objects added are values. *)
Definition rewrites (w : bool) (b : nat) (h h' : heap) : Prop :=
  changes w b h h'
  ∧ ∀ l o, length h ≤ l → h' !! l = Some o → ∃ v, o = OValue v.

(** [grows h h']: from [h] to [h'] rooms and faces stay as they are, a
    value stays a value, whatever it holds, and an aperture keeps its name
    and is given no [user_data] but one that holds values. *)
Definition grows (h h' : heap) : Prop :=
  ∀ l o, h !! l = Some o →
    h' !! l = Some o
    ∨ (∃ v v', o = OValue v ∧ h' !! l = Some (OValue v'))
    ∨ (∃ n u u', o = OAperture n u ∧ h' !! l = Some (OAperture n u')
                 ∧ holds_values h' u').

(** [from_dict] raises nothing but what the component handles. *)
Definition handled {W} (from_dict : val → res W * val) : Prop :=
  ∀ d e, (from_dict d).1 = Raise e → e = KeyError ∨ e = TypeError.

(** The operations on a window leave the object that [from_dict] was
    handed as it was. *)
Definition reads_only {W} (from_dict : val → res W * val)
  (set_winter set_summer : W → pyfloat → val → W * val)
  (set_dimensions : W → val → val → W * val) (to_dict : W → val → val * val)
  : Prop :=
  (∀ d, (from_dict d).2 = d)
  ∧ (∀ w f d, (set_winter w f d).2 = d)
  ∧ (∀ w f d, (set_summer w f d).2 = d)
  ∧ (∀ w v d, (set_dimensions w v d).2 = d)
  ∧ (∀ w d, (to_dict w d).2 = d).

(** [out] are the rooms made from [rooms], one after the other: each is
    what [duplicate] returned for the room of the same index, and from then
    on to the next room the store changes as [R] says, for the number of
    objects it had before the room was copied. *)
Fixpoint copies (R : nat → heap → heap → Prop) (rooms out : list loc)
  (h h' : heap) : Prop :=
  match rooms, out with
  | [], [] => h' = h
  | room :: rooms, new_room :: out =>
      ∃ h1 h2,
        duplicate room h = (Ok new_room, h1)
        ∧ R (length h) h1 h2
        ∧ copies R rooms out h2 h'
  | _, _ => False
  end.

(** [u] is the [user_data] the component writes on an aperture named [n]:
    the one key phpp, holding an object of the store [g] with what [shade]
    returns for a window that [from_dict] made of a value of the store and
    for the two factors recorded for [n]. *)
Definition shaded {W} (from_dict : val → res W * val)
  (shade : W → ApplyWindowShadingFactors.Params → val → val * val)
  (pd : gmap string ApplyWindowShadingFactors.Params) (g : heap) (n : string)
  (u : option (gmap string loc)) : Prop :=
  ∃ w p v l d,
    pd !! n = Some p
    ∧ g !! l = Some (OValue d)
    ∧ (from_dict d).1 = Ok w
    ∧ u = Some {[ "phpp" := v ]}
    ∧ g !! v = Some (OValue (shade w p d).1).

(** Every aperture of [g] is as some aperture of [h] of the same name, or
    has the [user_data] the component writes for its name. *)
Definition copied_or_shaded {W} (from_dict : val → res W * val)
  (shade : W → ApplyWindowShadingFactors.Params → val → val * val)
  (pd : gmap string ApplyWindowShadingFactors.Params) (h g : heap) : Prop :=
  ∀ l n u,
    g !! l = Some (OAperture n u) →
    (∃ l0, h !! l0 = Some (OAperture n u)) ∨ shaded from_dict shade pd g n u.

(** The reveal surfaces that one aperture adds to [window_surrounds_] when
    its window is rebuilt and both of its properties are computed. *)
Definition reveal_items {Brep W} (from_dict : val → res W)
  (reveal_geometry : W → res (list Brep)) (inset_window_surface : W → res Brep)
  (ap : CreateWindowReveals.aperture) : option (list Brep) :=
  match (try! d := getitem (CreateWindowReveals.user_data ap) "phpp" in
         try! w := from_dict d in
         try! items := reveal_geometry w in
         try! _ := inset_window_surface w in
         Ok items) with
  | Ok items => Some items
  | Raise _ => None
  end.

(** No window whose reveal surfaces were computed fails on its inset
    surface with an exception that the script handles: a branch of the
    tree is never left without its window. *)
Definition no_late_failure {Brep W} (reveal_geometry : W → res (list Brep))
  (inset_window_surface : W → res Brep) : Prop :=
  ∀ w items e,
    reveal_geometry w = Ok items → inset_window_surface w = Raise e →
    e ≠ KeyError ∧ e ≠ TypeError.

(** *** The hot-water piping *)

Import DHW_Piping_Recirc.

(** [float(convert_value_to_metric(v, 'M'))] of each value in turn, up to
    the first one that raises. *)
Fixpoint lengths_of (vs : list val) : res (list pyfloat) :=
  match vs with
  | [] => Ok []
  | v :: rest =>
      try! c := convert_value_to_metric v (VStr "M") in
      try! f := py_float c in
      try! fs := lengths_of rest in
      Ok (f :: fs)
  end.

(** A value in which no length is found: [None], a dictionary, or a text
    that is no number and whose first run of digits and periods, if it has
    one, is no number either. *)
Definition no_length (v : val) : Prop :=
  match v with
  | VNone | VDict _ => True
  | VStr s =>
      float_of_string s = None
      ∧ ∀ run, is_first_run s run → float_of_string run = None
  | VInt _ | VFloat _ => False
  end.

(** What [cleanPipeDimInputs] makes of a user text: [None] and a text
    without a bracketed note stay as they are; of a text with a note, the
    number in front of the first note is kept, as a float. *)
Definition cleaned (x y : val) : Prop :=
  (x = VNone ∧ y = VNone)
  ∨ (∃ s, x = VStr s ∧ str_in " (" s = false ∧ y = VStr s)
  ∨ (∃ pre post f,
       x = VStr (pre ++ " (" ++ post)%string
       ∧ str_in " (" pre = false
       ∧ float_of_string pre = Some f
       ∧ y = VFloat f).

(** The exception of [float] on a value it does not read. *)
Definition float_error (v : val) : exn :=
  match v with
  | VStr _ => ValueError
  | _ => TypeError
  end.

(** * Properties *)

(** ** Strings *)

Lemma str_all_app P s t :
  str_all P (s ++ t)%string = str_all P s && str_all P t.
Proof.
  induction s as [|c s IH]; simpl; [done|].
  by rewrite IH, andb_assoc.
Qed.

Lemma str_all_rev_app P s t :
  str_all P (String.rev_app s t) = str_all P s && str_all P t.
Proof.
  revert t. induction s as [|c s IH]; intros t; simpl; [done|].
  rewrite IH. simpl. destruct (P c), (str_all P s); simpl; try done.
Qed.

Lemma str_all_rev P s : str_all P (String.rev s) = str_all P s.
Proof. unfold String.rev. rewrite str_all_rev_app. simpl. apply andb_true_r. Qed.

Lemma str_all_lstrip P s : str_all P s = true -> str_all P (lstrip s) = true.
Proof.
  induction s as [|c s IH]; simpl; [done|].
  intros [Hc Hs]%andb_true_iff. destruct (is_space c); [auto|].
  simpl. by rewrite Hc, Hs.
Qed.

Lemma str_all_strip P s : str_all P s = true -> str_all P (strip s) = true.
Proof.
  intros H. unfold strip. rewrite str_all_rev.
  apply str_all_lstrip. rewrite str_all_rev. by apply str_all_lstrip.
Qed.

Lemma prefix_str_in sub s : String.prefix sub s = true -> str_in sub s = true.
Proof. intros H. destruct s; cbn [str_in]; by rewrite H. Qed.

Lemma str_in_cons sub c s : str_in sub s = true -> str_in sub (String c s) = true.
Proof. intros H. cbn [str_in]. rewrite H. apply orb_true_r. Qed.

(** A text in which FT3 occurs has FT in it. *)
Lemma str_in_FT3_FT s : str_in "FT3" s = true -> str_in "FT" s = true.
Proof.
  induction s as [|c s IH]; [done|].
  change (str_in "FT3" (String c s))
    with (String.prefix "FT3" (String c s) || str_in "FT3" s).
  intros [H|H]%orb_true_iff; [|by apply str_in_cons, IH].
  apply prefix_str_in.
  destruct s as [|d [|e s]]; simpl in *;
    repeat (match goal with
            | H : context [if ?b then _ else _] |- _ => destruct b eqn:?
            end; try done).
Qed.

(** ** helpers.py: the unit found in a text *)

Lemma find_input_string_cases s : find_input_string s ∈ input_units.
Proof.
  unfold find_input_string, input_units.
  repeat (match goal with
          | |- context [if ?b then _ else _] => destruct b eqn:?
          end);
    try (exfalso;
         match goal with
         | H : str_in "FT3" _ = true |- _ => apply str_in_FT3_FT in H
         end;
         match goal with
         | H : _ || _ = false |- _ => apply orb_false_iff in H as [H _]; congruence
         end);
    repeat first [apply list_elem_of_here | apply list_elem_of_further].
Qed.

(** C9. [find_input_string] returns one of FT, IN, MM, CM, M, IP and SI and
    never FT3: a text with FT3 in it has FT in it and is answered FT by the
    first branch. So the factor looked up in the M3 row of the schema for
    the unit that [find_input_string] returns is the default 1 and never
    the FT3 entry. *)
Theorem find_input_string_never_FT3 (s : string) :
  find_input_string s ∈ input_units
  ∧ find_input_string s ≠ "FT3"
  ∧ (str_in "FT3" (upper s) = true → find_input_string s = "FT")
  ∧ conversion_factor (VStr "M3") (find_input_string s) = Ok (VInt 1)
  ∧ schema !! "M3" ≫= (.!! "FT3") = Some (VFloat (Finite 0.028316847)).
Proof.
  pose proof (find_input_string_cases s) as Hin.
  split; [done|]. split.
  { intros E. rewrite E in Hin. unfold input_units in Hin.
    repeat (apply elem_of_cons in Hin as [Hin|Hin]; [discriminate|]).
    by apply elem_of_nil in Hin. }
  split.
  { intros H. apply str_in_FT3_FT in H. unfold find_input_string.
    by rewrite H. }
  split; [|by vm_compute].
  unfold input_units in Hin.
  repeat (apply elem_of_cons in Hin as [-> |Hin]; [by vm_compute|]).
  by apply elem_of_nil in Hin.
Qed.

(** ** helpers.py: the number found in a text *)

(** The first piece of [re.split] is the numeric prefix of the text. *)
Lemma re_split_text_head s :
  ∃ p ps post,
    re_split_text s = p :: ps
    ∧ s = (p ++ post)%string
    ∧ str_all is_numeric_char p = true
    ∧ run_ends post.
Proof.
  induction s as [|c r (p & ps & post & E & Hr & Hp & Hpost)]; simpl.
  - by exists EmptyString, [], EmptyString.
  - destruct (is_numeric_char c) eqn:Hc.
    + rewrite E. exists (String c p), ps, post. simpl.
      rewrite Hc, Hp. subst r. done.
    + exists EmptyString, (re_split_text r), (String c r). simpl. done.
Qed.

(** What the loop over the pieces leaves in [inputValue]: the first run of
    digits and periods, or the former value when the text has none. *)
Lemma first_nonempty_spec s d :
  (str_all (λ c, negb (is_numeric_char c)) s = true
   ∧ first_nonempty (re_split_text s) d = d)
  ∨ (∃ run, is_first_run s run ∧ first_nonempty (re_split_text s) d = VStr run).
Proof.
  induction s as [|c r IH]; simpl.
  - by left.
  - destruct (is_numeric_char c) eqn:Hc; simpl.
    + right. destruct (re_split_text_head r) as (p & ps & post & E & Hr & Hp & Hpost).
      rewrite E. simpl. exists (String c p). split; [|done].
      exists EmptyString, post. simpl. rewrite Hc, Hp. subst r. done.
    + destruct IH as [[Hall E]|(run & (pre & post & Hs & Hpre & Hne & Hrun & Hpost) & E)].
      * left. done.
      * right. exists run. split; [|done].
        exists (String c pre), post. simpl. rewrite Hc, Hpre. subst r. done.
Qed.

(** ** helpers.py: [float] on a run of digits and periods *)

Lemma scale10_nonneg m e : (0 <= scale10 m e)%Q.
Proof.
  unfold scale10. destruct (0 <=? e)%Z eqn:He.
  - apply Z.leb_le in He. unfold Qle, inject_Z. cbn [Qnum Qden].
    assert (0 <= 10 ^ e)%Z by (apply Z.pow_nonneg; lia). nia.
  - unfold Qle. cbn [Qnum Qden]. lia.
Qed.

Lemma parse_decimal_nonneg s q : parse_decimal s = Some q → (0 <= q)%Q.
Proof.
  unfold parse_decimal.
  destruct (take_digits s) as [ip r1].
  destruct (match r1 with String "." r => take_digits r | _ => (EmptyString, r1) end)
    as [fp r2].
  destruct (ip ++ fp)%string; [done|].
  destruct (parse_exponent r2); [|done].
  intros [= <-]. apply scale10_nonneg.
Qed.

Lemma numeric_char_cases c :
  is_numeric_char c = true →
  c ≠ "-"%char ∧ c ≠ "+"%char
  ∧ lower_char c ≠ "i"%char ∧ lower_char c ≠ "n"%char.
Proof.
  destruct c as [[] [] [] [] [] [] [] []]; vm_compute; intros; try done.
Qed.

(** [float] of a text made of digits and periods is a finite number that
    is not negative. *)
Lemma float_of_numeric_nonneg s f :
  str_all is_numeric_char s = true →
  float_of_string s = Some f →
  ∃ q, f = Finite q ∧ (0 <= q)%Q.
Proof.
  intros Hs%str_all_strip. unfold float_of_string.
  destruct (strip s) as [|c r]; [done|].
  simpl in Hs. apply andb_true_iff in Hs as [Hc Hr].
  destruct (numeric_char_cases c Hc) as (Hm & Hp & Hi & Hn).
  assert (parse_sign (String c r) = (false, String c r)) as ->.
  { unfold parse_sign.
    destruct c as [[] [] [] [] [] [] [] []]; try done. }
  assert (String.eqb (lower (String c r)) "inf" = false) as ->.
  { apply String.eqb_neq. intros [= E _]. done. }
  assert (String.eqb (lower (String c r)) "infinity" = false) as ->.
  { apply String.eqb_neq. intros [= E _]. done. }
  assert (String.eqb (lower (String c r)) "nan" = false) as ->.
  { apply String.eqb_neq. intros [= E _]. done. }
  simpl.
  destruct (parse_decimal (String c r)) as [q|] eqn:E; [|done].
  intros [= <-]. exists q. split; [done|]. by eapply parse_decimal_nonneg.
Qed.

(** ** helpers.py: the conversion factors *)

(** Every factor the schema can give, the default included, is a finite
    positive number. *)
Lemma conversion_factor_positive u unit cv :
  conversion_factor u unit = Ok cv →
  ∃ c, py_float cv = Ok (Finite c) ∧ (0 < c)%Q.
Proof.
  assert (∀ row : gmap string val,
            (∀ k v, row !! k = Some v → ∃ c, py_float v = Ok (Finite c) ∧ (0 < c)%Q) →
            dict_get row (VStr unit) (VInt 1) = Ok cv →
            ∃ c, py_float cv = Ok (Finite c) ∧ (0 < c)%Q) as Hrow.
  { intros row Hall. simpl. destruct (row !! unit) as [v|] eqn:E; simpl.
    - intros [= <-]. by eapply Hall.
    - intros [= <-]. by exists 1%Q. }
  unfold conversion_factor.
  destruct (dict_get schema u ∅) as [row|e] eqn:E; [simpl|done].
  apply Hrow. intros k v Hk.
  assert (∃ su, schema !! su = Some row) as [su Hsu].
  { destruct u; simpl in E; try done;
      try (injection E as <-; by rewrite lookup_empty in Hk).
    destruct (schema !! s) eqn:Es; simpl in E; injection E as <-; [by exists s|].
    by rewrite lookup_empty in Hk. }
  unfold schema in Hsu. apply elem_of_list_to_map_2 in Hsu.
  repeat (apply elem_of_cons in Hsu as [[= _ ->]|Hsu];
          [ unfold length_row in Hk; cbn [list_to_map foldr fst snd uncurry] in Hk;
            repeat (apply lookup_insert_Some in Hk as [[_ <-]|[_ Hk]];
                    [eexists; split; [reflexivity|reflexivity]|]);
            by rewrite lookup_empty in Hk | ]).
  by apply elem_of_nil in Hsu.
Qed.

(** ** helpers.py: [convert_value_to_metric] *)

(** C1, at the input the claim names. The text 1 FT3 asked in M3 comes back
    as 1: [find_input_string] answers FT, the M3 row has no FT entry, and
    the default factor 1 is used in place of 0.028316847. The other input
    the claim names, 12 FT asked in M, is converted as it says. *)
Theorem convert_FT3_ignores_factor :
  convert_value_to_metric (VStr "1 FT3") (VStr "M3") = Ok (VFloat (Finite 1))
  ∧ find_input_string "1 FT3" = "FT"
  ∧ conversion_factor (VStr "M3") "FT" = Ok (VInt 1)
  ∧ conversion_factor (VStr "M3") "FT3" = Ok (VFloat (Finite 0.028316847))
  ∧ fmul (Finite 1) (Finite 0.028316847) ≠ Finite 1
  ∧ convert_value_to_metric (VStr "12 FT") (VStr "M")
    = Ok (VFloat (fmul (Finite 12) (Finite 0.3048))).
Proof. repeat split; try by vm_compute. Qed.

(** C10. When [float] cannot read the text and a number comes back, the
    number is the product of the first maximal run of digits and periods
    of the text, read as a float, and of a positive factor: a sign in
    front of the run plays no part and the result is not negative. *)
Theorem convert_from_first_run (s : string) (u : val) (f : pyfloat) :
  float_of_string s = None →
  convert_value_to_metric (VStr s) u = Ok (VFloat f) →
  ∃ run v c,
    is_first_run s run
    ∧ float_of_string run = Some (Finite v) ∧ (0 <= v)%Q
    ∧ bind (conversion_factor u (find_input_string s)) py_float = Ok (Finite c)
    ∧ (0 < c)%Q
    ∧ f = Finite (v * c) ∧ fnonneg f.
Proof.
  intros Hs. unfold convert_value_to_metric. simpl. rewrite Hs.
  destruct (first_nonempty_spec s (VStr s)) as [[_ ->]|(run & Hrun & ->)];
    unfold convert_inner.
  - destruct (conversion_factor u (find_input_string s)); simpl; [|done].
    by rewrite Hs.
  - destruct (conversion_factor u (find_input_string s)) as [cv|] eqn:Ecv;
      simpl; [|done].
    destruct (conversion_factor_positive _ _ _ Ecv) as (c & Hc & Hpos).
    destruct (float_of_string run) as [fv|] eqn:Ev; simpl; [|done].
    rewrite Hc. simpl.
    destruct Hrun as (pre & post & Hsplit & Hpre & Hne & Hnum & Hpost).
    destruct (float_of_numeric_nonneg run fv Hnum Ev) as (v & -> & Hv).
    intros [= <-]. exists run, v, c.
    split; [by exists pre, post|].
    repeat split; try done.
    simpl. apply Qmult_le_0_compat; [done|]. by apply Qlt_le_weak.
Qed.

Lemma convert_from_first_run_witness :
  ∃ run v c,
    is_first_run "-12 FT" run
    ∧ float_of_string run = Some (Finite v) ∧ (0 <= v)%Q
    ∧ bind (conversion_factor (VStr "M") (find_input_string "-12 FT")) py_float
      = Ok (Finite c)
    ∧ (0 < c)%Q
    ∧ fmul (Finite 12) (Finite 0.3048) = Finite (v * c)
    ∧ fnonneg (fmul (Finite 12) (Finite 0.3048)).
Proof.
  apply (convert_from_first_run "-12 FT" (VStr "M")); vm_compute; reflexivity.
Defined.

(** C7, as the claim states it, fails on a text whose first run of digits
    and periods is not a number: that run comes back, not the text. *)
Lemma convert_fallback_counterexample :
  float_of_string "1.2.3 FT" = None
  ∧ convert_inner "1.2.3 FT" (VStr "M")
      (first_nonempty (re_split_text "1.2.3 FT") (VStr "1.2.3 FT"))
    = Raise ValueError
  ∧ convert_value_to_metric (VStr "1.2.3 FT") (VStr "M") = Ok (VStr "1.2.3")
  ∧ VStr "1.2.3" ≠ VStr "1.2.3 FT".
Proof. repeat split; try by vm_compute. Qed.

(** C7, amended. [convert_value_to_metric] returns for every input. None
    gives None. A value that [float] reads gives that float. A value that is
    not a string and that [float] cannot read comes back unchanged. For a
    text that [float] cannot read, when the conversion fails what comes back
    is the value kept by the loop over the pieces: the first maximal run of
    digits and periods when the text has one, the text itself when it has
    none. *)
Theorem convert_value_to_metric_total (x u : val) :
  (∃ v, convert_value_to_metric x u = Ok v)
  ∧ convert_value_to_metric VNone u = Ok VNone
  ∧ (∀ f, x ≠ VNone → py_float x = Ok f →
       convert_value_to_metric x u = Ok (VFloat f))
  ∧ (∀ e, py_float x = Raise e → (∀ s, x ≠ VStr s) →
       convert_value_to_metric x u = Ok x)
  ∧ (∀ s, x = VStr s → float_of_string s = None →
       let kept := first_nonempty (re_split_text s) x in
       (∀ e, convert_inner s u kept = Raise e →
          convert_value_to_metric x u = Ok kept)
       ∧ ((str_all (λ c, negb (is_numeric_char c)) s = true ∧ kept = x)
          ∨ (∃ run, is_first_run s run ∧ kept = VStr run))).
Proof.
  split.
  { unfold convert_value_to_metric.
    destruct x; simpl; eauto.
    destruct (float_of_string s); eauto.
    destruct (convert_inner _ _ _); eauto. }
  split; [done|]. split.
  { intros f Hx Hf. unfold convert_value_to_metric.
    destruct x; try done; by rewrite Hf. }
  split.
  { intros e He Hns. unfold convert_value_to_metric.
    destruct x; try done. by destruct (Hns s). }
  intros s -> Hs kept. split.
  - intros e He. unfold convert_value_to_metric. simpl. rewrite Hs.
    fold kept. by rewrite He.
  - subst kept. destruct (first_nonempty_spec s (VStr s)) as [[? ?]|?]; auto.
Qed.

(** ** helpers.py: a number followed by a unit *)

Lemma str_all_impl (P Q : ascii → bool) s :
  (∀ c, P c = true → Q c = true) → str_all P s = true → str_all Q s = true.
Proof.
  intros HPQ. induction s as [|c s IH]; simpl; [done|].
  intros [Hc Hs]%andb_true_iff. by rewrite (HPQ _ Hc), IH.
Qed.

Lemma append_cons c (s t : string) : (String c s ++ t)%string = String c (s ++ t).
Proof. reflexivity. Qed.

Lemma append_assoc (s t u : string) : ((s ++ t) ++ u = s ++ (t ++ u))%string.
Proof. induction s as [|c s IH]; [done|]. by rewrite !append_cons, IH. Qed.

Lemma append_empty_r (s : string) : (s ++ EmptyString)%string = s.
Proof. induction s as [|c s IH]; [done|]. by rewrite append_cons, IH. Qed.

Lemma rev_app_append s t : String.rev_app s t = (String.rev s ++ t)%string.
Proof.
  unfold String.rev. revert t. induction s as [|c s IH]; intros t; [done|].
  simpl. rewrite IH, (IH (String c EmptyString)), append_assoc. done.
Qed.

Lemma rev_cons c s : String.rev (String c s) = (String.rev s ++ String c EmptyString)%string.
Proof. unfold String.rev at 1. simpl. apply rev_app_append. Qed.

Lemma rev_append s t : String.rev (s ++ t) = (String.rev t ++ String.rev s)%string.
Proof.
  induction s as [|c s IH].
  - by rewrite append_empty_r.
  - by rewrite append_cons, !rev_cons, IH, append_assoc.
Qed.

Lemma rev_involutive s : String.rev (String.rev s) = s.
Proof.
  induction s as [|c s IH]; [done|].
  by rewrite rev_cons, rev_append, IH.
Qed.

(** [strip] leaves a text that neither starts nor ends with white space. *)
Lemma strip_id c s d t :
  is_space c = false → is_space d = false →
  String.rev (String c s) = String d t →
  strip (String c s) = String c s.
Proof.
  intros Hc Hd Hrev. unfold strip. simpl. rewrite Hc, Hrev. simpl.
  rewrite Hd, <- Hrev. apply rev_involutive.
Qed.

Lemma take_digits_spec s d r :
  take_digits s = (d, r) → s = (d ++ r)%string ∧ str_all is_digit d = true.
Proof.
  revert d r. induction s as [|c s IH]; intros d r; simpl.
  - by intros [= <- <-].
  - destruct (is_digit c) eqn:Hc; [|by intros [= <- <-]].
    destruct (take_digits s) as [d' r'] eqn:E. intros [= <- <-].
    destruct (IH _ _ eq_refl) as [-> Hd]. simpl. by rewrite Hc.
Qed.

Lemma parse_sign_chars s neg r :
  parse_sign s = (neg, r) →
  str_all is_decimal_char r = true → str_all is_decimal_char s = true.
Proof.
  unfold parse_sign. intros H Hr.
  destruct s as [|c s]; [by simplify_eq|].
  destruct c as [[] [] [] [] [] [] [] []]; simplify_eq/=; done.
Qed.

Lemma parse_exponent_chars s e :
  parse_exponent s = Some e → str_all is_decimal_char s = true.
Proof.
  unfold parse_exponent. destruct s as [|c s]; [done|].
  destruct (_ || _) eqn:Hc; [|done].
  destruct (parse_sign s) as [neg r1] eqn:Es.
  destruct (take_digits r1) as [ds r2] eqn:Ed.
  destruct ds; [done|]. destruct r2; [|done]. intros _.
  apply take_digits_spec in Ed as [-> Hds]. rewrite append_empty_r in Es.
  simpl. apply andb_true_iff. split.
  - unfold is_decimal_char. apply orb_true_iff in Hc as [->%N.eqb_eq| ->%N.eqb_eq];
      apply orb_true_r.
  - eapply parse_sign_chars; [done|].
    eapply str_all_impl; [|done]. intros ch Hch. unfold is_decimal_char. by rewrite Hch.
Qed.

(** A text read as a decimal literal is made of digits, periods, signs
    and the letter e. *)
Lemma parse_decimal_chars s q :
  parse_decimal s = Some q → str_all is_decimal_char s = true.
Proof.
  assert (∀ t, str_all is_digit t = true → str_all is_decimal_char t = true) as Hdig.
  { intros t. apply str_all_impl. intros ch Hch. unfold is_decimal_char. by rewrite Hch. }
  unfold parse_decimal.
  destruct (take_digits s) as [ip r1] eqn:E1.
  apply take_digits_spec in E1 as [-> Hip].
  destruct (match r1 with String "." r => take_digits r | _ => (EmptyString, r1) end)
    as [fp r2] eqn:E2.
  destruct (ip ++ fp)%string; [done|].
  destruct (parse_exponent r2) as [e|] eqn:E3; [|done]. intros _.
  apply parse_exponent_chars in E3.
  rewrite str_all_app, (Hdig _ Hip). simpl.
  destruct r1 as [|c r]; [by simplify_eq|].
  destruct (Ascii.eqb c ".") eqn:Hc.
  - apply Ascii.eqb_eq in Hc as ->.
    apply take_digits_spec in E2 as [-> Hfp].
    simpl. by rewrite str_all_app, (Hdig _ Hfp), E3.
  - assert (r2 = String c r) as <-; [|done].
    destruct c as [[] [] [] [] [] [] [] []]; simplify_eq/=; done.
Qed.

Lemma upper_app s t : upper (s ++ t) = (upper s ++ upper t)%string.
Proof.
  unfold upper. induction s as [|c s IH]; [done|].
  rewrite ?append_cons. simpl. by rewrite IH.
Qed.

Lemma upper_neutral s : str_all is_neutral_char s = true → upper s = s.
Proof.
  unfold upper. induction s as [|c s IH]; simpl; [done|].
  intros [Hc Hs]%andb_true_iff. rewrite (IH Hs). f_equal.
  revert Hc. clear. destruct c as [[] [] [] [] [] [] [] []]; by vm_compute.
Qed.

(** A text cannot start inside a prefix none of whose characters is its
    first character. *)
Lemma str_in_skip c0 sub p t :
  str_all (λ c, negb (Ascii.eqb c0 c)) p = true →
  str_in (String c0 sub) (p ++ t) = str_in (String c0 sub) t.
Proof.
  induction p as [|c p IH]; [done|]. simpl.
  intros [Hc Hp]%andb_true_iff. rewrite ?append_cons.
  change (str_in (String c0 sub) (String c (p ++ t)))
    with (String.prefix (String c0 sub) (String c (p ++ t))
          || str_in (String c0 sub) (p ++ t)).
  rewrite (IH Hp). simpl.
  destruct (ascii_dec c0 c) as [->|]; [|done].
  by rewrite Ascii.eqb_refl in Hc.
Qed.

Lemma neutral_not_letter s :
  str_all is_neutral_char s = true →
  Forall (λ c0, str_all (λ c, negb (Ascii.eqb c0 c)) s = true)
    ["F"; "'"; "I"; ascii_of_N 34; "M"; "C"]%char.
Proof.
  intros Hs. repeat (apply Forall_cons; split); try apply Forall_nil; try exact I.
  all: eapply str_all_impl; [|exact Hs]; clear;
    intros c; destruct c as [[] [] [] [] [] [] [] []]; by vm_compute.
Qed.

(** [find_input_string] looks past digits, periods and white space. *)
Lemma find_input_string_skip p t :
  str_all is_neutral_char p = true →
  find_input_string (p ++ t) = find_input_string t.
Proof.
  intros Hp. pose proof (neutral_not_letter p Hp) as Hall.
  repeat (apply Forall_cons in Hall as [? Hall]).
  unfold find_input_string, dquote.
  rewrite upper_app, (upper_neutral p Hp).
  by rewrite !str_in_skip.
Qed.

(** The first piece of [re.split] on a run followed by the rest. *)
Lemma re_split_text_run num rest :
  str_all is_numeric_char num = true → run_ends rest →
  ∃ ps, re_split_text (num ++ rest) = num :: ps.
Proof.
  intros Hnum Hrest. induction num as [|c num IH].
  - destruct rest as [|c rest]; simpl in *; [by eexists|].
    rewrite Hrest. by eexists.
  - simpl in Hnum. apply andb_true_iff in Hnum as [Hc Hnum].
    destruct (IH Hnum) as [ps Hps].
    rewrite append_cons. simpl. rewrite Hc, Hps. by eexists.
Qed.

(** [float] cannot read a text that starts with a digit or a period, does
    not end with white space and has a character that no decimal literal
    has. *)
Lemma float_of_string_fails c s d t :
  is_numeric_char c = true →
  String.rev (String c s) = String d t → is_space d = false →
  str_all is_decimal_char (String c s) = false →
  float_of_string (String c s) = None.
Proof.
  intros Hc Hrev Hd Hchars. unfold float_of_string.
  assert (is_space c = false) as Hsp.
  { revert Hc. clear. destruct c as [[] [] [] [] [] [] [] []]; by vm_compute. }
  rewrite (strip_id c s d t Hsp Hd Hrev).
  destruct (numeric_char_cases c Hc) as (Hm & Hp & Hi & Hn).
  assert (parse_sign (String c s) = (false, String c s)) as ->.
  { unfold parse_sign. destruct c as [[] [] [] [] [] [] [] []]; try done. }
  assert (String.eqb (lower (String c s)) "inf" = false) as ->.
  { apply String.eqb_neq. intros [= E _]. done. }
  assert (String.eqb (lower (String c s)) "infinity" = false) as ->.
  { apply String.eqb_neq. intros [= E _]. done. }
  assert (String.eqb (lower (String c s)) "nan" = false) as ->.
  { apply String.eqb_neq. intros [= E _]. done. }
  simpl. destruct (parse_decimal (String c s)) as [q|] eqn:E; [|done].
  apply parse_decimal_chars in E. congruence.
Qed.

(** What the proof below needs of each unit of the schema but FT3: it does
    not end with white space, does not start with a digit or a period, has
    a character that no decimal literal has, and the factor found for the
    unit that [find_input_string] answers is its own. *)
Lemma schema_unit_facts out row suffix cf :
  schema !! out = Some row → row !! suffix = Some cf → suffix ≠ "FT3" →
  (∃ d t, String.rev suffix = String d t ∧ is_space d = false)
  ∧ run_ends suffix
  ∧ str_all is_decimal_char suffix = false
  ∧ conversion_factor (VStr out) (find_input_string suffix) = Ok cf.
Proof.
  intros Hout Hrow Hne. unfold schema in Hout.
  apply elem_of_list_to_map_2 in Hout.
  repeat (apply elem_of_cons in Hout as [[= -> ->]|Hout];
          [ unfold length_row in Hrow;
            cbn [list_to_map foldr fst snd uncurry] in Hrow;
            repeat (apply lookup_insert_Some in Hrow as [[<- <-]|[_ Hrow]];
                    [first [done | split_and!; try (by vm_compute);
                                   by eexists _, _; split; vm_compute ]|]);
            by rewrite lookup_empty in Hrow | ]).
  by apply elem_of_nil in Hout.
Qed.

Lemma first_nonempty_cons c s ps d :
  first_nonempty (String c s :: ps) d = VStr (String c s).
Proof. reflexivity. Qed.

(** X1, the part of C1 that holds. A decimal number (digits with at most
    one period), white space or none, and a unit of the row of the output
    unit other than FT3 give the number times the factor of the unit. *)
Theorem convert_number_with_unit (num sep suffix out : string)
  (row : gmap string val) (cf : val) (n c : pyfloat) :
  str_all is_numeric_char num = true →
  float_of_string num = Some n →
  str_all is_space sep = true →
  schema !! out = Some row →
  row !! suffix = Some cf →
  suffix ≠ "FT3" →
  py_float cf = Ok c →
  convert_value_to_metric (VStr (num ++ sep ++ suffix)) (VStr out)
  = Ok (VFloat (fmul n c)).
Proof.
  intros Hnum Hn Hsep Hout Hrow Hne Hc.
  destruct (schema_unit_facts _ _ _ _ Hout Hrow Hne)
    as ((d & t & Hrev & Hd) & Hends & Hchars & Hcf).
  destruct num as [|c0 num]; [done|].
  assert (is_numeric_char c0 = true) as Hc0.
  { simpl in Hnum. by apply andb_true_iff in Hnum as [? _]. }
  assert (str_all is_neutral_char (String c0 num ++ sep) = true) as Hneutral.
  { rewrite str_all_app. apply andb_true_iff. split.
    - eapply str_all_impl; [|exact Hnum]. intros a Ha. unfold is_neutral_char.
      by rewrite Ha.
    - eapply str_all_impl; [|exact Hsep]. intros a Ha. unfold is_neutral_char.
      rewrite Ha. apply orb_true_r. }
  assert (run_ends (sep ++ suffix)) as Hrest.
  { destruct sep as [|a sep]; [done|]. simpl in Hsep.
    apply andb_true_iff in Hsep as [Ha _]. rewrite append_cons. simpl.
    revert Ha. clear. destruct a as [[] [] [] [] [] [] [] []]; by vm_compute. }
  assert (float_of_string (String c0 num ++ sep ++ suffix) = None) as Hfail.
  { rewrite append_cons.
    apply (float_of_string_fails c0 _ d (t ++ String.rev sep ++ String.rev (String c0 num)));
      [done| |done|].
    - rewrite <- append_cons, !rev_append, Hrev, <- append_assoc. done.
    - rewrite <- append_cons, !str_all_app, Hchars, !andb_false_r. done. }
  destruct (re_split_text_run (String c0 num) (sep ++ suffix) Hnum Hrest)
    as [ps Hps].
  assert (find_input_string (String c0 num ++ sep ++ suffix)
          = find_input_string suffix) as Hunit.
  { by rewrite <- append_assoc, (find_input_string_skip _ _ Hneutral). }
  revert Hfail Hps Hunit.
  generalize (String c0 num ++ sep ++ suffix)%string. intros s Hfail Hps Hunit.
  unfold convert_value_to_metric, py_float, re_split. rewrite Hfail, Hps.
  rewrite first_nonempty_cons. unfold convert_inner.
  rewrite Hunit, Hcf. unfold bind.
  assert (py_float (VStr (String c0 num)) = Ok n) as ->
    by (unfold py_float; by rewrite Hn).
  by rewrite Hc.
Qed.

Lemma convert_number_with_unit_witness :
  convert_value_to_metric (VStr ("12.5" ++ " " ++ "IN")) (VStr "CM")
  = Ok (VFloat (fmul (Finite 12.5) (Finite 2.54))).
Proof.
  apply (convert_number_with_unit "12.5" " " "IN" "CM"
           (length_row (VInt 100) (VInt 1) (flt 0.1) (flt 30.48) (flt 2.54))
           (flt 2.54));
    by vm_compute.
Defined.

(** ** helpers.py: [add_to_HB_model] *)

(** C3. With the overwrite mode, whether the [user_data] of the model is
    None, a dictionary without a phpp entry (the empty one included) or a
    dictionary whose phpp entry is a dictionary, the call returns the model
    with a [user_data] whose phpp dictionary maps the key to the value
    given. *)
Theorem add_to_HB_model_overwrite (m : hb_obj) (key : string) (dict : val) :
  (user_data m = VNone
   ∨ ∃ d, user_data m = VDict d
          ∧ (d !! "phpp" = None ∨ ∃ p, d !! "phpp" = Some (VDict p))) →
  ∃ m' d' p',
    add_to_HB_model m key dict "overwrite" = Ok m'
    ∧ user_data m' = VDict d'
    ∧ d' !! "phpp" = Some (VDict p')
    ∧ p' !! key = Some dict.
Proof.
  assert (∃ m' d' p',
            Ok (set_user_data m (fresh_phpp key dict)) = Ok m'
            ∧ user_data m' = VDict d'
            ∧ d' !! "phpp" = Some (VDict p')
            ∧ p' !! key = Some dict) as Hfresh.
  { eexists _, _, _. split; [reflexivity|]. split; [reflexivity|].
    split; [apply lookup_singleton_eq|apply lookup_singleton_eq]. }
  unfold add_to_HB_model, deepcopy.
  intros [-> | (d & -> & Hd)]; [done|]. simpl.
  destruct (decide (d = ∅)) as [->|Hne].
  { rewrite bool_decide_eq_true_2 by done. done. }
  rewrite bool_decide_eq_false_2 by done. simpl.
  unfold write_phpp, update_phpp. simpl.
  destruct Hd as [Hd | (p & Hd)]; rewrite Hd; simpl; [done|].
  eexists _, _, _. split; [reflexivity|]. split; [reflexivity|].
  split; [apply lookup_insert_eq|apply lookup_insert_eq].
Qed.

Lemma add_to_HB_model_overwrite_witness :
  ∃ m' d' p',
    add_to_HB_model
      {| identifier := "model";
         user_data := VDict {[ "phpp" := VDict {[ "rooms" := VInt 1 ]} ]} |}
      "rooms" (VInt 2) "overwrite" = Ok m'
    ∧ user_data m' = VDict d'
    ∧ d' !! "phpp" = Some (VDict p')
    ∧ p' !! "rooms" = Some (VInt 2).
Proof.
  apply (add_to_HB_model_overwrite
           {| identifier := "model";
              user_data := VDict {[ "phpp" := VDict {[ "rooms" := VInt 1 ]} ]} |}).
  right. eexists. split; [reflexivity|]. right. eexists. reflexivity.
Defined.

Lemma setitem_phpp_keeps d p : keeps_others d (VDict (<["phpp" := p]> d)).
Proof. eexists. split; [done|]. intros k Hk. by rewrite lookup_insert_ne. Qed.

Lemma write_phpp_keeps d key dict write u :
  write_phpp (VDict d) key dict write = Ok u → keeps_others d u.
Proof.
  unfold write_phpp, bind, getitem, setitem, dict_update. intros H.
  repeat (case_match; simplify_eq/=);
    first [apply setitem_phpp_keeps | by eexists].
Qed.

Lemma update_phpp_keeps d key dict u :
  update_phpp (VDict d) key dict = Ok u → keeps_others d u.
Proof.
  unfold update_phpp, bind, getitem, setitem, dict_update. intros H.
  repeat (case_match; simplify_eq/=); apply setitem_phpp_keeps.
Qed.

Lemma update_phpp_KeyError d key dict :
  update_phpp (VDict d) key dict = Raise KeyError → d !! "phpp" = None.
Proof.
  unfold update_phpp, bind, getitem, setitem, dict_update. intros H.
  repeat (case_match; simplify_eq/=); done.
Qed.

(** X2, the part of C4 that holds. When [user_data] has a phpp entry,
    whatever the mode, a call that returns leaves every other entry as it
    was. *)
Lemma add_to_HB_model_frame_with_phpp m key dict write m' d :
  user_data m = VDict d →
  is_Some (d !! "phpp") →
  add_to_HB_model m key dict write = Ok m' →
  keeps_others d (user_data m').
Proof.
  intros Hd [p Hp] Hcall. unfold add_to_HB_model, deepcopy in Hcall.
  rewrite Hd in Hcall. simpl in Hcall.
  rewrite bool_decide_eq_false_2 in Hcall
    by (intros ->; by rewrite lookup_empty in Hp).
  simpl in Hcall.
  destruct (write_phpp (VDict d) key dict write) as [u|e] eqn:Ew.
  { injection Hcall as <-. by eapply write_phpp_keeps. }
  destruct e; try done.
  destruct (update_phpp (VDict d) key dict) as [u|e] eqn:Eu.
  { injection Hcall as <-. by eapply update_phpp_keeps. }
  destruct e; try done.
  apply update_phpp_KeyError in Eu. congruence.
Qed.

Lemma add_to_HB_model_frame_with_phpp_witness :
  keeps_others {[ "id" := VInt 7; "phpp" := VDict ∅ ]}
    (VDict (<[ "phpp" := VDict {[ "k" := VInt 1 ]} ]>
              {[ "id" := VInt 7; "phpp" := VDict ∅ ]})).
Proof.
  apply (add_to_HB_model_frame_with_phpp
           {| identifier := "model";
              user_data := VDict {[ "id" := VInt 7; "phpp" := VDict ∅ ]} |}
           "k" (VInt 1) "overwrite"
           {| identifier := "model";
              user_data :=
                VDict (<[ "phpp" := VDict {[ "k" := VInt 1 ]} ]>
                         {[ "id" := VInt 7; "phpp" := VDict ∅ ]}) |}).
  - reflexivity.
  - exists (VDict ∅). by vm_compute.
  - by vm_compute.
Defined.

(** X8. The sibling [add_to_hb_obj_user_data] keeps the other entries in
    every case, also when there was no phpp entry. *)
Lemma add_to_hb_obj_user_data_frame o key v o' d :
  user_data o = VDict d →
  add_to_hb_obj_user_data o key v = Ok o' →
  keeps_others d (user_data o').
Proof.
  intros Hd Hcall.
  unfold add_to_hb_obj_user_data, deepcopy, bind, has_key, getitem, setitem,
    dict_update in Hcall.
  rewrite Hd in Hcall.
  repeat (case_match; simplify_eq/=);
    try apply setitem_phpp_keeps.
  all: eexists; split; [done|]; intros k Hk; by rewrite !lookup_insert_ne.
Qed.

(** C4, at a model whose [user_data] has an entry and no phpp entry. In
    both modes the whole dictionary is replaced and the entry is lost; the
    sibling function keeps it. *)
Theorem add_to_HB_model_drops_entries :
  let m := {| identifier := "model"; user_data := VDict {[ "id" := VInt 7 ]} |} in
  add_to_HB_model m "k" (VDict ∅) "update"
  = Ok (set_user_data m (VDict {[ "phpp" := VDict {[ "k" := VDict ∅ ]} ]}))
  ∧ add_to_HB_model m "k" (VDict ∅) "overwrite"
    = Ok (set_user_data m (VDict {[ "phpp" := VDict {[ "k" := VDict ∅ ]} ]}))
  ∧ ({[ "id" := VInt 7 ]} : gmap string val) !! "id" = Some (VInt 7)
  ∧ ({[ "phpp" := VDict {[ "k" := VDict ∅ ]} ]} : gmap string val) !! "id" = None
  ∧ add_to_hb_obj_user_data m "k" (VDict ∅)
    = Ok (set_user_data m
            (VDict (<[ "phpp" := VDict {[ "k" := VDict ∅ ]} ]> {[ "id" := VInt 7 ]}))).
Proof. repeat split; by vm_compute. Qed.

(** ** ApplyWindowShadingFactors: the parameter dictionary *)

Import ApplyWindowShadingFactors.

Lemma py_float_raises x e : py_float x = Raise e → e = TypeError ∨ e = ValueError.
Proof.
  destruct x; simpl; try (intros [= <-]; auto); try done.
  destruct (float_of_string s); [done|]. intros [= <-]. auto.
Qed.

(** A missing entry gives 0.75 and an entry that is there gives its float. *)
Lemma shading_factor_spec factors i f :
  shading_factor factors i = Ok f →
  (factors !! i = None → f = Finite 0.75)
  ∧ (∀ x, factors !! i = Some x → py_float x = Ok f).
Proof.
  unfold shading_factor. destruct (factors !! i) as [x|]; simpl.
  - destruct (py_float x) as [g|e] eqn:E.
    + intros [= <-]. split; [done|]. by intros ? [= <-].
    + destruct (py_float_raises _ _ E) as [-> | ->]; done.
  - intros [= <-]. done.
Qed.

Lemma shading_factor_returns factors i :
  Forall (λ x, ∃ f, py_float x = Ok f) factors →
  ∃ f, shading_factor factors i = Ok f.
Proof.
  intros Hall. unfold shading_factor.
  destruct (factors !! i) as [x|] eqn:E; [|by eexists].
  eapply Forall_lookup_1 in Hall as [f Hf]; [|done]. rewrite Hf. by eexists.
Qed.

Lemma build_param_dict_returns names w s i pd0 :
  Forall (λ x, ∃ f, py_float x = Ok f) w →
  Forall (λ x, ∃ f, py_float x = Ok f) s →
  ∃ pd, build_param_dict i names w s pd0 = Ok pd.
Proof.
  intros Hw Hs. revert i pd0.
  induction names as [|n names IH]; intros i pd0; simpl; [by eexists|].
  destruct (shading_factor_returns w i Hw) as [wf ->].
  destruct (shading_factor_returns s i Hs) as [sf ->]. simpl. apply IH.
Qed.

(** The entry of a name is the one written at its last index. *)
Lemma build_param_dict_lookup names w s i pd0 pd :
  build_param_dict i names w s pd0 = Ok pd →
  (∀ name, name ∉ names → pd !! name = pd0 !! name)
  ∧ (∀ k name,
       names !! k = Some name →
       (∀ j, k < j → names !! j ≠ Some name) →
       ∃ wf sf,
         shading_factor w (i + k) = Ok wf
         ∧ shading_factor s (i + k) = Ok sf
         ∧ pd !! name = Some {| winter := wf; summer := sf |}).
Proof.
  revert i pd0. induction names as [|n names IH]; intros i pd0; simpl.
  - intros [= <-]. split; [done|]. intros k name Hk. by rewrite lookup_nil in Hk.
  - destruct (shading_factor w i) as [wf|] eqn:Ew; simpl; [|done].
    destruct (shading_factor s i) as [sf|] eqn:Es; simpl; [|done].
    intros Hb. destruct (IH _ _ Hb) as [Hout Hin]. split.
    + intros name Hn. apply not_elem_of_cons in Hn as [Hne Hn].
      rewrite (Hout _ Hn). by rewrite lookup_insert_ne.
    + intros [|k] name Hk Hlast.
      * injection Hk as ->. exists wf, sf.
        rewrite Nat.add_0_r. split; [done|]. split; [done|].
        rewrite Hout, lookup_insert_eq; [done|].
        intros [j Hj]%list_elem_of_lookup. apply (Hlast (S j)); [lia|done].
      * simpl in Hk. destruct (Hin k name Hk) as (wf' & sf' & Hw' & Hs' & Hpd).
        { intros j Hj. apply (Hlast (S j)). lia. }
        exists wf', sf'. by rewrite Nat.add_succ_r.
Qed.

(** The names that have an entry are the names listed and those that had
    one before. *)
Lemma build_param_dict_keys names w s i pd0 pd :
  build_param_dict i names w s pd0 = Ok pd →
  ∀ name, is_Some (pd !! name) ↔ name ∈ names ∨ is_Some (pd0 !! name).
Proof.
  revert i pd0. induction names as [|n names IH]; intros i pd0; simpl.
  - intros [= <-] name. split; [auto|]. intros [H|H]; [|done].
    by apply elem_of_nil in H.
  - destruct (shading_factor w i) as [wf|]; simpl; [|done].
    destruct (shading_factor s i) as [sf|]; simpl; [|done].
    intros Hb name. rewrite (IH _ _ Hb name), elem_of_cons.
    destruct (decide (name = n)) as [->|Hne].
    + rewrite lookup_insert_eq. split; [auto|]. intros _. right. by eexists.
    + rewrite lookup_insert_ne by done.
      split; [intros [?|?]; auto|]. intros [[?|?]|?]; auto. done.
Qed.

(** C2, as the claim states it, fails when a name is listed twice: the
    entry of the name is the one of its last index. Here the first index
    has the winter factor 0.5 and the name is recorded with 0.75. *)
Lemma param_dict_counterexample :
  ["A"; "A"] !! 0 = Some "A"
  ∧ [VFloat (Finite 0.5)] !! 0 = Some (VFloat (Finite 0.5))
  ∧ build_param_dict 0 ["A"; "A"] [VFloat (Finite 0.5)]
      [VFloat (Finite 0.5); VFloat (Finite 0.5)] ∅
    = Ok {[ "A" := {| winter := Finite 0.75; summer := Finite 0.5 |} ]}
  ∧ Finite 0.75 ≠ Finite 0.5.
Proof. repeat split; by vm_compute. Qed.

(** C2, amended. When every factor given is a number the dictionary is
    built, and for every index whose name is not listed again after it,
    the entry of the name has, for each season, 0.75 when the list of
    factors has no entry at the index and the float of that entry
    otherwise. *)
Theorem param_dict_defaults (names : list string) (w s : list val) :
  Forall (λ x, ∃ f, py_float x = Ok f) w →
  Forall (λ x, ∃ f, py_float x = Ok f) s →
  ∃ pd,
    build_param_dict 0 names w s ∅ = Ok pd
    ∧ ∀ i name,
        names !! i = Some name →
        (∀ j, i < j → names !! j ≠ Some name) →
        ∃ p, pd !! name = Some p
             ∧ (w !! i = None → winter p = Finite 0.75)
             ∧ (∀ x, w !! i = Some x → py_float x = Ok (winter p))
             ∧ (s !! i = None → summer p = Finite 0.75)
             ∧ (∀ x, s !! i = Some x → py_float x = Ok (summer p)).
Proof.
  intros Hw Hs.
  destruct (build_param_dict_returns names w s 0 ∅ Hw Hs) as [pd Hpd].
  exists pd. split; [done|]. intros i name Hi Hlast.
  destruct (build_param_dict_lookup _ _ _ _ _ _ Hpd) as [_ Hin].
  destruct (Hin i name Hi Hlast) as (wf & sf & Hwf & Hsf & Hp).
  simpl in Hwf, Hsf.
  apply shading_factor_spec in Hwf as [Hw1 Hw2].
  apply shading_factor_spec in Hsf as [Hs1 Hs2].
  exists {| winter := wf; summer := sf |}. simpl. done.
Qed.

Lemma param_dict_defaults_witness :
  ∃ pd,
    build_param_dict 0 ["A"; "B"] [VFloat (Finite 0.5)] [VInt 1; VStr "0.25"] ∅
    = Ok pd
    ∧ ∀ i name,
        ["A"; "B"] !! i = Some name →
        (∀ j, i < j → ["A"; "B"] !! j ≠ Some name) →
        ∃ p, pd !! name = Some p
             ∧ ([VFloat (Finite 0.5)] !! i = None → winter p = Finite 0.75)
             ∧ (∀ x, [VFloat (Finite 0.5)] !! i = Some x →
                  py_float x = Ok (winter p))
             ∧ ([VInt 1; VStr "0.25"] !! i = None → summer p = Finite 0.75)
             ∧ (∀ x, [VInt 1; VStr "0.25"] !! i = Some x →
                  py_float x = Ok (summer p)).
Proof.
  apply (param_dict_defaults ["A"; "B"] [VFloat (Finite 0.5)]
           [VInt 1; VStr "0.25"]);
    repeat (apply Forall_cons; split; [eexists; reflexivity|]);
    apply Forall_nil; exact I.
Defined.

(** ** The store: loops, new objects and rewritten apertures *)

Section for_each_facts.

Context {A B : Type} (body : A → M B).
Context (R : heap → heap → Prop) `{!PreOrder R}.
Context (P : heap → A → Prop).
Hypothesis P_mono : ∀ h h' x, R h h' → P h x → P h' x.
Hypothesis body_R : ∀ x h r h', P h x → body x h = (r, h') → R h h'.

(** A loop relates the stores as each run of its body does. *)
Lemma for_each_rel xs h r h' :
  Forall (P h) xs → for_each body xs h = (r, h') → R h h'.
Proof.
  revert h r h'. induction xs as [|x xs IH]; intros h r h' HP; simpl.
  - intros [= <- <-]. reflexivity.
  - apply Forall_cons in HP as [Hx Hxs]. unfold sbind.
    destruct (body x h) as [[y|e] h1] eqn:E.
    + pose proof (body_R _ _ _ _ Hx E) as HR.
      assert (Forall (P h1) xs) as Hxs1.
      { eapply Forall_impl; [done|]. intros x' Hx'. by eapply P_mono. }
      destruct (for_each body xs h1) as [[ys|e] h2] eqn:E2;
        intros [= <- <-]; (etrans; [done|]); by eapply IH.
    + intros [= <- <-]. by eapply body_R.
Qed.

(** A loop whose body returns on every element returns, with one result
    for each element. *)
Lemma for_each_ok xs h :
  (∀ x h, P h x → ∃ y h', body x h = (Ok y, h')) →
  Forall (P h) xs →
  ∃ ys h', for_each body xs h = (Ok ys, h') ∧ length ys = length xs.
Proof.
  intros Hok. revert h. induction xs as [|x xs IH]; intros h HP; simpl.
  - by exists [], h.
  - apply Forall_cons in HP as [Hx Hxs]. unfold sbind.
    destruct (Hok _ _ Hx) as (y & h1 & E). rewrite E.
    destruct (IH h1) as (ys & h2 & E2 & Hlen).
    { eapply Forall_impl; [done|]. intros x' Hx'. eapply P_mono; [|exact Hx'].
      eapply body_R; [exact Hx|exact E]. }
    rewrite E2. exists (y :: ys), h2. simpl. by rewrite Hlen.
Qed.

(** What holds of each result when the body returns it, and keeps holding
    as the store changes, holds of all the results at the end. *)
Lemma for_each_post (Q : heap → B → Prop) xs h ys h' :
  (∀ h h' y, R h h' → Q h y → Q h' y) →
  (∀ x h y h', P h x → body x h = (Ok y, h') → Q h' y) →
  Forall (P h) xs →
  for_each body xs h = (Ok ys, h') →
  Forall (Q h') ys ∧ length ys = length xs.
Proof.
  intros Q_mono body_Q. revert h ys h'.
  induction xs as [|x xs IH]; intros h ys h' HP; simpl.
  - intros [= <- <-]. done.
  - apply Forall_cons in HP as [Hx Hxs]. unfold sbind.
    destruct (body x h) as [[y|e] h1] eqn:E; [|done].
    assert (Forall (P h1) xs) as Hxs1.
    { eapply Forall_impl; [done|]. intros x' Hx'. eapply P_mono; [|exact Hx'].
      eapply body_R; [exact Hx|exact E]. }
    destruct (for_each body xs h1) as [[zs|e] h2] eqn:E2; [|done].
    intros [= <- <-]. destruct (IH _ _ _ Hxs1 E2) as [HQ Hlen].
    split; [|simpl; by rewrite Hlen].
    apply Forall_cons. split; [|done].
    eapply Q_mono; [|by eapply body_Q].
    by eapply for_each_rel.
Qed.

End for_each_facts.

Global Instance changes_preorder w b : PreOrder (changes w b).
Proof.
  split.
  - intros h l o Hl. by left.
  - intros h1 h2 h3 H12 H23 l o Hl.
    destruct (H12 l o Hl)
      as [H2|[(Hb & n & u & u' & -> & H2)|(Hw & v & v' & -> & H2)]].
    + apply H23, H2.
    + right. left. split; [done|].
      destruct (H23 _ _ H2)
        as [H3|[(_ & n' & x & x' & [= <- <-] & H3)|(_ & ? & ? & [=] & _)]];
        by eexists _, _, _.
    + right. right. split; [done|].
      destruct (H23 _ _ H2)
        as [H3|[(_ & ? & ? & ? & [=] & _)|(_ & x & x' & [= <-] & H3)]];
        by eexists _, _.
Qed.

Lemma changes_length w b h h' : changes w b h h' → length h ≤ length h'.
Proof.
  intros Hc. destruct (decide (length h ≤ length h')) as [|Hn]; [done|].
  destruct (lookup_lt_is_Some_2 h (length h')) as [o Ho]; [lia|].
  assert (is_Some (h' !! length h')) as H%lookup_lt_is_Some; [|lia].
  destruct (Hc _ _ Ho) as [H|[(_ & ? & ? & ? & _ & H)|(_ & ? & ? & _ & H)]];
    by eexists.
Qed.

Global Instance rewrites_preorder w b : PreOrder (rewrites w b).
Proof.
  split.
  - intros h. split; [reflexivity|].
    intros l o Hl Ho. apply lookup_lt_Some in Ho. lia.
  - intros h1 h2 h3 [H12 N12] [H23 N23]. split; [by etrans|].
    intros l o Hl Ho. destruct (decide (length h2 ≤ l)) as [Hl2|Hl2].
    + by eapply N23.
    + destruct (lookup_lt_is_Some_2 h2 l) as [o2 Ho2]; [lia|].
      destruct (N12 _ _ Hl Ho2) as [v ->].
      destruct (H23 _ _ Ho2)
        as [H3|[(_ & ? & ? & ? & [=] & _)|(_ & x & x' & _ & H3)]];
        rewrite H3 in Ho; injection Ho as <-; by eexists.
Qed.

Lemma changes_le w b b' h h' : b ≤ b' → changes w b' h h' → changes w b h h'.
Proof.
  intros Hb Hc l o Hl.
  destruct (Hc _ _ Hl) as [H|[(Hl' & H)|H]]; [by left| |by right; right].
  right. left. split; [lia|done].
Qed.

Lemma prefix_changes w b h h' : h `prefix_of` h' → changes w b h h'.
Proof. intros Hp l o Hl. left. by eapply prefix_lookup_Some. Qed.

(** What was in the store before the new objects were made is not
    rewritten. *)
Lemma changes_old w (h h' : heap) l o :
  changes w (length h) h h' → h !! l = Some o →
  h' !! l = Some o
  ∨ (w = true ∧ ∃ v v', o = OValue v ∧ h' !! l = Some (OValue v')).
Proof.
  intros Hc Hl. destruct (Hc _ _ Hl) as [H|[(Hb & _)|H]]; [by left| |by right].
  apply lookup_lt_Some in Hl. lia.
Qed.

(** A value of the store is a value of the store it grows into. *)
Lemma grows_value h h' l v :
  grows h h' → h !! l = Some (OValue v) → ∃ v', h' !! l = Some (OValue v').
Proof.
  intros Hg Hl.
  destruct (Hg _ _ Hl) as [H|[(? & v' & _ & H)|(? & ? & ? & [=] & _)]];
    by eexists.
Qed.

Lemma holds_values_grows h h' u :
  grows h h' → holds_values h u → holds_values h' u.
Proof.
  intros Hg Hu d k l Hd Hk. destruct (Hu d k l Hd Hk) as [v Hv].
  by eapply grows_value.
Qed.

Global Instance grows_preorder : PreOrder grows.
Proof.
  split.
  - intros h l o Hl. by left.
  - intros h1 h2 h3 H12 H23 l o Hl.
    destruct (H12 _ _ Hl)
      as [H2|[(v & v' & -> & H2)|(n & u & u' & -> & H2 & Hu)]].
    + by apply H23.
    + right. left. destruct (grows_value _ _ _ _ H23 H2) as [v'' H3].
      by eexists _, _.
    + right. right.
      destruct (H23 _ _ H2)
        as [H3|[(? & ? & [=] & _)|(n' & v & v' & [= <- <-] & H3 & Hv)]].
      * exists n, u, u'. split_and!; try done. by eapply holds_values_grows.
      * by exists n, u, v'.
Qed.

Lemma prefix_grows h h' : h `prefix_of` h' → grows h h'.
Proof. intros Hp l o Hl. left. by eapply prefix_lookup_Some. Qed.

Lemma grows_length h h' : grows h h' → length h ≤ length h'.
Proof.
  intros Hg. destruct (decide (length h ≤ length h')) as [|Hn]; [done|].
  destruct (lookup_lt_is_Some_2 h (length h')) as [o Ho]; [lia|].
  assert (is_Some (h' !! length h')) as H%lookup_lt_is_Some; [|lia].
  destruct (Hg _ _ Ho) as [H|[(? & ? & _ & H)|(? & ? & ? & _ & H & _)]];
    by eexists.
Qed.

Lemma is_aperture_grows h h' a : grows h h' → is_aperture h a → is_aperture h' a.
Proof.
  intros Hg (n & u & Ha).
  destruct (Hg _ _ Ha) as [H|[(? & ? & [=] & _)|(? & ? & u' & [= <- <-] & H & _)]];
    by eexists _, _.
Qed.

Lemma wf_aperture_grows h h' a : grows h h' → wf_aperture h a → wf_aperture h' a.
Proof.
  intros Hg (n & u & Ha & Hu).
  destruct (Hg _ _ Ha)
    as [H|[(? & ? & [=] & _)|(? & ? & u' & [= <- <-] & H & Hu')]].
  - exists n, u. split; [done|]. by eapply holds_values_grows.
  - by exists n, u'.
Qed.

Lemma face_grows h h' f aps :
  grows h h' → h !! f = Some (OFace aps) → h' !! f = Some (OFace aps).
Proof.
  intros Hg Hf.
  by destruct (Hg _ _ Hf) as [H|[(? & ? & [=] & _)|(? & ? & ? & [=] & _)]].
Qed.

Lemma room_grows h h' r fs :
  grows h h' → h !! r = Some (ORoom fs) → h' !! r = Some (ORoom fs).
Proof.
  intros Hg Hr.
  by destruct (Hg _ _ Hr) as [H|[(? & ? & [=] & _)|(? & ? & ? & [=] & _)]].
Qed.

Lemma wf_face_grows h h' f : grows h h' → wf_face h f → wf_face h' f.
Proof.
  intros Hg (aps & Hf & Haps). exists aps. split; [by eapply face_grows|].
  eapply Forall_impl; [done|]. intros a. by apply wf_aperture_grows.
Qed.

Lemma wf_room_grows h h' r : grows h h' → wf_room h r → wf_room h' r.
Proof.
  intros Hg (fs & Hr & Hfs). exists fs. split; [by eapply room_grows|].
  eapply Forall_impl; [done|]. intros f. by apply wf_face_grows.
Qed.

Lemma new_aperture_grows b h h' a :
  grows h h' → new_aperture b h a → new_aperture b h' a.
Proof. intros Hg [Hb Ha]. split; [done|]. by eapply is_aperture_grows. Qed.

Lemma new_face_grows b h h' f : grows h h' → new_face b h f → new_face b h' f.
Proof.
  intros Hg (Hb & aps & Hf & Haps). split; [done|]. exists aps.
  split; [by eapply face_grows|].
  eapply Forall_impl; [done|]. intros a. by apply new_aperture_grows.
Qed.

Lemma new_room_grows b h h' r : grows h h' → new_room b h r → new_room b h' r.
Proof.
  intros Hg (Hb & fs & Hr & Hfs). split; [done|]. exists fs.
  split; [by eapply room_grows|].
  eapply Forall_impl; [done|]. intros f. by apply new_face_grows.
Qed.

Lemma is_aperture_prefix h h' a :
  h `prefix_of` h' → is_aperture h a → is_aperture h' a.
Proof. intros Hp. by apply is_aperture_grows, prefix_grows. Qed.

Lemma wf_aperture_prefix h h' a :
  h `prefix_of` h' → wf_aperture h a → wf_aperture h' a.
Proof. intros Hp. by apply wf_aperture_grows, prefix_grows. Qed.

Lemma wf_face_prefix h h' f : h `prefix_of` h' → wf_face h f → wf_face h' f.
Proof. intros Hp. by apply wf_face_grows, prefix_grows. Qed.

Lemma wf_room_prefix h h' r : h `prefix_of` h' → wf_room h r → wf_room h' r.
Proof. intros Hp. by apply wf_room_grows, prefix_grows. Qed.

Lemma new_aperture_prefix b h h' a :
  h `prefix_of` h' → new_aperture b h a → new_aperture b h' a.
Proof. intros Hp. by apply new_aperture_grows, prefix_grows. Qed.

Lemma new_face_prefix b h h' f :
  h `prefix_of` h' → new_face b h f → new_face b h' f.
Proof. intros Hp. by apply new_face_grows, prefix_grows. Qed.

Lemma new_room_prefix b h h' r :
  h `prefix_of` h' → new_room b h r → new_room b h' r.
Proof. intros Hp. by apply new_room_grows, prefix_grows. Qed.

Lemma is_aperture_changes w b h h' a :
  changes w b h h' → is_aperture h a → is_aperture h' a.
Proof.
  intros H (n & u & Ha).
  destruct (H _ _ Ha)
    as [H'|[(_ & n' & v & v' & [= <- <-] & H')|(_ & ? & ? & [=] & _)]];
    by eexists _, _.
Qed.

Lemma face_changes w b h h' f aps :
  changes w b h h' → h !! f = Some (OFace aps) → h' !! f = Some (OFace aps).
Proof.
  intros H Hf.
  by destruct (H _ _ Hf)
    as [H'|[(_ & ? & ? & ? & [=] & _)|(_ & ? & ? & [=] & _)]].
Qed.

Lemma room_changes w b h h' r fs :
  changes w b h h' → h !! r = Some (ORoom fs) → h' !! r = Some (ORoom fs).
Proof.
  intros H Hr.
  by destruct (H _ _ Hr)
    as [H'|[(_ & ? & ? & ? & [=] & _)|(_ & ? & ? & [=] & _)]].
Qed.

Lemma new_aperture_changes w b c h h' a :
  changes w c h h' → new_aperture b h a → new_aperture b h' a.
Proof. intros Hr [Hb Ha]. split; [done|]. by eapply is_aperture_changes. Qed.

Lemma new_face_changes w b c h h' f :
  changes w c h h' → new_face b h f → new_face b h' f.
Proof.
  intros Hr (Hb & aps & Hf & Haps). split; [done|]. exists aps.
  split; [by eapply face_changes|].
  eapply Forall_impl; [done|]. intros a. by eapply new_aperture_changes.
Qed.

Lemma new_room_changes w b c h h' r :
  changes w c h h' → new_room b h r → new_room b h' r.
Proof.
  intros Hr (Hb & fs & Hf & Hfs). split; [done|]. exists fs.
  split; [by eapply room_changes|].
  eapply Forall_impl; [done|]. intros f. by eapply new_face_changes.
Qed.

(** ** The store: what [duplicate] makes *)

Lemma alloc_lookup (h : heap) (o : obj) : (h ++ [o]) !! length h = Some o.
Proof. by apply list_lookup_middle. Qed.

Lemma new_aperture_le b b' h a : b' ≤ b → new_aperture b h a → new_aperture b' h a.
Proof. intros Hb [Ha ?]. split; [lia|done]. Qed.

Lemma new_face_le b b' h f : b' ≤ b → new_face b h f → new_face b' h f.
Proof.
  intros Hb (Hf & aps & ? & Haps). split; [lia|]. exists aps. split; [done|].
  eapply Forall_impl; [done|]. intros a. by apply new_aperture_le.
Qed.

Lemma new_room_le b b' h r : b' ≤ b → new_room b h r → new_room b' h r.
Proof.
  intros Hb (Hr & fs & ? & Hfs). split; [lia|]. exists fs. split; [done|].
  eapply Forall_impl; [done|]. intros f. by apply new_face_le.
Qed.

Lemma dup_aperture_spec a h r h' :
  dup_aperture a h = (r, h') →
  h `prefix_of` h' ∧ ∀ a', r = Ok a' → new_aperture (length h) h' a'.
Proof.
  unfold dup_aperture, alloc.
  destruct (h !! a) as [[| |n u|]|]; intros [= <- <-]; try done.
  split; [by apply prefix_app_r|]. intros a' [= <-].
  split; [done|]. exists n, u. apply alloc_lookup.
Qed.

Lemma dup_aperture_ok a h :
  is_aperture h a → ∃ a' h', dup_aperture a h = (Ok a', h').
Proof. intros (n & u & Ha). unfold dup_aperture. rewrite Ha. by eexists _, _. Qed.

(** The copy of an aperture holds what the aperture holds. *)
Lemma dup_aperture_wf a h a' h' :
  wf_aperture h a → dup_aperture a h = (Ok a', h') → wf_aperture h' a'.
Proof.
  intros (n & u & Ha & Hu). unfold dup_aperture, alloc. rewrite Ha.
  intros [= <- <-]. exists n, u. split; [apply alloc_lookup|].
  eapply holds_values_grows; [|done]. by apply prefix_grows, prefix_app_r.
Qed.

(** A loop of copies only adds objects, and its results are what each copy
    made. *)
Lemma dup_all_spec {Q : nat → heap → loc → Prop} (dup : loc → M loc) xs (h : heap) r h' :
  (∀ b (h h' : heap) y, h `prefix_of` h' → Q b h y → Q b h' y) →
  (∀ b b' h y, b' ≤ b → Q b h y → Q b' h y) →
  (∀ x (h : heap) r h', dup x h = (r, h') →
     h `prefix_of` h' ∧ ∀ y, r = Ok y → Q (length h) h' y) →
  for_each dup xs h = (r, h') →
  h `prefix_of` h'
  ∧ ∀ ys, r = Ok ys → Forall (Q (length h) h') ys ∧ length ys = length xs.
Proof.
  intros Q_mono Q_le Hdup Hrun.
  pose (P := λ (g : heap) (_ : loc), length h ≤ length g).
  assert (∀ g g' x, g `prefix_of` g' → P g x → P g' x) as P_mono.
  { unfold P. intros g g' _ Hg%prefix_length. lia. }
  assert (∀ x g r g', P g x → dup x g = (r, g') → g `prefix_of` g') as body_R.
  { intros x g r0 g' _ E. by destruct (Hdup _ _ _ _ E). }
  assert (Forall (P h) xs) as HP by (apply Forall_forall; intros; by unfold P).
  split; [by eapply (for_each_rel dup _ P P_mono body_R)|].
  intros ys ->.
  eapply (for_each_post dup _ P P_mono body_R (Q (length h))); try done.
  - intros g g' y. apply Q_mono.
  - intros x g y g' Hg E. destruct (Hdup _ _ _ _ E) as [_ HQ].
    eapply Q_le; [exact Hg|]. by apply HQ.
Qed.

Lemma dup_all_ok (W : heap → loc → Prop) (dup : loc → M loc) xs (h : heap) :
  (∀ (h h' : heap) x, h `prefix_of` h' → W h x → W h' x) →
  (∀ x (h : heap) r h', dup x h = (r, h') → h `prefix_of` h') →
  (∀ x h, W h x → ∃ y h', dup x h = (Ok y, h')) →
  Forall (W h) xs →
  ∃ ys h', for_each dup xs h = (Ok ys, h').
Proof.
  intros W_mono Hdup Hok HW.
  destruct (for_each_ok dup _ W W_mono (λ x g r g' _ E, Hdup x g r g' E) xs h Hok HW)
    as (ys & h' & E & _).
  by exists ys, h'.
Qed.

(** The copies of well-formed objects are well formed. *)
Lemma dup_all_wf (W : heap → loc → Prop) (dup : loc → M loc) xs (h : heap) ys h' :
  (∀ (h h' : heap) x, h `prefix_of` h' → W h x → W h' x) →
  (∀ x (h : heap) r h', dup x h = (r, h') → h `prefix_of` h') →
  (∀ x h y h', W h x → dup x h = (Ok y, h') → W h' y) →
  Forall (W h) xs →
  for_each dup xs h = (Ok ys, h') →
  Forall (W h') ys.
Proof.
  intros W_mono Hdup Hwf HW E.
  by destruct (for_each_post dup _ W W_mono (λ x g r g' _ E, Hdup x g r g' E)
                 W xs h ys h' W_mono Hwf HW E).
Qed.

Lemma dup_face_spec f h r h' :
  dup_face f h = (r, h') →
  h `prefix_of` h' ∧ ∀ f', r = Ok f' → new_face (length h) h' f'.
Proof.
  unfold dup_face, alloc.
  destruct (h !! f) as [[|aps| |]|]; try (intros [= <- <-]; done).
  destruct (for_each dup_aperture aps h) as [[aps1|e] h1] eqn:E;
    destruct (dup_all_spec (Q := new_aperture) dup_aperture aps h _ h1
                new_aperture_prefix new_aperture_le dup_aperture_spec E)
    as [Hp Hall];
    intros [= <- <-]; [|done].
  split; [by apply prefix_app_r|]. intros f' [= <-].
  destruct (Hall _ eq_refl) as [Haps _].
  split; [by apply prefix_length|]. exists aps1. split; [apply alloc_lookup|].
  eapply Forall_impl; [done|]. intros a.
  apply new_aperture_prefix. by apply prefix_app_r.
Qed.

Lemma dup_face_ok f h : wf_face h f → ∃ f' h', dup_face f h = (Ok f', h').
Proof.
  intros (aps & Hf & Haps). unfold dup_face. rewrite Hf.
  destruct (dup_all_ok wf_aperture dup_aperture aps h wf_aperture_prefix
              (λ x g r g' E, proj1 (dup_aperture_spec x g r g' E))) as (aps1 & h1 & ->);
    [|done|by eexists _, _].
  intros x g (n & u & Hx & _). apply dup_aperture_ok. by exists n, u.
Qed.

Lemma dup_face_wf f h f' h' :
  wf_face h f → dup_face f h = (Ok f', h') → wf_face h' f'.
Proof.
  intros (aps & Hf & Haps). unfold dup_face, alloc. rewrite Hf.
  destruct (for_each dup_aperture aps h) as [[aps1|e] h1] eqn:E; [|done].
  intros [= <- <-]. exists aps1. split; [apply alloc_lookup|].
  pose proof (dup_all_wf wf_aperture dup_aperture aps h aps1 h1 wf_aperture_prefix
                (λ x g r g' E, proj1 (dup_aperture_spec x g r g' E))
                dup_aperture_wf Haps E) as H1.
  eapply Forall_impl; [done|]. intros a.
  apply wf_aperture_prefix. by apply prefix_app_r.
Qed.

Lemma duplicate_spec r h res h' :
  duplicate r h = (res, h') →
  h `prefix_of` h' ∧ ∀ r', res = Ok r' → new_room (length h) h' r'.
Proof.
  unfold duplicate, alloc.
  destruct (h !! r) as [[fs| | |]|]; try (intros [= <- <-]; done).
  destruct (for_each dup_face fs h) as [[fs1|e] h1] eqn:E;
    destruct (dup_all_spec (Q := new_face) dup_face fs h _ h1
                new_face_prefix new_face_le dup_face_spec E)
    as [Hp Hall];
    intros [= <- <-]; [|done].
  split; [by apply prefix_app_r|]. intros r' [= <-].
  destruct (Hall _ eq_refl) as [Hfs _].
  split; [by apply prefix_length|]. exists fs1. split; [apply alloc_lookup|].
  eapply Forall_impl; [done|]. intros f.
  apply new_face_prefix. by apply prefix_app_r.
Qed.

Lemma duplicate_ok r h : wf_room h r → ∃ r' h', duplicate r h = (Ok r', h').
Proof.
  intros (fs & Hr & Hfs). unfold duplicate. rewrite Hr.
  destruct (dup_all_ok wf_face dup_face fs h wf_face_prefix
              (λ x g r g' E, proj1 (dup_face_spec x g r g' E))
              dup_face_ok Hfs) as (fs1 & h1 & ->).
  by eexists _, _.
Qed.

Lemma duplicate_wf r h r' h' :
  wf_room h r → duplicate r h = (Ok r', h') → wf_room h' r'.
Proof.
  intros (fs & Hr & Hfs). unfold duplicate, alloc. rewrite Hr.
  destruct (for_each dup_face fs h) as [[fs1|e] h1] eqn:E; [|done].
  intros [= <- <-]. exists fs1. split; [apply alloc_lookup|].
  pose proof (dup_all_wf wf_face dup_face fs h fs1 h1 wf_face_prefix
                (λ x g r g' E, proj1 (dup_face_spec x g r g' E))
                dup_face_wf Hfs E) as H1.
  eapply Forall_impl; [done|]. intros f.
  apply wf_face_prefix. by apply prefix_app_r.
Qed.

(** ** ApplyWindowShadingFactors: the rooms *)

(** Writing a value where a value is. *)
Lemma insert_value_grows (h : heap) l d d1 :
  h !! l = Some (OValue d) → grows h (<[l := OValue d1]> h).
Proof.
  intros Hl l' o Ho. destruct (decide (l' = l)) as [->|Hne].
  - right. left. rewrite Hl in Ho. injection Ho as <-. exists d, d1.
    split; [done|]. apply list_lookup_insert_eq. by eapply lookup_lt_Some.
  - left. by rewrite list_lookup_insert_ne.
Qed.

(** Giving an aperture a [user_data] that holds values. *)
Lemma insert_aperture_grows (h : heap) a n u u' :
  h !! a = Some (OAperture n u) →
  holds_values (<[a := OAperture n u']> h) u' →
  grows h (<[a := OAperture n u']> h).
Proof.
  intros Ha Hu l o Ho. destruct (decide (l = a)) as [->|Hne].
  - right. right. rewrite Ha in Ho. injection Ho as <-. exists n, u, u'.
    split; [done|]. split; [|done].
    apply list_lookup_insert_eq. by eapply lookup_lt_Some.
  - left. by rewrite list_lookup_insert_ne.
Qed.

(** The same two writes and the new value, as [rewrites] sees them. *)
Lemma insert_value_rewrites w b (h : heap) l d d1 :
  h !! l = Some (OValue d) → (w = false → d1 = d) →
  rewrites w b h (<[l := OValue d1]> h).
Proof.
  intros Hl Hd. destruct w.
  - split.
    + intros l' o Ho. destruct (decide (l' = l)) as [->|Hne].
      * right. right. split; [done|]. rewrite Hl in Ho. injection Ho as <-.
        exists d, d1. split; [done|].
        apply list_lookup_insert_eq. by eapply lookup_lt_Some.
      * left. by rewrite list_lookup_insert_ne.
    + intros l' o Hl' Ho. apply lookup_lt_Some in Ho.
      rewrite length_insert in Ho. lia.
  - rewrite (Hd eq_refl), (list_insert_id h l (OValue d) Hl). reflexivity.
Qed.

Lemma shade_rewrites w b (h : heap) a n u u' x :
  h !! a = Some (OAperture n u) → b ≤ a →
  rewrites w b h (<[a := OAperture n u']> (h ++ [OValue x])).
Proof.
  intros Ha Hb. assert (a < length h) as Hlt by (by eapply lookup_lt_Some).
  split.
  - intros l0 o Hl0. destruct (decide (l0 = a)) as [->|Hne].
    + right. left. split; [done|]. rewrite Ha in Hl0. injection Hl0 as <-.
      eexists _, _, _. split; [done|].
      apply list_lookup_insert_eq. rewrite length_app. lia.
    + left. rewrite list_lookup_insert_ne by done. by apply lookup_app_l_Some.
  - intros l0 o Hl0. rewrite list_lookup_insert_ne by lia.
    rewrite lookup_app_r by done.
    intros [_ <-]%list_lookup_singleton_Some. by eexists.
Qed.

Section apply_facts.

Context (PHPP_Window : Type) (from_dict : val → res PHPP_Window * val).
Context (set_winter set_summer : PHPP_Window → pyfloat → val → PHPP_Window * val).
Context (set_dimensions : PHPP_Window → val → val → PHPP_Window * val).
Context (to_dict : PHPP_Window → val → val * val).

Local Abbreviation apply_to_aperture :=
  (apply_to_aperture PHPP_Window from_dict set_winter set_summer set_dimensions
     to_dict).
Local Abbreviation apply_to_face :=
  (apply_to_face PHPP_Window from_dict set_winter set_summer set_dimensions
     to_dict).
Local Abbreviation apply_to_room :=
  (apply_to_room PHPP_Window from_dict set_winter set_summer set_dimensions
     to_dict).
Local Abbreviation component :=
  (component PHPP_Window from_dict set_winter set_summer set_dimensions to_dict).
Local Abbreviation shade :=
  (shade PHPP_Window set_winter set_summer set_dimensions to_dict).
Local Abbreviation reading :=
  (reads_only from_dict set_winter set_summer set_dimensions to_dict).

(** When the operations only read, [shade] leaves the object as it
    was. *)
Lemma shade_reads w p d : reading → (shade w p d).2 = d.
Proof.
  intros (_ & H1 & H2 & H3 & H4). unfold ApplyWindowShadingFactors.shade.
  pose proof (H1 w (winter p) d) as E1.
  destruct (set_winter w (winter p) d) as [w1 d1]. simpl in E1. subst d1.
  pose proof (H2 w1 (summer p) d) as E2.
  destruct (set_summer w1 (summer p) d) as [w2 d2]. simpl in E2. subst d2.
  pose proof (H3 w2 VNone d) as E3.
  destruct (set_dimensions w2 VNone d) as [w3 d3]. simpl in E3. subst d3.
  apply H4.
Qed.

(** The store after one aperture: the store as it was, the store with what
    [from_dict] left in the object under phpp, or the store with what
    [shade] left in it, a new value and the new [user_data] of the
    aperture. *)
Lemma apply_to_aperture_cases pd (a : loc) (h : heap) r h' :
  apply_to_aperture pd a h = (r, h') →
  h' = h
  ∨ ∃ n u l d,
      h !! a = Some (OAperture n u)
      ∧ user_data_item u "phpp" = Ok l
      ∧ h !! l = Some (OValue d)
      ∧ (h' = <[l := OValue (from_dict d).2]> h
         ∨ ∃ w p,
             (from_dict d).1 = Ok w
             ∧ pd !! n = Some p
             ∧ h' = <[a := OAperture n (Some {[ "phpp" := length h ]})]>
                      (<[l := OValue (shade w p (from_dict d).2).2]> h
                       ++ [OValue (shade w p (from_dict d).2).1])).
Proof.
  unfold ApplyWindowShadingFactors.apply_to_aperture, alloc.
  destruct (h !! a) as [[| |n u|]|] eqn:Ha; try (intros [= <- <-]; by left).
  destruct (user_data_item u "phpp") as [l|e] eqn:El;
    [|destruct e; intros [= <- <-]; by left].
  destruct (h !! l) as [[| | |d]|] eqn:Hl; try (intros [= <- <-]; by left).
  destruct (from_dict d) as [r0 d1] eqn:Ed. simpl.
  destruct r0 as [w|e].
  - destruct (pd !! n) as [p|] eqn:Hn.
    + destruct (shade w p d1) as [new d2] eqn:Es. intros [= <- <-]. right.
      exists n, u, l, d. rewrite Ed. simpl. split_and!; try done.
      right. exists w, p. rewrite Es. simpl. split_and!; try done.
      by rewrite length_insert.
    + intros [= <- <-]. right. exists n, u, l, d. rewrite Ed. simpl.
      split_and!; try done. by left.
  - destruct e; intros [= <- <-]; right; exists n, u, l, d; rewrite Ed; simpl;
      split_and!; try done; by left.
Qed.

Lemma apply_to_aperture_grows pd (a : loc) (h : heap) r h' :
  apply_to_aperture pd a h = (r, h') → grows h h'.
Proof.
  intros [->|(n & u & l & d & Ha & El & Hl & [->|(w & p & Hw & Hp & ->)])]%apply_to_aperture_cases.
  - reflexivity.
  - by eapply insert_value_grows.
  - etrans; [by eapply insert_value_grows|].
    etrans; [apply prefix_grows, prefix_app_r; reflexivity|].
    assert (a < length h) as Hlt by (by eapply lookup_lt_Some).
    assert (l ≠ a) as Hne by (intros ->; congruence).
    eapply insert_aperture_grows.
    + rewrite lookup_app_l by (by rewrite length_insert).
      rewrite list_lookup_insert_ne by done. exact Ha.
    + intros d0 k l0 [= <-]. rewrite lookup_singleton_Some. intros [<- <-].
      eexists. rewrite list_lookup_insert_ne by lia.
      rewrite <- (length_insert h l (OValue (shade w p (from_dict d).2).2)) at 1.
      apply alloc_lookup.
Qed.

Lemma apply_to_aperture_rewrites w pd b (a : loc) (h : heap) r h' :
  (w = false → reading) → b ≤ a →
  apply_to_aperture pd a h = (r, h') → rewrites w b h h'.
Proof.
  intros Hro Hb
    [->|(n & u & l & d & Ha & El & Hl & [->|(x & p & Hx & Hp & ->)])]%apply_to_aperture_cases.
  - reflexivity.
  - apply insert_value_rewrites with d; [done|]. intros Hw. by apply Hro.
  - etrans.
    { apply (insert_value_rewrites w b h l d (shade x p (from_dict d).2).2 Hl).
      intros Hw. rewrite shade_reads by auto. by apply Hro. }
    eapply shade_rewrites; [|done].
    rewrite list_lookup_insert_ne by (intros ->; congruence). exact Ha.
Qed.

Lemma apply_to_aperture_ok pd (a : loc) (h : heap) :
  handled from_dict → wf_aperture h a →
  ∃ y h', apply_to_aperture pd a h = (Ok y, h').
Proof.
  intros Hh (n & u & Ha & Hu).
  unfold ApplyWindowShadingFactors.apply_to_aperture. rewrite Ha.
  destruct (user_data_item u "phpp") as [l|e] eqn:El.
  - assert (∃ d, h !! l = Some (OValue d)) as [d ->].
    { unfold user_data_item in El. destruct u as [m|]; [|done].
      destruct (m !! "phpp") as [l'|] eqn:Em; [|done]. injection El as ->.
      by eapply Hu. }
    pose proof (Hh d) as Hd. destruct (from_dict d) as [[w|e] d1]; simpl in *.
    + destruct (pd !! n) as [p|]; [|by eexists _, _].
      destruct (ApplyWindowShadingFactors.shade _ _ _ _ _ w p d1). simpl.
      by eexists _, _.
    + destruct (Hd e eq_refl) as [-> | ->]; by eexists _, _.
  - unfold user_data_item in El. destruct u as [m|].
    + destruct (m !! "phpp"); [done|]. injection El as <-. by eexists _, _.
    + injection El as <-. by eexists _, _.
Qed.

Lemma apply_to_face_grows pd (f : loc) (h : heap) r h' :
  apply_to_face pd f h = (r, h') → grows h h'.
Proof.
  unfold ApplyWindowShadingFactors.apply_to_face.
  destruct (h !! f) as [[|aps| |]|]; try (intros [= <- <-]; reflexivity).
  destruct (for_each _ aps h) as [r0 h1] eqn:E.
  assert (grows h h1) as Hr.
  { eapply (for_each_rel (apply_to_aperture pd) grows (λ _ _, True));
      [done| |by apply Forall_forall|done].
    intros x g r1 g' _. apply apply_to_aperture_grows. }
  by destruct r0; intros [= <- <-].
Qed.

Lemma apply_to_face_rewrites w pd b (f : loc) (h : heap) r h' :
  (w = false → reading) → new_face b h f →
  apply_to_face pd f h = (r, h') → rewrites w b h h'.
Proof.
  intros Hro (_ & aps & Hf & Haps). unfold ApplyWindowShadingFactors.apply_to_face.
  rewrite Hf.
  destruct (for_each _ aps h) as [r0 h1] eqn:E.
  assert (rewrites w b h h1) as Hr.
  { eapply (for_each_rel (apply_to_aperture pd) (rewrites w b) (new_aperture b));
      [| |done..].
    - intros g g' x [Hc _]. by eapply new_aperture_changes.
    - intros x g r1 g' [Hx _]. by apply apply_to_aperture_rewrites. }
  by destruct r0; intros [= <- <-].
Qed.

Lemma apply_to_face_ok pd (f : loc) (h : heap) :
  handled from_dict → wf_face h f →
  ∃ y h', apply_to_face pd f h = (Ok y, h').
Proof.
  intros Hh (aps & Hf & Haps). unfold ApplyWindowShadingFactors.apply_to_face.
  rewrite Hf.
  destruct (for_each_ok (apply_to_aperture pd) grows wf_aperture)
    with (xs := aps) (h := h) as (ys & h1 & -> & _); [| | |done|by eexists _, _].
  - intros g g' x. apply wf_aperture_grows.
  - intros x g r1 g' _. apply apply_to_aperture_grows.
  - intros x g. by apply apply_to_aperture_ok.
Qed.

(** One turn of the loop over the rooms: the room returned is the one
    [duplicate] made, and after that the store grows. *)
Lemma apply_to_room_inv_grows pd room h res h' :
  apply_to_room pd room h = (res, h') →
  ∃ dup h1,
    duplicate room h = (dup, h1)
    ∧ grows h1 h'
    ∧ ∀ r', res = Ok r' → dup = Ok r'.
Proof.
  unfold ApplyWindowShadingFactors.apply_to_room, sbind, ret.
  destruct (duplicate room h) as [[r1|e] h1] eqn:Ed.
  - destruct (h1 !! r1) as [[fs| | |]|];
      try (intros [= <- <-]; exists (Ok r1), h1; by split_and!).
    destruct (for_each _ fs h1) as [r0 h2] eqn:E.
    assert (grows h1 h2) as Hg.
    { eapply (for_each_rel (apply_to_face pd) grows (λ _ _, True));
        [done| |by apply Forall_forall|done].
      intros x g r2 g' _. apply apply_to_face_grows. }
    destruct r0; intros [= <- <-]; exists (Ok r1), h1; split_and!; try done.
  - intros [= <- <-]. exists (Raise e), h1. split_and!; try done.
Qed.

(** After the room was made, only its apertures are written, and the
    values that [from_dict] is handed when the operations do not only
    read. *)
Lemma apply_to_room_inv w pd room h res h' :
  (w = false → reading) →
  apply_to_room pd room h = (res, h') →
  ∃ dup h1,
    duplicate room h = (dup, h1)
    ∧ rewrites w (length h) h1 h'
    ∧ ∀ r', res = Ok r' → dup = Ok r'.
Proof.
  intros Hro. unfold ApplyWindowShadingFactors.apply_to_room, sbind, ret.
  destruct (duplicate room h) as [[r1|e] h1] eqn:Ed.
  - destruct (duplicate_spec _ _ _ _ Ed) as [Hp Hnew].
    destruct (Hnew _ eq_refl) as (Hb & fs & Hr & Hfs). rewrite Hr.
    destruct (for_each _ fs h1) as [r0 h2] eqn:E.
    assert (rewrites w (length h) h1 h2) as Hrw.
    { eapply (for_each_rel (apply_to_face pd) (rewrites w (length h))
                (new_face (length h))); [| |done..].
      - intros g g' x [Hc _]. by eapply new_face_changes.
      - intros x g r2 g'. by apply apply_to_face_rewrites. }
    destruct r0; intros [= <- <-]; exists (Ok r1), h1; split_and!; try done.
  - intros [= <- <-]. exists (Raise e), h1. split_and!; try done.
Qed.

Lemma apply_to_room_changes w pd room h res h' :
  (w = false → reading) →
  apply_to_room pd room h = (res, h') → changes w (length h) h h'.
Proof.
  intros Hro (dup & h1 & Ed & [Hc _] & _)%(apply_to_room_inv w); [|done].
  destruct (duplicate_spec _ _ _ _ Ed) as [Hp _].
  etrans; [by apply prefix_changes|done].
Qed.

Lemma apply_to_room_grows pd room h res h' :
  apply_to_room pd room h = (res, h') → grows h h'.
Proof.
  intros (dup & h1 & Ed & Hg & _)%apply_to_room_inv_grows.
  destruct (duplicate_spec _ _ _ _ Ed) as [Hp _].
  etrans; [by apply prefix_grows|done].
Qed.

Lemma apply_to_room_new pd room h r' h' :
  apply_to_room pd room h = (Ok r', h') → new_room (length h) h' r'.
Proof.
  intros (dup & h1 & Ed & Hg & Hres)%apply_to_room_inv_grows.
  rewrite (Hres _ eq_refl) in Ed.
  destruct (duplicate_spec _ _ _ _ Ed) as [_ Hnew].
  eapply new_room_grows; [done|]. by apply Hnew.
Qed.

Lemma apply_to_room_ok pd room h :
  handled from_dict → wf_room h room →
  ∃ r' h', apply_to_room pd room h = (Ok r', h').
Proof.
  intros Hh Hwf. unfold ApplyWindowShadingFactors.apply_to_room, sbind, ret.
  destruct (duplicate_ok _ _ Hwf) as (r1 & h1 & Ed). rewrite Ed.
  destruct (duplicate_wf _ _ _ _ Hwf Ed) as (fs & Hr & Hfs). rewrite Hr.
  destruct (for_each_ok (apply_to_face pd) grows wf_face)
    with (xs := fs) (h := h1) as (ys & h2 & -> & _); [| | |done|by eexists _, _].
  - intros g g' x. apply wf_face_grows.
  - intros x g r2 g' _. apply apply_to_face_grows.
  - intros x g. by apply apply_to_face_ok.
Qed.

Lemma apply_to_rooms_copies (R : nat → heap → heap → Prop) pd rooms h out h' :
  (∀ room h res h',
     apply_to_room pd room h = (res, h') →
     ∃ dup h1,
       duplicate room h = (dup, h1)
       ∧ R (length h) h1 h'
       ∧ ∀ r', res = Ok r' → dup = Ok r') →
  for_each (apply_to_room pd) rooms h = (Ok out, h') → copies R rooms out h h'.
Proof.
  intros Hinv. revert h out h'.
  induction rooms as [|room rooms IH]; intros h out h'; simpl.
  - by intros [= <- <-].
  - unfold sbind, ret.
    destruct (apply_to_room pd room h) as [[r1|e] h2] eqn:E1; [|done].
    destruct (for_each _ rooms h2) as [[rs|e] h3] eqn:E2; [|done].
    intros [= <- <-].
    apply Hinv in E1 as (dup & h1 & Ed & Hrw & Hres).
    rewrite (Hres _ eq_refl) in Ed. exists h1, h2. split_and!; try done.
    by apply IH.
Qed.

(** The loop over the rooms rewrites nothing of the store it starts
    from, but the values that [from_dict] is handed when the operations do
    not only read. *)
Lemma apply_to_rooms_changes w pd rooms (h : heap) res h' :
  (w = false → reading) →
  for_each (apply_to_room pd) rooms h = (res, h') →
  changes w (length h) h h'.
Proof.
  intros Hro.
  apply (for_each_rel (apply_to_room pd) (changes w (length h))
           (λ (g : heap) _, length h ≤ length g)).
  - intros g g' _ Hg%changes_length. lia.
  - intros x g r g' Hl E. eapply changes_le; [exact Hl|].
    by eapply apply_to_room_changes.
  - by apply Forall_forall.
Qed.

(** The rooms that come out are rooms made during the run, one for each
    room that went in. *)
Lemma apply_to_rooms_new pd rooms (h : heap) out h' :
  for_each (apply_to_room pd) rooms h = (Ok out, h') →
  Forall (new_room (length h) h') out ∧ length out = length rooms.
Proof.
  pose (P := λ (g : heap) (_ : loc), length h ≤ length g).
  apply (for_each_post (apply_to_room pd) grows P).
  - intros g g' x Hg%grows_length. unfold P. lia.
  - intros x g r g' _. apply apply_to_room_grows.
  - intros g g' y. apply new_room_grows.
  - intros x g y g' Hl Ey. eapply new_room_le; [exact Hl|].
    by eapply apply_to_room_new.
  - apply Forall_forall. intros. unfold P. lia.
Qed.

(** The loop over well-formed rooms returns, with a new room for each. *)
Lemma apply_to_rooms_ok pd rooms (h : heap) :
  handled from_dict → Forall (wf_room h) rooms →
  ∃ out h',
    for_each (apply_to_room pd) rooms h = (Ok out, h')
    ∧ Forall (new_room (length h) h') out
    ∧ length out = length rooms.
Proof.
  intros Hh Hwf.
  pose (P := λ (g : heap) (r : loc), wf_room g r ∧ length h ≤ length g).
  assert (∀ g g' x, grows g g' → P g x → P g' x) as P_mono.
  { intros g g' x Hg [Hx Hl]. split; [by eapply wf_room_grows|].
    apply grows_length in Hg. lia. }
  assert (∀ x g r g', P g x → apply_to_room pd x g = (r, g') → grows g g')
    as body_R.
  { intros x g r g' _. apply apply_to_room_grows. }
  assert (Forall (P h) rooms) as HP.
  { eapply Forall_impl; [done|]. intros r Hr. by split. }
  destruct (for_each_ok (apply_to_room pd) grows P P_mono body_R rooms h)
    as (out & h' & E & Hlen); [|done|].
  { intros x g [Hx _]. by apply apply_to_room_ok. }
  exists out, h'. split; [done|].
  eapply (for_each_post (apply_to_room pd) grows P P_mono body_R
            (new_room (length h))); [| |done..].
  - intros g g' y. apply new_room_grows.
  - intros x g y g' [_ Hl] Ey. eapply new_room_le; [exact Hl|].
    by eapply apply_to_room_new.
Qed.

(** C5. The component works on copies, and what it writes it writes on
    the copies. Whatever the operations on windows do, every room, face and
    aperture of the store the component is given is the same after the
    run, however the run ends: an aperture of an input room has its name
    and its [user_data], the same keys holding the same objects. The copy
    of an aperture holds under phpp the very object that the input
    aperture holds there, and this object is handed to [from_dict]: a value
    of the store given is still a value after the run, and provided that
    [from_dict] and the operations on the window it makes leave this object
    as it was, it holds what it held, so that every object of the store
    given is the same. When the run returns, [HB_rooms_] has one room for
    each input room, each is what [duplicate] returned for the input room
    of the same index, and each is an object made during the run, as are
    its faces and their apertures; between two copies only the apertures
    of the room just made are written, and the values handed to
    [from_dict] when the operations do not only read. *)
Theorem input_rooms_unchanged (_HB_rooms : list loc) (_window_names : list string)
  (_winter_shading_factors _summer_shading_factors : list val) (h : heap) :
  (∀ l o, h !! l = Some o →
     store (component _HB_rooms _window_names _winter_shading_factors
              _summer_shading_factors h) !! l = Some o
     ∨ ∃ v v',
         o = OValue v
         ∧ store (component _HB_rooms _window_names _winter_shading_factors
                    _summer_shading_factors h) !! l = Some (OValue v'))
  ∧ (reads_only from_dict set_winter set_summer set_dimensions to_dict →
     ∀ l o, h !! l = Some o →
       store (component _HB_rooms _window_names _winter_shading_factors
                _summer_shading_factors h) !! l = Some o)
  ∧ ∀ out,
      HB_rooms_ (component _HB_rooms _window_names _winter_shading_factors
                   _summer_shading_factors h) = Ok out →
      length out = length _HB_rooms
      ∧ copies (rewrites true) _HB_rooms out h
          (store (component _HB_rooms _window_names _winter_shading_factors
                    _summer_shading_factors h))
      ∧ (reads_only from_dict set_winter set_summer set_dimensions to_dict →
         copies (rewrites false) _HB_rooms out h
           (store (component _HB_rooms _window_names _winter_shading_factors
                     _summer_shading_factors h)))
      ∧ Forall
          (new_room (length h)
             (store (component _HB_rooms _window_names _winter_shading_factors
                       _summer_shading_factors h))) out.
Proof.
  unfold ApplyWindowShadingFactors.component.
  destruct (build_param_dict _ _ _ _ _) as [pd|e]; simpl;
    [|split_and!; [by auto|by auto|done]].
  destruct (for_each _ _HB_rooms h) as [res h'] eqn:E.
  assert (∀ w, (w = false → reading) → changes w (length h) h h')
    as Hc.
  { intros w Hw. by eapply apply_to_rooms_changes. }
  assert (∀ l o, h !! l = Some o →
            h' !! l = Some o ∨ ∃ v v', o = OValue v ∧ h' !! l = Some (OValue v'))
    as H1.
  { intros l o Hl.
    destruct (changes_old true h h' l o (Hc true ltac:(done)) Hl) as [?|[_ ?]];
      auto. }
  assert (reading → ∀ l o, h !! l = Some o → h' !! l = Some o)
    as H2.
  { intros Hro l o Hl.
    by destruct (changes_old false h h' l o (Hc false (λ _, Hro)) Hl)
      as [?|[? _]]. }
  destruct res as [out|e]; simpl; (split; [done|]); (split; [done|]); [|done].
  intros ? [= <-]. destruct (apply_to_rooms_new pd _ _ _ _ E) as [Hnew Hlen].
  split_and!; try done.
  - apply (apply_to_rooms_copies (rewrites true) pd); [|done].
    intros room g res g'. by apply apply_to_room_inv.
  - intros Hro. apply (apply_to_rooms_copies (rewrites false) pd); [|done].
    intros room g res g'. by apply apply_to_room_inv.
Qed.

Lemma warn_not_warning k : warn k ≠ warning.
Proof. unfold warn, warning. intros [= E]. Qed.

Lemma length_mismatch_spec {A B C} (a : list A) (b : list B) (c : list C) :
  length_mismatch a b c = true ↔ length a ≠ length b ∨ length a ≠ length c.
Proof.
  unfold length_mismatch. rewrite orb_true_iff, !negb_true_iff, !Nat.eqb_neq.
  done.
Qed.

Lemma warning_not_in_zero_warnings pd : (Warning, warning) ∉ zero_warnings pd.
Proof.
  unfold zero_warnings. intros ([k v] & _ & Hk)%list_elem_of_omap.
  destruct (zero_in v); [|done].
  apply (warn_not_warning k). congruence.
Qed.

(** C8. The message about the lengths is among the runtime messages
    exactly when the number of names differs from the number of winter
    factors or from the number of summer factors. The run goes on after
    it: whatever the lengths are, when the factors given are numbers, the
    integers among them small enough for a float, the rooms are rooms of
    the store and [from_dict] raises nothing but what the component
    handles, the parameter dictionary is built and the rooms come out. The
    dictionary has an entry for the names listed and for no other,
    and the entry of a name holds, for each season, the float of the factor
    at the last index of the name, or 0.75 when the list of factors is too
    short for it. [HB_rooms_] has one room for each input room: each is
    what [duplicate] returned for the input room of the same index, an
    object made during the run, as are its faces and their apertures. *)
Theorem length_warning (_HB_rooms : list loc) (_window_names : list string)
  (_winter_shading_factors _summer_shading_factors : list val) (h : heap) :
  ((Warning, warning)
     ∈ messages (component _HB_rooms _window_names _winter_shading_factors
                   _summer_shading_factors h)
   ↔ length _window_names ≠ length _winter_shading_factors
     ∨ length _window_names ≠ length _summer_shading_factors)
  ∧ (Forall (λ x, ∃ f, py_float x = Ok f) _winter_shading_factors →
     Forall (λ x, ∃ f, py_float x = Ok f) _summer_shading_factors →
     Forall in_float_range _winter_shading_factors →
     Forall in_float_range _summer_shading_factors →
     handled from_dict →
     Forall (wf_room h) _HB_rooms →
     ∃ param_dict out,
       build_param_dict 0 _window_names _winter_shading_factors
         _summer_shading_factors ∅ = Ok param_dict
       ∧ (∀ name, is_Some (param_dict !! name) ↔ name ∈ _window_names)
       ∧ (∀ i name,
            _window_names !! i = Some name →
            (∀ j, i < j → _window_names !! j ≠ Some name) →
            ∃ p, param_dict !! name = Some p
                 ∧ (_winter_shading_factors !! i = None → winter p = Finite 0.75)
                 ∧ (∀ x, _winter_shading_factors !! i = Some x →
                      py_float x = Ok (winter p))
                 ∧ (_summer_shading_factors !! i = None → summer p = Finite 0.75)
                 ∧ (∀ x, _summer_shading_factors !! i = Some x →
                      py_float x = Ok (summer p)))
       ∧ HB_rooms_ (component _HB_rooms _window_names _winter_shading_factors
                      _summer_shading_factors h) = Ok out
       ∧ length out = length _HB_rooms
       ∧ copies (λ _, grows) _HB_rooms out h
           (store (component _HB_rooms _window_names _winter_shading_factors
                     _summer_shading_factors h))
       ∧ Forall
           (new_room (length h)
              (store (component _HB_rooms _window_names _winter_shading_factors
                        _summer_shading_factors h))) out).
Proof.
  split.
  - rewrite <- length_mismatch_spec.
    unfold ApplyWindowShadingFactors.component.
    destruct (length_mismatch _ _ _);
      destruct (build_param_dict _ _ _ _ _) as [pd|e]; simpl;
      try destruct (for_each _ _HB_rooms h) as [[out|e] h']; simpl;
      split; try done; intros Hin;
      repeat first
        [ apply elem_of_nil in Hin
        | apply elem_of_cons in Hin as [Hin|Hin]
        | by apply warning_not_in_zero_warnings in Hin
        | done ];
      try by apply list_elem_of_here.
  - intros Hw Hs _ _ Hh Hwf.
    destruct (build_param_dict_returns _window_names _ _ 0 ∅ Hw Hs) as [pd Hpd].
    destruct (apply_to_rooms_ok pd _ _ Hh Hwf) as (out & h' & E & Hnew & Hlen).
    exists pd, out. split; [done|]. split.
    { intros name. rewrite (build_param_dict_keys _ _ _ _ _ _ Hpd name).
      rewrite lookup_empty. split; [|auto]. intros [H|H]; [done|].
      by destruct H. }
    split.
    { intros i name Hi Hlast.
      destruct (build_param_dict_lookup _ _ _ _ _ _ Hpd) as [_ Hin].
      destruct (Hin i name Hi Hlast) as (wf & sf & Hwf' & Hsf & Hp).
      simpl in Hwf', Hsf.
      apply shading_factor_spec in Hwf' as [Hw1 Hw2].
      apply shading_factor_spec in Hsf as [Hs1 Hs2].
      exists {| winter := wf; summer := sf |}. simpl. done. }
    unfold ApplyWindowShadingFactors.component. rewrite Hpd, E. simpl.
    split_and!; try done.
    apply (apply_to_rooms_copies (λ _, grows) pd); [|done].
    intros room g res g'. apply apply_to_room_inv_grows.
Qed.

End apply_facts.

(** The object under phpp is shared between an aperture and its copy: with
    a [from_dict] that empties the dictionary it is handed, the object that
    the input aperture holds is empty after the run. *)
Lemma shared_phpp_object :
  store
    (ApplyWindowShadingFactors.component val (λ d, (Ok d, VDict ∅))
       (λ w _ d, (w, d)) (λ w _ d, (w, d)) (λ w _ d, (w, d)) (λ w d, (w, d))
       [3] ["A"] [VInt 1] [VInt 1]
       [OValue (VDict {[ "k" := VInt 1 ]});
        OAperture "A" (Some {[ "phpp" := 0 ]}); OFace [1]; ORoom [2]]) !! 0
  = Some (OValue (VDict ∅)).
Proof. by vm_compute. Qed.

(** A run on a store with one room of one window, whose [user_data] holds
    an empty dictionary under phpp. A window is its dictionary here, and
    [from_dict] reads it: every object of the store is the same after the
    run. *)
Lemma input_rooms_unchanged_witness :
  let from_dict := λ d : val,
    (match d with VDict _ => Ok d | _ => Raise TypeError end, d) in
  let set_factor := λ k (w : val) (f : pyfloat) (d : val),
    (match w with VDict m => VDict (<[k := VFloat f]> m) | _ => w end, d) in
  let set_dimensions := λ (w v d : val),
    (match w with VDict m => VDict (<["shading_dimensions" := v]> m) | _ => w end,
     d) in
  let to_dict := λ w d : val, (w, d) in
  let h :=
    [OValue (VDict ∅); OAperture "A" (Some {[ "phpp" := 0 ]}); OFace [1];
     ORoom [2]] in
  let run :=
    ApplyWindowShadingFactors.component val from_dict (set_factor "winter")
      (set_factor "summer") set_dimensions to_dict [3] ["A"] [] [VInt 1] h in
  store run !! 0 = Some (OValue (VDict ∅))
  ∧ store run !! 1 = Some (OAperture "A" (Some {[ "phpp" := 0 ]})).
Proof.
  intros from_dict set_factor set_dimensions to_dict h run.
  assert (reads_only from_dict (set_factor "winter") (set_factor "summer")
            set_dimensions to_dict) as Hro by done.
  pose proof (proj1 (proj2 (input_rooms_unchanged val from_dict
                              (set_factor "winter") (set_factor "summer")
                              set_dimensions to_dict [3] ["A"] [] [VInt 1] h)) Hro)
    as H.
  split; apply H; reflexivity.
Defined.

(** The same run: the message is given, the name is recorded with the
    default winter factor and the room comes out. *)
Lemma length_warning_witness :
  let from_dict := λ d : val,
    (match d with VDict _ => Ok d | _ => Raise TypeError end, d) in
  let set_factor := λ k (w : val) (f : pyfloat) (d : val),
    (match w with VDict m => VDict (<[k := VFloat f]> m) | _ => w end, d) in
  let set_dimensions := λ (w v d : val),
    (match w with VDict m => VDict (<["shading_dimensions" := v]> m) | _ => w end,
     d) in
  let to_dict := λ w d : val, (w, d) in
  let h :=
    [OValue (VDict ∅); OAperture "A" (Some {[ "phpp" := 0 ]}); OFace [1];
     ORoom [2]] in
  let run :=
    ApplyWindowShadingFactors.component val from_dict (set_factor "winter")
      (set_factor "summer") set_dimensions to_dict [3] ["A"] [] [VInt 1] h in
  (Warning, warning) ∈ messages run
  ∧ ∃ param_dict out,
      build_param_dict 0 ["A"] [] [VInt 1] ∅ = Ok param_dict
      ∧ (∀ name, is_Some (param_dict !! name) ↔ name ∈ ["A"])
      ∧ (∀ i name,
           ["A"] !! i = Some name →
           (∀ j, i < j → ["A"] !! j ≠ Some name) →
           ∃ p, param_dict !! name = Some p
                ∧ (([] : list val) !! i = None → winter p = Finite 0.75)
                ∧ (∀ x, ([] : list val) !! i = Some x → py_float x = Ok (winter p))
                ∧ ([VInt 1] !! i = None → summer p = Finite 0.75)
                ∧ (∀ x, [VInt 1] !! i = Some x → py_float x = Ok (summer p)))
      ∧ HB_rooms_ run = Ok out
      ∧ length out = 1
      ∧ copies (λ _, grows) [3] out h (store run)
      ∧ Forall (new_room (length h) (store run)) out.
Proof.
  intros from_dict set_factor set_dimensions to_dict h run.
  destruct (length_warning val from_dict (set_factor "winter")
              (set_factor "summer") set_dimensions to_dict [3] ["A"] [] [VInt 1] h)
    as [Hmsg Hrun].
  split.
  - apply Hmsg. left. simpl. lia.
  - apply Hrun.
    + apply Forall_nil. exact I.
    + apply Forall_cons. split; [by eexists|]. apply Forall_nil. exact I.
    + apply Forall_nil. exact I.
    + apply Forall_cons. split; [by vm_compute|]. apply Forall_nil. exact I.
    + intros d e. destruct d; simpl; intros [= <-]; auto.
    + apply Forall_cons. split; [|apply Forall_nil; exact I].
      exists [2]. split; [reflexivity|].
      apply Forall_cons. split; [|apply Forall_nil; exact I].
      exists [1]. split; [reflexivity|].
      apply Forall_cons. split; [|apply Forall_nil; exact I].
      exists "A", (Some {[ "phpp" := 0 ]}). split; [reflexivity|].
      intros d k l [= <-] [<- <-]%lookup_singleton_Some. by eexists.
Defined.

(** ** CreateWindowReveals: names and surfaces *)

Section reveal_facts.

Import CreateWindowReveals.

Context (Face3D Brep : Type) (from_face3d : Face3D → Brep).
Context (PHPP_Window : Type) (from_dict : val → res PHPP_Window).
Context (reveal_geometry : PHPP_Window → res (list Brep)).
Context (inset_window_surface : PHPP_Window → res Brep).

Local Abbreviation aperture := CreateWindowReveals.aperture.
Local Abbreviation face := (CreateWindowReveals.face Face3D).
Local Abbreviation room := (CreateWindowReveals.room Face3D).
Local Abbreviation vars := (CreateWindowReveals.vars Brep).
Local Abbreviation contribution :=
  (contribution Brep PHPP_Window from_dict reveal_geometry inset_window_surface).
Local Abbreviation reveal_aperture :=
  (reveal_aperture Brep PHPP_Window from_dict reveal_geometry
     inset_window_surface).
Local Abbreviation reveal_face :=
  (reveal_face Face3D Brep from_face3d PHPP_Window from_dict reveal_geometry
     inset_window_surface).
Local Abbreviation reveal_room :=
  (reveal_room Face3D Brep from_face3d PHPP_Window from_dict reveal_geometry
     inset_window_surface).
Local Abbreviation component :=
  (component Face3D Brep from_face3d PHPP_Window from_dict reveal_geometry
     inset_window_surface).

(** From [st] to [st'] the two lists have grown by what the apertures
    visited contribute, name and surface of one aperture at the same
    index; the apertures visited are the first of [items], and all of them
    when the run went through. *)
Definition tracks (items : list aperture) (st : vars) (r : res ()) (st' : vars)
  : Prop :=
  ∃ visited,
    visited `prefix_of` items
    ∧ (r = Ok () → visited = items)
    ∧ window_names_ Brep st'
      = window_names_ Brep st ++ (omap contribution visited).*1
    ∧ window_surfaces_ Brep st'
      = window_surfaces_ Brep st ++ (omap contribution visited).*2.

Lemma reveal_aperture_tracks ap st r st' :
  reveal_aperture ap st = (r, st') → tracks [ap] st r st'.
Proof.
  unfold CreateWindowReveals.reveal_aperture. intros H. exists [ap].
  split; [done|]. split; [done|]. simpl.
  unfold CreateWindowReveals.contribution.
  destruct (helpers.getitem (user_data ap) "phpp") as [d|e]; simpl in *.
  2: { destruct e; simplify_eq/=; by rewrite !app_nil_r. }
  destruct (from_dict d) as [w|e]; simpl in *.
  2: { destruct e; simplify_eq/=; by rewrite !app_nil_r. }
  destruct (reveal_geometry w) as [items|e]; simpl in *.
  2: { destruct e; simplify_eq/=; by rewrite !app_nil_r. }
  destruct (inset_window_surface w) as [s|e]; simpl in *.
  2: { destruct e; simplify_eq/=; by rewrite !app_nil_r. }
  by simplify_eq/=.
Qed.

(** A loop visits what its turns visit, in order, up to the turn that
    ends the script. *)
Lemma loop_tracks {A} (body : A → vars → res () * vars) (items : A → list aperture)
  xs st r st' :
  (∀ x st r st', body x st = (r, st') → tracks (items x) st r st') →
  loop Brep body xs st = (r, st') →
  tracks (xs ≫= items) st r st'.
Proof.
  intros Hbody. revert st r st'.
  induction xs as [|x xs IH]; intros st r st'; simpl.
  - intros [= <- <-]. exists []. by rewrite !app_nil_r.
  - destruct (body x st) as [[[]|e] st1] eqn:E;
      destruct (Hbody _ _ _ _ E) as (v & Hv & Hall & Hn & Hs).
    + intros (v' & Hv' & Hall' & Hn' & Hs')%IH.
      rewrite (Hall eq_refl) in Hn, Hs.
      exists (items x ++ v'). split; [by apply prefix_app|].
      split; [intros ->%Hall'; done|].
      rewrite Hn', Hs', Hn, Hs, omap_app, !fmap_app, !app_assoc. done.
    + intros [= <- <-]. exists v. split; [by apply prefix_app_r|]. done.
Qed.

Lemma bind_singleton_id {A} (l : list A) : l ≫= (λ x, [x]) = l.
Proof. induction l as [|a l IH]; [done|]. by rewrite bind_cons, IH. Qed.

Lemma reveal_face_tracks f st r st' :
  reveal_face f st = (r, st') → tracks (apertures Face3D f) st r st'.
Proof.
  unfold CreateWindowReveals.reveal_face. intros H.
  assert (loop Brep reveal_aperture (apertures Face3D f)
            (add_envelope Face3D Brep from_face3d st f) = (r, st')) as Hloop.
  { by destruct (apertures Face3D f). }
  apply (loop_tracks _ (λ ap, [ap])) in Hloop; [|apply reveal_aperture_tracks].
  by rewrite bind_singleton_id in Hloop.
Qed.

Lemma reveal_room_tracks hb_room st r st' :
  reveal_room hb_room st = (r, st') →
  tracks (faces Face3D hb_room ≫= apertures Face3D) st r st'.
Proof. apply loop_tracks. apply reveal_face_tracks. Qed.

(** C6. However the script ends, [window_names_] and [window_surfaces_]
    have the same length, and they are the names and the surfaces that the
    apertures visited contribute, in the order of the loops over rooms,
    faces and apertures: the entries at an index come from one aperture.
    When the script goes through, every aperture was visited. An aperture
    whose [user_data] has no phpp entry, or whose phpp entry does not make a
    window, contributes nothing. *)
Theorem names_and_surfaces_aligned (_HB_rooms : list room) :
  length (window_names_ Brep (component _HB_rooms).2)
  = length (window_surfaces_ Brep (component _HB_rooms).2)
  ∧ (∃ visited,
       visited `prefix_of` all_apertures Face3D _HB_rooms
       ∧ ((component _HB_rooms).1 = Ok () →
          visited = all_apertures Face3D _HB_rooms)
       ∧ window_names_ Brep (component _HB_rooms).2
         = (omap contribution visited).*1
       ∧ window_surfaces_ Brep (component _HB_rooms).2
         = (omap contribution visited).*2)
  ∧ (∀ i name surface,
       window_names_ Brep (component _HB_rooms).2 !! i = Some name →
       window_surfaces_ Brep (component _HB_rooms).2 !! i = Some surface →
       ∃ ap, ap ∈ all_apertures Face3D _HB_rooms
             ∧ display_name ap = name
             ∧ contribution ap = Some (name, surface))
  ∧ (∀ ap e,
       bind (helpers.getitem (user_data ap) "phpp") from_dict = Raise e →
       contribution ap = None).
Proof.
  destruct (component _HB_rooms) as [r st] eqn:E. simpl.
  unfold CreateWindowReveals.component in E.
  apply (loop_tracks _ (λ hb_room, faces Face3D hb_room ≫= apertures Face3D))
    in E; [|apply reveal_room_tracks].
  destruct E as (visited & Hpre & Hall & Hn & Hs). simpl in Hn, Hs.
  split; [by rewrite Hn, Hs, !length_fmap|].
  split; [by exists visited|]. split.
  - intros i name surface. rewrite Hn, Hs, !list_lookup_fmap.
    destruct (omap contribution visited !! i) as [[n s]|] eqn:Ei; [|done].
    simpl. intros [= <-] [= <-].
    apply list_elem_of_lookup_2, list_elem_of_omap in Ei as (ap & Hap & Hc).
    exists ap. split; [by eapply elem_of_prefix|]. split; [|done].
    unfold CreateWindowReveals.contribution in Hc.
    by destruct (bind _ _); simplify_eq.
  - intros ap e He. unfold CreateWindowReveals.contribution.
    unfold bind in *. destruct (helpers.getitem _ _); [|done].
    by rewrite He.
Qed.

End reveal_facts.

(** * Further properties *)

(** ** helpers.py: converting twice *)

Lemma first_nonempty_no_run s d :
  str_all (λ c, negb (is_numeric_char c)) s = true →
  first_nonempty (re_split_text s) d = d.
Proof.
  induction s as [|c s IH]; simpl; [done|].
  intros [Hc Hs]%andb_true_iff. apply negb_true_iff in Hc. rewrite Hc. simpl.
  by apply IH.
Qed.

Lemma first_nonempty_run run d :
  run ≠ EmptyString → str_all is_numeric_char run = true →
  first_nonempty (re_split_text run) d = VStr run.
Proof.
  intros Hne Hrun.
  destruct (re_split_text_run run EmptyString Hrun I) as [ps Hps].
  rewrite append_empty_r in Hps. rewrite Hps.
  destruct run; [done|]. apply first_nonempty_cons.
Qed.

(** With an output unit that can be looked up, the inner [try] fails only
    when [float] cannot read the value kept. *)
Lemma convert_inner_raises s u kept e :
  (∀ d, u ≠ VDict d) →
  convert_inner s u kept = Raise e → ∃ e', py_float kept = Raise e'.
Proof.
  intros Hu. unfold convert_inner.
  destruct (conversion_factor u (find_input_string s)) as [cv|e0] eqn:Ecv.
  - destruct (conversion_factor_positive _ _ _ Ecv) as (c & Hc & _).
    simpl. destruct (py_float kept) as [v|e1]; [|by eexists].
    simpl. by rewrite Hc.
  - unfold conversion_factor, dict_get in Ecv.
    destruct u; simpl in Ecv; try done. by destruct (Hu d).
Qed.

(** What a text that [float] cannot read gives when it is itself what the
    loop over its pieces keeps. *)
Lemma convert_kept s u :
  float_of_string s = None →
  first_nonempty (re_split_text s) (VStr s) = VStr s →
  convert_value_to_metric (VStr s) u = Ok (VStr s).
Proof.
  intros Hs Hkept. unfold convert_value_to_metric. simpl. rewrite Hs, Hkept.
  unfold convert_inner.
  destruct (conversion_factor u (find_input_string s)); simpl; [|done].
  by rewrite Hs.
Qed.

(** X3. A value that came out of [convert_value_to_metric], for an output
    unit that is not a dictionary, comes out of it again as it is, for any
    output unit: a float stays the float, and what was returned for want of
    a number is returned again. *)
Theorem convert_value_to_metric_idempotent (x u u' y : val) :
  (∀ d, u ≠ VDict d) →
  convert_value_to_metric x u = Ok y →
  convert_value_to_metric y u' = Ok y.
Proof.
  intros Hu Hx. unfold convert_value_to_metric in Hx.
  destruct x as [|z|f|s|d]; simpl in Hx; try (by injection Hx as <-).
  destruct (float_of_string s) eqn:Es; [by injection Hx as <-|].
  destruct (convert_inner s u (first_nonempty (re_split_text s) (VStr s)))
    as [r|e1] eqn:Ei.
  - injection Hx as <-. unfold convert_inner, bind in Ei.
    repeat case_match; simplify_eq. done.
  - injection Hx as <-.
    destruct (convert_inner_raises _ _ _ _ Hu Ei) as [e' He'].
    destruct (first_nonempty_spec s (VStr s))
      as [[Hall E]|(run & (pre & post & _ & _ & Hne & Hrun & _) & E)];
      rewrite E in *.
    + apply convert_kept; [done|]. by apply first_nonempty_no_run.
    + unfold py_float in He'. destruct (float_of_string run) eqn:Er; [done|].
      apply convert_kept; [done|]. by apply first_nonempty_run.
Qed.

Lemma convert_value_to_metric_idempotent_witness :
  convert_value_to_metric (VFloat (fmul (Finite 12) (Finite 0.3048))) (VStr "CM")
  = Ok (VFloat (fmul (Finite 12) (Finite 0.3048))).
Proof.
  apply (convert_value_to_metric_idempotent (VStr "12 FT") (VStr "M")).
  - done.
  - by vm_compute.
Defined.

(** ** helpers.py: more on [add_to_HB_model] and its sibling *)

(** The three shapes of [user_data] on which the overwrite mode writes:
    None, a dictionary without a phpp entry, a dictionary whose phpp entry
    is a dictionary. *)
Lemma add_to_HB_model_overwrite_result m key dict :
  (user_data m = VNone
   ∨ ∃ d, user_data m = VDict d
          ∧ (d !! "phpp" = None ∨ ∃ p, d !! "phpp" = Some (VDict p))) →
  ∃ d0 p0,
    add_to_HB_model m key dict "overwrite"
    = Ok (set_user_data m (VDict (<["phpp" := VDict (<[key := dict]> p0)]> d0))).
Proof.
  unfold add_to_HB_model, deepcopy.
  intros [-> | (d & -> & Hd)]; [by exists ∅, ∅|]. simpl.
  destruct (decide (d = ∅)) as [->|Hne].
  { rewrite bool_decide_eq_true_2 by done. by exists ∅, ∅. }
  rewrite bool_decide_eq_false_2 by done. simpl.
  unfold write_phpp, update_phpp. simpl.
  destruct Hd as [Hd | (p & Hd)]; rewrite Hd; simpl; [by exists ∅, ∅|].
  by exists d, p.
Qed.

(** X4. Two calls in the overwrite mode with two keys leave both entries
    in the phpp dictionary; with the same key the second value stays. *)
Theorem add_to_HB_model_overwrite_twice (m : hb_obj) (k1 k2 : string)
  (v1 v2 : val) :
  (user_data m = VNone
   ∨ ∃ d, user_data m = VDict d
          ∧ (d !! "phpp" = None ∨ ∃ p, d !! "phpp" = Some (VDict p))) →
  ∃ m1 m2 d' p',
    add_to_HB_model m k1 v1 "overwrite" = Ok m1
    ∧ add_to_HB_model m1 k2 v2 "overwrite" = Ok m2
    ∧ user_data m2 = VDict d'
    ∧ d' !! "phpp" = Some (VDict p')
    ∧ p' !! k2 = Some v2
    ∧ (k1 ≠ k2 → p' !! k1 = Some v1).
Proof.
  intros Hm. destruct (add_to_HB_model_overwrite_result m k1 v1 Hm) as (d0 & p0 & E1).
  set (m1 := set_user_data m (VDict (<["phpp" := VDict (<[k1 := v1]> p0)]> d0))) in *.
  destruct (add_to_HB_model_overwrite_result m1 k2 v2) as (d1 & p1 & E2).
  { right. eexists. split; [done|]. right. eexists. apply lookup_insert_eq. }
  exists m1. eexists. rewrite E1.
  assert (add_to_HB_model m1 k2 v2 "overwrite"
          = Ok (set_user_data m1
                  (VDict (<["phpp" := VDict (<[k2 := v2]> (<[k1 := v1]> p0))]>
                            (<["phpp" := VDict (<[k1 := v1]> p0)]> d0))))) as ->.
  { unfold add_to_HB_model, deepcopy, m1. simpl.
    rewrite bool_decide_eq_false_2 by apply insert_non_empty. simpl.
    unfold write_phpp. simpl. by rewrite lookup_insert_eq. }
  eexists _, _. split_and!; try done.
  - apply lookup_insert_eq.
  - apply lookup_insert_eq.
  - intros Hne. by rewrite lookup_insert_ne, lookup_insert_eq.
Qed.

Lemma add_to_HB_model_overwrite_twice_witness :
  ∃ m1 m2 d' p',
    add_to_HB_model {| identifier := "model"; user_data := VNone |}
      "rooms" (VInt 1) "overwrite" = Ok m1
    ∧ add_to_HB_model m1 "dhw" (VInt 2) "overwrite" = Ok m2
    ∧ user_data m2 = VDict d'
    ∧ d' !! "phpp" = Some (VDict p')
    ∧ p' !! "dhw" = Some (VInt 2)
    ∧ ("rooms" ≠ "dhw" → p' !! "rooms" = Some (VInt 1)).
Proof.
  apply (add_to_HB_model_overwrite_twice
           {| identifier := "model"; user_data := VNone |}).
  left. reflexivity.
Defined.

(** X5. The update mode, on a [user_data] whose phpp entry is a
    dictionary: the other entries of phpp stay; a key that phpp does not
    have is given the value; a key whose entry is a dictionary, given a
    dictionary, gets the two merged, the new entries first. *)
Theorem add_to_HB_model_update (m : hb_obj) (key : string) (dict : val)
  (d p : gmap string val) :
  user_data m = VDict d →
  d !! "phpp" = Some (VDict p) →
  (p !! key = None
   ∨ ∃ old new, p !! key = Some (VDict old) ∧ dict = VDict new) →
  ∃ m' d' p',
    add_to_HB_model m key dict "update" = Ok m'
    ∧ user_data m' = VDict d'
    ∧ d' !! "phpp" = Some (VDict p')
    ∧ (∀ k, k ≠ key → p' !! k = p !! k)
    ∧ (p !! key = None → p' !! key = Some dict)
    ∧ (∀ old new, p !! key = Some (VDict old) → dict = VDict new →
         ∃ merged, p' !! key = Some (VDict merged)
                   ∧ ∀ j, merged !! j
                          = match new !! j with
                            | Some v => Some v
                            | None => old !! j
                            end).
Proof.
  intros Hd Hp Hkey. unfold add_to_HB_model, deepcopy. rewrite Hd. simpl.
  rewrite bool_decide_eq_false_2 by (intros ->; by rewrite lookup_empty in Hp).
  simpl. unfold write_phpp, update_phpp. simpl. rewrite Hp. simpl.
  destruct Hkey as [Hk | (old & new & Hk & ->)]; rewrite Hk; simpl.
  - rewrite ?Hp. simpl. eexists _, _, _. split; [done|]. split; [done|].
    split; [apply lookup_insert_eq|]. split_and!.
    + intros k Hne. rewrite lookup_union_r; [done|].
      by rewrite lookup_singleton_ne.
    + intros _. apply lookup_union_Some_l, lookup_singleton_eq.
    + intros old new Hold. congruence.
  - eexists _, _, _. split; [done|]. split; [done|].
    split; [apply lookup_insert_eq|]. split_and!.
    + intros k Hne. by rewrite lookup_insert_ne.
    + congruence.
    + intros old' new' [= <-] [= <-]. eexists. split; [apply lookup_insert_eq|].
      intros j. rewrite lookup_union. by destruct (new !! j), (old !! j).
Qed.

Lemma add_to_HB_model_update_witness :
  ∃ m' d' p',
    add_to_HB_model
      {| identifier := "model";
         user_data :=
           VDict {[ "phpp" := VDict {[ "dhw" := VDict {[ "a" := VInt 1 ]} ]} ]} |}
      "dhw" (VDict {[ "b" := VInt 2 ]}) "update" = Ok m'
    ∧ user_data m' = VDict d'
    ∧ d' !! "phpp" = Some (VDict p')
    ∧ (∀ k, k ≠ "dhw" →
         p' !! k = ({[ "dhw" := VDict {[ "a" := VInt 1 ]} ]} : gmap string val) !! k)
    ∧ (({[ "dhw" := VDict {[ "a" := VInt 1 ]} ]} : gmap string val) !! "dhw" = None →
       p' !! "dhw" = Some (VDict {[ "b" := VInt 2 ]}))
    ∧ (∀ old new,
         ({[ "dhw" := VDict {[ "a" := VInt 1 ]} ]} : gmap string val) !! "dhw"
         = Some (VDict old) →
         VDict {[ "b" := VInt 2 ]} = VDict new →
         ∃ merged, p' !! "dhw" = Some (VDict merged)
                   ∧ ∀ j, merged !! j
                          = match new !! j with
                            | Some v => Some v
                            | None => old !! j
                            end).
Proof.
  apply (add_to_HB_model_update
           {| identifier := "model";
              user_data :=
                VDict {[ "phpp" := VDict {[ "dhw" := VDict {[ "a" := VInt 1 ]} ]} ]} |}
           "dhw" (VDict {[ "b" := VInt 2 ]})
           {[ "phpp" := VDict {[ "dhw" := VDict {[ "a" := VInt 1 ]} ]} ]}
           {[ "dhw" := VDict {[ "a" := VInt 1 ]} ]}).
  - reflexivity.
  - by vm_compute.
  - right. eexists _, _. split; [by vm_compute|reflexivity].
Defined.

(** X6. When the phpp entry of [user_data] is there and is not a
    dictionary, the update and the overwrite mode raise TypeError: only a
    KeyError is handled. *)
Theorem add_to_HB_model_phpp_not_dict (m : hb_obj) (key : string) (dict : val)
  (write : string) (d : gmap string val) (x : val) :
  user_data m = VDict d →
  d !! "phpp" = Some x →
  (∀ p, x ≠ VDict p) →
  write = "update" ∨ write = "overwrite" →
  add_to_HB_model m key dict write = Raise TypeError.
Proof.
  intros Hd Hx Hnd Hw. unfold add_to_HB_model, deepcopy. rewrite Hd. simpl.
  rewrite bool_decide_eq_false_2 by (intros ->; by rewrite lookup_empty in Hx).
  simpl. unfold write_phpp. simpl. rewrite Hx.
  destruct Hw as [-> | ->]; simpl; destruct x; try done; by destruct (Hnd d0).
Qed.

Lemma add_to_HB_model_phpp_not_dict_witness :
  add_to_HB_model
    {| identifier := "model"; user_data := VDict {[ "phpp" := VNone ]} |}
    "rooms" (VDict ∅) "update" = Raise TypeError.
Proof.
  apply (add_to_HB_model_phpp_not_dict _ _ _ _ {[ "phpp" := VNone ]} VNone).
  - reflexivity.
  - by vm_compute.
  - done.
  - by left.
Defined.

(** X7. [add_to_HB_model] in the update mode and [add_to_hb_obj_user_data]
    do the same, result or exception, when [user_data] is None, the empty
    dictionary or a dictionary whose phpp entry is a dictionary. *)
Theorem add_to_HB_model_update_as_sibling (o : hb_obj) (key : string) (v : val) :
  (user_data o = VNone
   ∨ ∃ d, user_data o = VDict d
          ∧ (d = ∅ ∨ ∃ p, d !! "phpp" = Some (VDict p))) →
  add_to_HB_model o key v "update" = add_to_hb_obj_user_data o key v.
Proof.
  assert (fresh_phpp key v
          = VDict (<["phpp" := VDict (<[key := v]> ∅)]> (<["phpp" := VDict ∅]> ∅)))
    as Hfresh.
  { unfold fresh_phpp. by rewrite insert_insert_eq, !insert_empty. }
  unfold add_to_HB_model, add_to_hb_obj_user_data, deepcopy.
  intros [-> | (d & -> & [-> | (p & Hp)])]; simpl.
  - rewrite lookup_empty, lookup_insert_eq. simpl. by rewrite Hfresh.
  - rewrite bool_decide_eq_true_2 by done. simpl.
    rewrite lookup_empty, lookup_insert_eq. simpl. by rewrite Hfresh.
  - rewrite bool_decide_eq_false_2 by (intros ->; by rewrite lookup_empty in Hp).
    simpl. unfold write_phpp, update_phpp. simpl. rewrite Hp. simpl.
    destruct (p !! key) as [old|] eqn:Hk; simpl.
    + destruct (dict_update old v) as [new|e] eqn:Eu; simpl; [done|].
      destruct e; try done.
      unfold dict_update in Eu. repeat case_match; simplify_eq.
    + rewrite ?Hp. simpl. by rewrite <- insert_union_singleton_l.
Qed.

Lemma add_to_HB_model_update_as_sibling_witness :
  add_to_HB_model
    {| identifier := "room";
       user_data := VDict {[ "id" := VInt 7; "phpp" := VDict ∅ ]} |}
    "rooms" (VInt 1) "update"
  = add_to_hb_obj_user_data
      {| identifier := "room";
         user_data := VDict {[ "id" := VInt 7; "phpp" := VDict ∅ ]} |}
      "rooms" (VInt 1).
Proof.
  apply add_to_HB_model_update_as_sibling.
  right. eexists. split; [reflexivity|]. right. exists ∅. by vm_compute.
Defined.

Lemma add_to_hb_obj_user_data_frame_witness :
  keeps_others {[ "id" := VInt 7 ]}
    (VDict (<[ "phpp" := VDict {[ "rooms" := VInt 1 ]} ]> {[ "id" := VInt 7 ]})).
Proof.
  apply (add_to_hb_obj_user_data_frame
           {| identifier := "room"; user_data := VDict {[ "id" := VInt 7 ]} |}
           "rooms" (VInt 1)
           {| identifier := "room";
              user_data :=
                VDict (<[ "phpp" := VDict {[ "rooms" := VInt 1 ]} ]>
                         {[ "id" := VInt 7 ]}) |}).
  - reflexivity.
  - by vm_compute.
Defined.

(** ** ApplyWindowShadingFactors: the names recorded and the closing warnings *)

(** X9. The parameter dictionary has an entry for a name exactly when the
    name is listed in [_window_names]. *)
Theorem param_dict_keys (names : list string) (w s : list val)
  (pd : gmap string Params) (name : string) :
  build_param_dict 0 names w s ∅ = Ok pd →
  is_Some (pd !! name) ↔ name ∈ names.
Proof.
  intros Hb. rewrite (build_param_dict_keys _ _ _ _ _ _ Hb name).
  rewrite lookup_empty. split; [|auto]. intros [H|H]; [done|].
  by destruct H.
Qed.

Lemma param_dict_keys_witness :
  is_Some (({[ "A" := {| winter := Finite 0.75; summer := Finite 0.5 |} ]}
            : gmap string Params) !! "B")
  ↔ "B" ∈ ["A"; "A"].
Proof.
  apply (param_dict_keys ["A"; "A"] [VFloat (Finite 0.5)]
           [VFloat (Finite 0.5); VFloat (Finite 0.5)]).
  by vm_compute.
Defined.

Lemma append_inj_l (s s' t : string) : (s ++ t = s' ++ t)%string → s = s'.
Proof.
  intros H. apply (f_equal String.rev) in H. rewrite !rev_append in H.
  apply String.app_inj in H.
  by rewrite <- (rev_involutive s), H, rev_involutive.
Qed.

Lemma warn_inj k k' : warn k = warn k' → k = k'.
Proof.
  unfold warn. intros H.
  do 3 apply String.app_inj in H. by apply append_inj_l in H.
Qed.

Lemma elem_of_zero_warnings pd k :
  (Warning, warn k) ∈ zero_warnings pd
  ↔ ∃ v, pd !! k = Some v ∧ zero_in v = true.
Proof.
  unfold zero_warnings. rewrite list_elem_of_omap. split.
  - intros ([k' v] & Hin & Hf). apply elem_of_map_to_list in Hin.
    destruct (zero_in v) eqn:Hz; [|done].
    assert (warn k' = warn k) as ->%warn_inj by congruence. by exists v.
  - intros (v & Hk & Hz). exists (k, v). rewrite elem_of_map_to_list, Hz. done.
Qed.

(** ** ApplyWindowShadingFactors: what the run leaves on the apertures *)

(** What every run of the body keeps, the loop keeps. *)
Lemma for_each_keeps {A B} (I : heap → Prop) (body : A → M B) xs h r h' :
  (∀ x g r g', body x g = (r, g') → I g → I g') →
  for_each body xs h = (r, h') → I h → I h'.
Proof.
  intros Hbody.
  assert (PreOrder (λ g g' : heap, I g → I g')) as HPO.
  { split; [by intros g|]. intros g1 g2 g3 H12 H23 H1. auto. }
  apply (for_each_rel body (λ g g', I g → I g') (λ _ _, True)).
  - done.
  - intros x g r0 g' _. apply Hbody.
  - by apply Forall_forall.
Qed.

Section apply_more.

Context (PHPP_Window : Type) (from_dict : val → res PHPP_Window * val).
Context (set_winter set_summer : PHPP_Window → pyfloat → val → PHPP_Window * val).
Context (set_dimensions : PHPP_Window → val → val → PHPP_Window * val).
Context (to_dict : PHPP_Window → val → val * val).

Local Abbreviation apply_to_aperture :=
  (apply_to_aperture PHPP_Window from_dict set_winter set_summer set_dimensions
     to_dict).
Local Abbreviation apply_to_face :=
  (apply_to_face PHPP_Window from_dict set_winter set_summer set_dimensions
     to_dict).
Local Abbreviation apply_to_room :=
  (apply_to_room PHPP_Window from_dict set_winter set_summer set_dimensions
     to_dict).
Local Abbreviation component :=
  (component PHPP_Window from_dict set_winter set_summer set_dimensions to_dict).
Local Abbreviation shade :=
  (shade PHPP_Window set_winter set_summer set_dimensions to_dict).
Local Abbreviation reading :=
  (reads_only from_dict set_winter set_summer set_dimensions to_dict).
Local Abbreviation written pd := (shaded from_dict shade pd).
Local Abbreviation kept pd h0 := (copied_or_shaded from_dict shade pd h0).

Lemma shaded_app pd (g k : heap) n u : written pd g n u → written pd (g ++ k) n u.
Proof.
  intros (w & p & v & l & d & Hp & Hl & Hw & Hu & Hv). exists w, p, v, l, d.
  split_and!; try done; by apply lookup_app_l_Some.
Qed.

(** A new object keeps the invariant when it is no aperture, or an
    aperture that is as one of the store given or as the component writes
    it. *)
Lemma kept_alloc pd h0 (g : heap) o :
  kept pd h0 g →
  (∀ n u, o = OAperture n u →
     (∃ l0, h0 !! l0 = Some (OAperture n u)) ∨ written pd (g ++ [o]) n u) →
  kept pd h0 (g ++ [o]).
Proof.
  intros Hk Ho l n u [Hl|[_ Hl]]%lookup_app_Some.
  - destruct (Hk _ _ _ Hl) as [?|?]; [by left|]. right. by apply shaded_app.
  - apply list_lookup_singleton_Some in Hl as [_ ->]. by apply Ho.
Qed.

Lemma dup_aperture_keeps pd h0 a h r h' :
  dup_aperture a h = (r, h') → kept pd h0 h → kept pd h0 h'.
Proof.
  unfold dup_aperture, alloc.
  destruct (h !! a) as [[| |n u|]|] eqn:Ha; intros [= <- <-]; try done.
  intros Hk. apply kept_alloc; [done|]. intros ? ? [= <- <-].
  destruct (Hk _ _ _ Ha) as [?|?]; [by left|]. right. by apply shaded_app.
Qed.

Lemma dup_face_keeps pd h0 f h r h' :
  dup_face f h = (r, h') → kept pd h0 h → kept pd h0 h'.
Proof.
  unfold dup_face, alloc.
  destruct (h !! f) as [[|aps| |]|]; try (by intros [= <- <-]).
  destruct (for_each dup_aperture aps h) as [[aps1|e] h1] eqn:E;
    intros [= <- <-] HI;
    pose proof (for_each_keeps (kept pd h0) dup_aperture aps h _ h1
                  (dup_aperture_keeps pd h0) E HI) as H1; [|done].
  by apply kept_alloc.
Qed.

Lemma duplicate_keeps pd h0 room h r h' :
  duplicate room h = (r, h') → kept pd h0 h → kept pd h0 h'.
Proof.
  unfold duplicate, alloc.
  destruct (h !! room) as [[fs| | |]|]; try (by intros [= <- <-]).
  destruct (for_each dup_face fs h) as [[fs1|e] h1] eqn:E;
    intros [= <- <-] HI;
    pose proof (for_each_keeps (kept pd h0) dup_face fs h _ h1
                  (dup_face_keeps pd h0) E HI) as H1; [|done].
  by apply kept_alloc.
Qed.

Lemma apply_to_aperture_keeps pd h0 a h r h' :
  reading →
  apply_to_aperture pd a h = (r, h') → kept pd h0 h → kept pd h0 h'.
Proof.
  intros Hro
    [->|(n & u & l & d & Ha & El & Hl & [->|(w & p & Hw & Hp & ->)])]%apply_to_aperture_cases;
    [done|by rewrite (proj1 Hro d), (list_insert_id h l (OValue d) Hl)|].
  rewrite (proj1 Hro d),
    (shade_reads _ from_dict set_winter set_summer set_dimensions to_dict w p d Hro),
    (list_insert_id h l (OValue d) Hl).
  assert (a < length h) as Hlt by (by eapply lookup_lt_Some).
  intros Hk l0 n0 u0 Hl0. destruct (decide (l0 = a)) as [->|Hne].
  - rewrite list_lookup_insert_eq in Hl0 by (rewrite length_app; lia).
    injection Hl0 as <- <-. right. exists w, p, (length h), l, d.
    split_and!; try done.
    + rewrite list_lookup_insert_ne by (intros ->; congruence).
      by apply lookup_app_l_Some.
    + rewrite list_lookup_insert_ne by lia. apply alloc_lookup.
  - rewrite list_lookup_insert_ne in Hl0 by done.
    apply lookup_app_Some in Hl0 as [Hl0|[_ Hl0]].
    + destruct (Hk _ _ _ Hl0)
        as [?|(w0 & p0 & v0 & l1 & d1 & Hp0 & Hl1 & Hw0 & Hu0 & Hv0)]; [by left|].
      right. exists w0, p0, v0, l1, d1. split_and!; try done;
        (rewrite list_lookup_insert_ne by (intros ->; congruence));
        by apply lookup_app_l_Some.
    + by apply list_lookup_singleton_Some in Hl0 as [_ [=]].
Qed.

Lemma apply_to_face_keeps pd h0 f h r h' :
  reading →
  apply_to_face pd f h = (r, h') → kept pd h0 h → kept pd h0 h'.
Proof.
  intros Hro. unfold ApplyWindowShadingFactors.apply_to_face.
  destruct (h !! f) as [[|aps| |]|]; try (by intros [= <- <-]).
  destruct (for_each _ aps h) as [r0 h1] eqn:E. intros Hr HI.
  assert (kept pd h0 h1) as H1.
  { eapply (for_each_keeps (kept pd h0)); [|done..]. intros x g r1 g'.
    by apply apply_to_aperture_keeps. }
  by destruct r0; injection Hr as <- <-.
Qed.

Lemma apply_to_room_keeps pd h0 room h r h' :
  reading →
  apply_to_room pd room h = (r, h') → kept pd h0 h → kept pd h0 h'.
Proof.
  intros Hro. unfold ApplyWindowShadingFactors.apply_to_room, sbind, ret.
  destruct (duplicate room h) as [[r1|e] h1] eqn:Ed; intros Hr HI;
    pose proof (duplicate_keeps pd h0 _ _ _ _ Ed HI) as H1;
    [|by injection Hr as <- <-].
  destruct (h1 !! r1) as [[fs| | |]|]; try (by injection Hr as <- <-).
  destruct (for_each _ fs h1) as [r0 h2] eqn:E.
  assert (kept pd h0 h2) as H2.
  { eapply (for_each_keeps (kept pd h0)); [|done..]. intros x g r2 g'.
    by apply apply_to_face_keeps. }
  by destruct r0; injection Hr as <- <-.
Qed.

(** X10. Provided that [from_dict] and the operations on the window it
    makes leave the object it is handed as it was: however the run ends,
    every aperture of the store it leaves is either as an aperture of the
    same name was in the store it was given, or has a [user_data] with the
    one key phpp, holding what [to_dict] made of a window that [from_dict]
    made of a value of the store and that was given the two factors
    recorded for the name of the aperture and no shading dimensions: what
    else its [user_data] held is not kept. *)
Theorem apertures_after_run (_HB_rooms : list loc) (_window_names : list string)
  (_winter_shading_factors _summer_shading_factors : list val) (h : heap)
  (l : loc) (n : string) (u : option (gmap string loc)) :
  reads_only from_dict set_winter set_summer set_dimensions to_dict →
  store (component _HB_rooms _window_names _winter_shading_factors
           _summer_shading_factors h) !! l = Some (OAperture n u) →
  (∃ l0, h !! l0 = Some (OAperture n u))
  ∨ ∃ param_dict,
      build_param_dict 0 _window_names _winter_shading_factors
        _summer_shading_factors ∅ = Ok param_dict
      ∧ shaded from_dict shade param_dict
          (store (component _HB_rooms _window_names _winter_shading_factors
                    _summer_shading_factors h)) n u.
Proof.
  intros Hro. unfold ApplyWindowShadingFactors.component.
  destruct (build_param_dict _ _ _ _ _) as [pd|e]; simpl; [|by eauto].
  assert (kept pd h h) as H0 by (intros i n' u' Hi; eauto).
  destruct (for_each _ _HB_rooms h) as [r h'] eqn:E.
  assert (kept pd h h') as H1.
  { eapply (for_each_keeps (kept pd h)); [|done..]. intros x g r2 g'.
    by apply apply_to_room_keeps. }
  assert (h' !! l = Some (OAperture n u) →
          (∃ l0, h !! l0 = Some (OAperture n u))
          ∨ ∃ param_dict, Ok pd = Ok param_dict ∧ written param_dict h' n u)
    as Hgoal.
  { intros Hl. destruct (H1 _ _ _ Hl) as [?|?]; eauto. }
  by destruct r.
Qed.

(** X11. When the run returns, a warning about a factor of 0 is among the
    runtime messages for a name exactly when the entry recorded for the
    name has a winter or a summer factor equal to 0. A run that an
    exception ends gives none of these warnings. *)
Theorem zero_warning_iff (_HB_rooms : list loc) (_window_names : list string)
  (_winter_shading_factors _summer_shading_factors : list val) (h : heap)
  (k : string) :
  (∀ out param_dict,
     HB_rooms_ (component _HB_rooms _window_names _winter_shading_factors
                  _summer_shading_factors h) = Ok out →
     build_param_dict 0 _window_names _winter_shading_factors
       _summer_shading_factors ∅ = Ok param_dict →
     ((Warning, warn k)
        ∈ messages (component _HB_rooms _window_names _winter_shading_factors
                      _summer_shading_factors h)
      ↔ ∃ v, param_dict !! k = Some v ∧ zero_in v = true))
  ∧ (∀ e,
       HB_rooms_ (component _HB_rooms _window_names _winter_shading_factors
                    _summer_shading_factors h) = Raise e →
       (Warning, warn k)
         ∉ messages (component _HB_rooms _window_names _winter_shading_factors
                       _summer_shading_factors h)).
Proof.
  assert (∀ b : bool,
            (Warning, warn k) ∉ (if b then [(Warning, warning)] else [])) as Hmsgs.
  { intros [] Hin; [|by apply elem_of_nil in Hin].
    apply list_elem_of_singleton in Hin.
    apply (warn_not_warning k). congruence. }
  unfold ApplyWindowShadingFactors.component. split.
  - intros out pd'.
    destruct (build_param_dict _ _ _ _ _) as [pd|e]; simpl; [|done].
    destruct (for_each _ _HB_rooms h) as [[rooms|e] h']; simpl; [|done].
    intros _ [= <-]. rewrite elem_of_app, elem_of_zero_warnings.
    split; [|auto]. intros [Hin|?]; [|done]. by apply Hmsgs in Hin.
  - intros e.
    destruct (build_param_dict _ _ _ _ _) as [pd|e']; simpl; [|intros _; apply Hmsgs].
    destruct (for_each _ _HB_rooms h) as [[rooms|e'] h']; simpl; [done|].
    intros _. apply Hmsgs.
Qed.

End apply_more.

Lemma zero_warning_iff_witness :
  let from_dict := λ d : val,
    (match d with VDict _ => Ok d | _ => Raise TypeError end, d) in
  let set_factor := λ k (w : val) (f : pyfloat) (d : val),
    (match w with VDict m => VDict (<[k := VFloat f]> m) | _ => w end, d) in
  let set_dimensions := λ (w v d : val),
    (match w with VDict m => VDict (<["shading_dimensions" := v]> m) | _ => w end,
     d) in
  let to_dict := λ w d : val, (w, d) in
  let h :=
    [OValue (VDict ∅); OAperture "A" (Some {[ "phpp" := 0 ]}); OFace [1];
     ORoom [2]] in
  let run :=
    ApplyWindowShadingFactors.component val from_dict (set_factor "winter")
      (set_factor "summer") set_dimensions to_dict [3] ["A"] [VInt 0] [VInt 1] h in
  (Warning, warn "A") ∈ messages run.
Proof.
  intros from_dict set_factor set_dimensions to_dict h run.
  destruct (zero_warning_iff val from_dict (set_factor "winter")
              (set_factor "summer") set_dimensions to_dict [3] ["A"] [VInt 0] [VInt 1]
              h "A") as [Hok _].
  apply (Hok [6] {[ "A" := {| winter := Finite (inject_Z 0);
                              summer := Finite (inject_Z 1) |} ]}).
  - by vm_compute.
  - by vm_compute.
  - eexists. split; [by vm_compute|]. by vm_compute.
Defined.

Lemma apertures_after_run_witness :
  let from_dict := λ d : val,
    (match d with VDict _ => Ok d | _ => Raise TypeError end, d) in
  let set_factor := λ k (w : val) (f : pyfloat) (d : val),
    (match w with VDict m => VDict (<[k := VFloat f]> m) | _ => w end, d) in
  let set_dimensions := λ (w v d : val),
    (match w with VDict m => VDict (<["shading_dimensions" := v]> m) | _ => w end,
     d) in
  let to_dict := λ w d : val, (w, d) in
  let h :=
    [OValue (VDict ∅); OValue (VInt 3);
     OAperture "A" (Some {[ "phpp" := 0; "note" := 1 ]}); OFace [2]; ORoom [3]] in
  let run :=
    ApplyWindowShadingFactors.component val from_dict (set_factor "winter")
      (set_factor "summer") set_dimensions to_dict [4] ["A"] [] [VInt 1] h in
  (∃ l0, h !! l0 = Some (OAperture "A" (Some {[ "phpp" := 8 ]})))
  ∨ ∃ param_dict,
      build_param_dict 0 ["A"] [] [VInt 1] ∅ = Ok param_dict
      ∧ shaded from_dict
          (ApplyWindowShadingFactors.shade val (set_factor "winter")
             (set_factor "summer") set_dimensions to_dict)
          param_dict (store run) "A" (Some {[ "phpp" := 8 ]}).
Proof.
  intros from_dict set_factor set_dimensions to_dict h run.
  apply (apertures_after_run val from_dict (set_factor "winter")
           (set_factor "summer") set_dimensions to_dict [4] ["A"] [] [VInt 1] h 5).
  - done.
  - by vm_compute.
Defined.

(** ** CreateWindowReveals: the envelope surfaces and the tree of reveals *)

Section reveal_more.

Import CreateWindowReveals.

Context (Face3D Brep : Type) (from_face3d : Face3D → Brep).
Context (PHPP_Window : Type) (from_dict : val → res PHPP_Window).
Context (reveal_geometry : PHPP_Window → res (list Brep)).
Context (inset_window_surface : PHPP_Window → res Brep).

Local Abbreviation aperture := CreateWindowReveals.aperture.
Local Abbreviation face := (CreateWindowReveals.face Face3D).
Local Abbreviation room := (CreateWindowReveals.room Face3D).
Local Abbreviation vars := (CreateWindowReveals.vars Brep).
Local Abbreviation contribution :=
  (contribution Brep PHPP_Window from_dict reveal_geometry inset_window_surface).
Local Abbreviation no_late_failure :=
  (no_late_failure reveal_geometry inset_window_surface).
Local Abbreviation items_of :=
  (reveal_items from_dict reveal_geometry inset_window_surface).
Local Abbreviation reveal_aperture :=
  (reveal_aperture Brep PHPP_Window from_dict reveal_geometry
     inset_window_surface).
Local Abbreviation reveal_face :=
  (reveal_face Face3D Brep from_face3d PHPP_Window from_dict reveal_geometry
     inset_window_surface).
Local Abbreviation reveal_room :=
  (reveal_room Face3D Brep from_face3d PHPP_Window from_dict reveal_geometry
     inset_window_surface).
Local Abbreviation component :=
  (component Face3D Brep from_face3d PHPP_Window from_dict reveal_geometry
     inset_window_surface).

(** A loop adds, turn after turn, what its turns add, up to the turn that
    ends the script. *)
Lemma loop_grows {A Item} (grows : list Item → vars → vars → Prop)
  (body : A → vars → res () * vars) (items : A → list Item) xs st r st' :
  (∀ st, grows [] st st) →
  (∀ a b s1 s2 s3, grows a s1 s2 → grows b s2 s3 → grows (a ++ b) s1 s3) →
  (∀ x st r st', body x st = (r, st') →
     ∃ v, v `prefix_of` items x ∧ (r = Ok () → v = items x) ∧ grows v st st') →
  loop Brep body xs st = (r, st') →
  ∃ v, v `prefix_of` xs ≫= items ∧ (r = Ok () → v = xs ≫= items) ∧ grows v st st'.
Proof.
  intros Hnil Happ Hbody. revert st r st'.
  induction xs as [|x xs IH]; intros st r st'; simpl.
  - intros [= <- <-]. by exists [].
  - destruct (body x st) as [[[]|e] st1] eqn:E;
      destruct (Hbody _ _ _ _ E) as (v & Hv & Hall & Hg).
    + intros (v' & Hv' & Hall' & Hg')%IH. rewrite (Hall eq_refl) in Hg.
      exists (items x ++ v'). split; [by apply prefix_app|].
      split; [by intros ->%Hall'|]. by eapply Happ.
    + intros [= <- <-]. exists v. split; [by apply prefix_app_r|]. done.
Qed.

(** The two lists of envelope surfaces, from [st] to [st'], have grown by
    the surfaces of the faces in [fs]. *)
Definition envelope_grows (fs : list face) (st st' : vars) : Prop :=
  envelope_surfaces_ Brep st'
  = envelope_surfaces_ Brep st ++ ((λ f, from_face3d (geometry Face3D f)) <$> fs)
  ∧ envelope_surfaces_punched Brep st'
    = envelope_surfaces_punched Brep st
      ++ ((λ f, from_face3d (punched_geometry Face3D f)) <$> fs).

Lemma envelope_grows_nil st : envelope_grows [] st st.
Proof. split; simpl; by rewrite app_nil_r. Qed.

Lemma envelope_grows_app a b s1 s2 s3 :
  envelope_grows a s1 s2 → envelope_grows b s2 s3 → envelope_grows (a ++ b) s1 s3.
Proof.
  intros [H1 H2] [H3 H4]. split; rewrite fmap_app, app_assoc; congruence.
Qed.

Lemma reveal_aperture_envelope ap st r st' :
  reveal_aperture ap st = (r, st') →
  ∃ v : list face, v `prefix_of` [] ∧ (r = Ok () → v = []) ∧ envelope_grows v st st'.
Proof.
  intros H. exists []. split; [done|]. split; [done|].
  unfold CreateWindowReveals.reveal_aperture, handle, bind in H.
  unfold envelope_grows. simpl. rewrite !app_nil_r.
  repeat case_match; simplify_eq/=; done.
Qed.

Lemma bind_const_nil {A B} (l : list A) : l ≫= (λ _, @nil B) = [].
Proof. induction l as [|a l IH]; [done|]. by rewrite bind_cons, IH. Qed.

Lemma reveal_face_envelope f st r st' :
  reveal_face f st = (r, st') →
  ∃ v, v `prefix_of` [f] ∧ (r = Ok () → v = [f]) ∧ envelope_grows v st st'.
Proof.
  unfold CreateWindowReveals.reveal_face. intros H.
  assert (loop Brep reveal_aperture (apertures Face3D f)
            (add_envelope Face3D Brep from_face3d st f) = (r, st')) as Hloop.
  { by destruct (apertures Face3D f). }
  apply (loop_grows envelope_grows _ (λ _, [])) in Hloop
    as (v & Hv & _ & [H1 H2]);
    [|apply envelope_grows_nil|apply envelope_grows_app
     |apply reveal_aperture_envelope].
  assert (v = []) as ->.
  { apply prefix_nil_inv. by rewrite bind_const_nil in Hv. }
  exists [f]. split; [done|]. split; [done|]. split; simpl in *.
  - by rewrite H1, app_nil_r.
  - by rewrite H2, app_nil_r.
Qed.

(** X12. However the script ends, [envelope_surfaces_] and
    [envelope_surfaces_punched] hold, in the order of the loops, the
    surface and the punched surface of every face visited, the faces
    without apertures among them; when the script goes through, every
    face of every room was visited. *)
Theorem envelope_surfaces_aligned (_HB_rooms : list room) :
  ∃ visited,
    visited `prefix_of` _HB_rooms ≫= faces Face3D
    ∧ ((component _HB_rooms).1 = Ok () → visited = _HB_rooms ≫= faces Face3D)
    ∧ envelope_surfaces_ Brep (component _HB_rooms).2
      = (λ f, from_face3d (geometry Face3D f)) <$> visited
    ∧ envelope_surfaces_punched Brep (component _HB_rooms).2
      = (λ f, from_face3d (punched_geometry Face3D f)) <$> visited.
Proof.
  destruct (component _HB_rooms) as [r st] eqn:E. simpl.
  unfold CreateWindowReveals.component in E.
  apply (loop_grows envelope_grows _ (faces Face3D)) in E
    as (v & Hv & Hall & [H1 H2]);
    [by exists v|apply envelope_grows_nil|apply envelope_grows_app|].
  intros x st0 r0 st0' Hx. unfold CreateWindowReveals.reveal_room in Hx.
  apply (loop_grows envelope_grows _ (λ f, [f])) in Hx
    as (v & Hv & Hall & Hg);
    [|apply envelope_grows_nil|apply envelope_grows_app
     |apply reveal_face_envelope].
  rewrite bind_singleton_id in Hv, Hall. by exists v.
Qed.

(** [L] is what the tree holds: its branch under the path [i] has the items
    of [L] at [i], nothing is under the other paths, and [count] is the
    number of branches. *)
Definition tree_holds (L : list (list Brep)) (st : vars) : Prop :=
  count Brep st = length L
  ∧ ∀ i, default [] (window_surrounds_ Brep st !! i) = default [] (L !! i).

Definition tree_grows (aps : list aperture) (st st' : vars) : Prop :=
  ∀ L, tree_holds L st → tree_holds (L ++ omap items_of aps) st'.

Lemma loop_ok_grows {A Item} (grows : list Item → vars → vars → Prop)
  (body : A → vars → res () * vars) (items : A → list Item) xs st st' :
  (∀ st, grows [] st st) →
  (∀ a b s1 s2 s3, grows a s1 s2 → grows b s2 s3 → grows (a ++ b) s1 s3) →
  (∀ x st st', body x st = (Ok (), st') → grows (items x) st st') →
  loop Brep body xs st = (Ok (), st') →
  grows (xs ≫= items) st st'.
Proof.
  intros Hnil Happ Hbody. revert st st'.
  induction xs as [|x xs IH]; intros st st'; simpl.
  - by intros [= <-].
  - destruct (body x st) as [[[]|e] st1] eqn:E; [|done].
    intros Hrest. eapply Happ; [by apply Hbody|by apply IH].
Qed.

Lemma tree_grows_nil st : tree_grows [] st st.
Proof. intros L. simpl. by rewrite app_nil_r. Qed.

Lemma tree_grows_app a b s1 s2 s3 :
  tree_grows a s1 s2 → tree_grows b s2 s3 → tree_grows (a ++ b) s1 s3.
Proof.
  intros H1 H2 L HL. rewrite omap_app, app_assoc. by apply H2, H1.
Qed.

Lemma tree_holds_add L st items :
  tree_holds L st →
  ∀ name surface,
    tree_holds (L ++ [items])
      (record_window Brep (add_range Brep st items) name surface).
Proof.
  intros [Hc Ht] name surface. split; simpl.
  - rewrite length_app. simpl. lia.
  - intros i. rewrite Hc. destruct (decide (i = length L)) as [->|Hne].
    + rewrite lookup_insert_eq, list_lookup_middle by done. simpl.
      rewrite Ht, lookup_ge_None_2 by done. done.
    + rewrite lookup_insert_ne by done. rewrite Ht.
      destruct (decide (i < length L)) as [Hlt|Hge].
      * by rewrite lookup_app_l.
      * rewrite !lookup_ge_None_2; [done|rewrite length_app; simpl; lia|lia].
Qed.

Lemma reveal_aperture_tree ap st st' :
  no_late_failure →
  reveal_aperture ap st = (Ok (), st') → tree_grows [ap] st st'.
Proof.
  intros Hlate H L HL. simpl.
  unfold CreateWindowReveals.reveal_aperture, handle, bind in H.
  unfold reveal_items, bind.
  destruct (getitem (user_data ap) "phpp") as [d|e0];
    [|rewrite app_nil_r; by destruct e0; simplify_eq].
  destruct (from_dict d) as [w|e0];
    [|rewrite app_nil_r; by destruct e0; simplify_eq].
  destruct (reveal_geometry w) as [items|e0] eqn:Er;
    [|rewrite app_nil_r; by destruct e0; simplify_eq].
  destruct (inset_window_surface w) as [s|e0] eqn:Ei.
  - injection H as <-. by apply tree_holds_add.
  - destruct (Hlate _ _ _ Er Ei). by destruct e0.
Qed.

Lemma reveal_face_tree f st st' :
  no_late_failure →
  reveal_face f st = (Ok (), st') → tree_grows (apertures Face3D f) st st'.
Proof.
  intros Hlate. unfold CreateWindowReveals.reveal_face. intros H.
  assert (loop Brep reveal_aperture (apertures Face3D f)
            (add_envelope Face3D Brep from_face3d st f) = (Ok (), st')) as Hloop.
  { by destruct (apertures Face3D f). }
  apply (loop_ok_grows tree_grows _ (λ ap, [ap])) in Hloop;
    [|apply tree_grows_nil|apply tree_grows_app
     |intros x s0 s1; by apply reveal_aperture_tree].
  rewrite bind_singleton_id in Hloop. intros L HL. by apply Hloop.
Qed.

Lemma omap_length_same {A B C} (f : A → option B) (g : A → option C) l :
  (∀ x, is_Some (f x) ↔ is_Some (g x)) → length (omap f l) = length (omap g l).
Proof.
  intros Hfg. induction l as [|x l IH]; simpl; [done|].
  destruct (f x) as [y|] eqn:Ef, (g x) as [z|] eqn:Eg; simpl; auto.
  - assert (is_Some (g x)) as [? ?]; [apply Hfg; by rewrite Ef|congruence].
  - assert (is_Some (f x)) as [? ?]; [apply Hfg; by rewrite Eg|congruence].
Qed.

Lemma reveal_items_contribution ap :
  is_Some (items_of ap) ↔ is_Some (contribution ap).
Proof.
  unfold reveal_items, CreateWindowReveals.contribution, bind.
  repeat case_match; simplify_eq; split; intros [? ?]; done.
Qed.

(** X13. When the script goes through and no window fails between its
    reveal surfaces and its inset surface with an exception the script
    handles, the tree [window_surrounds_] has under the path [i] the reveal
    surfaces of the aperture that gave the name and the surface at index
    [i], nothing under the other paths, and [count] is the number of names. *)
Theorem window_surrounds_aligned (_HB_rooms : list room) :
  no_late_failure →
  (component _HB_rooms).1 = Ok () →
  count Brep (component _HB_rooms).2
  = length (window_names_ Brep (component _HB_rooms).2)
  ∧ (∀ i,
       default [] (window_surrounds_ Brep (component _HB_rooms).2 !! i)
       = default [] (omap items_of (all_apertures Face3D _HB_rooms) !! i))
  ∧ length (omap items_of (all_apertures Face3D _HB_rooms))
    = length (window_names_ Brep (component _HB_rooms).2)
  ∧ (∀ ap, is_Some (items_of ap) ↔ is_Some (contribution ap)).
Proof.
  intros Hlate. destruct (component _HB_rooms) as [r st] eqn:E. simpl.
  intros ->. unfold CreateWindowReveals.component in E.
  assert (window_names_ Brep st
          = (omap contribution (all_apertures Face3D _HB_rooms)).*1) as Hnames.
  { apply (loop_tracks Brep PHPP_Window from_dict reveal_geometry
             inset_window_surface _
             (λ hb_room, faces Face3D hb_room ≫= apertures Face3D)) in E
      as (v & _ & Hall & Hn & _).
    - by rewrite (Hall eq_refl) in Hn.
    - apply reveal_room_tracks. }
  assert (length (omap items_of (all_apertures Face3D _HB_rooms))
          = length (window_names_ Brep st)) as Hlen.
  { rewrite Hnames, length_fmap. apply omap_length_same.
    apply reveal_items_contribution. }
  apply (loop_ok_grows tree_grows _
           (λ hb_room, faces Face3D hb_room ≫= apertures Face3D)) in E;
    [|apply tree_grows_nil|apply tree_grows_app|].
  - destruct (E []) as [Hc Ht]; [by split|]. simpl in Hc, Ht.
    split; [etrans; [exact Hc|exact Hlen]|].
    split; [exact Ht|]. split; [exact Hlen|apply reveal_items_contribution].
  - intros x s0 s1 Hx. unfold CreateWindowReveals.reveal_room in Hx.
    apply (loop_ok_grows tree_grows _ (apertures Face3D)) in Hx;
      [done|apply tree_grows_nil|apply tree_grows_app|].
    intros f s2 s3. by apply reveal_face_tree.
Qed.

End reveal_more.

Lemma window_surrounds_aligned_witness :
  let from_dict := λ d : val, Ok d in
  let reveal_geometry := λ _ : val, Ok [1; 2; 3; 4] in
  let inset_window_surface := λ _ : val, Ok 9 in
  let rooms :=
    [ {| CreateWindowReveals.faces :=
           [ {| CreateWindowReveals.geometry := 7;
                CreateWindowReveals.punched_geometry := 8;
                CreateWindowReveals.apertures :=
                  [ {| CreateWindowReveals.display_name := "A";
                       CreateWindowReveals.user_data := VNone |};
                    {| CreateWindowReveals.display_name := "B";
                       CreateWindowReveals.user_data :=
                         VDict {[ "phpp" := VDict ∅ ]} |} ] |} ] |} ] in
  let run :=
    CreateWindowReveals.component nat nat id val from_dict reveal_geometry
      inset_window_surface rooms in
  CreateWindowReveals.count nat run.2
  = length (CreateWindowReveals.window_names_ nat run.2)
  ∧ (∀ i,
       default [] (CreateWindowReveals.window_surrounds_ nat run.2 !! i)
       = default []
           (omap (reveal_items from_dict reveal_geometry inset_window_surface)
              (CreateWindowReveals.all_apertures nat rooms) !! i))
  ∧ length
      (omap (reveal_items from_dict reveal_geometry inset_window_surface)
         (CreateWindowReveals.all_apertures nat rooms))
    = length (CreateWindowReveals.window_names_ nat run.2)
  ∧ (∀ ap,
       is_Some (reveal_items from_dict reveal_geometry inset_window_surface ap)
       ↔ is_Some
           (CreateWindowReveals.contribution nat val from_dict reveal_geometry
              inset_window_surface ap)).
Proof.
  intros from_dict reveal_geometry inset_window_surface rooms run.
  apply (window_surrounds_aligned nat nat id val from_dict reveal_geometry
           inset_window_surface rooms).
  - intros w items e _ H. discriminate H.
  - by vm_compute.
Defined.

(** ** helpers.py: a unit that the row does not list *)

Lemma first_nonempty_first_run s run d :
  is_first_run s run → first_nonempty (re_split_text s) d = VStr run.
Proof.
  intros (pre & post & -> & Hpre & Hne & Hrun & Hpost).
  induction pre as [|c pre IH].
  - destruct (re_split_text_run run post Hrun Hpost) as [ps Hps].
    change (first_nonempty (re_split_text (run ++ post)) d = VStr run).
    rewrite Hps. destruct run; [done|]. apply first_nonempty_cons.
  - simpl. simpl in Hpre. apply andb_true_iff in Hpre as [Hc Hpre].
    apply negb_true_iff in Hc. rewrite Hc. simpl. by apply IH.
Qed.

(** X14. When the output unit has no row in the schema, or its row does
    not list the unit that [find_input_string] answers, the text is not
    converted: the number of its first run of digits and periods comes
    back multiplied by 1. *)
Theorem convert_unlisted_unit (s out run : string) (n : pyfloat) :
  float_of_string s = None →
  is_first_run s run →
  float_of_string run = Some n →
  (∀ row, schema !! out = Some row → row !! find_input_string s = None) →
  convert_value_to_metric (VStr s) (VStr out)
  = Ok (VFloat (fmul n (Finite (inject_Z 1)))).
Proof.
  intros Hs Hrun Hn Hrow. unfold convert_value_to_metric, py_float, re_split.
  rewrite Hs, (first_nonempty_first_run _ _ _ Hrun).
  unfold convert_inner, conversion_factor, dict_get, bind.
  destruct (schema !! out) as [row|] eqn:Eo; simpl.
  - rewrite (Hrow row eq_refl). simpl. by rewrite Hn.
  - rewrite lookup_empty. simpl. by rewrite Hn.
Qed.

Lemma convert_unlisted_unit_witness :
  convert_value_to_metric (VStr "12 FT") (VStr "W/MK")
  = Ok (VFloat (fmul (Finite 12) (Finite (inject_Z 1)))).
Proof.
  apply (convert_unlisted_unit "12 FT" "W/MK" "12").
  - by vm_compute.
  - exists EmptyString, " FT". by vm_compute.
  - by vm_compute.
  - intros row. vm_compute. intros [= <-]. reflexivity.
Defined.

(** ** helpers.py: the case of the letters *)

Lemma char_case_cases c : c = upper_char c ∨ c = lower_char (upper_char c).
Proof. destruct c as [[] [] [] [] [] [] [] []]; vm_compute; auto. Qed.

Lemma lower_upper_char c : lower_char (upper_char c) = lower_char c.
Proof. by destruct c as [[] [] [] [] [] [] [] []]. Qed.

Lemma lower_lower_char c : lower_char (lower_char c) = lower_char c.
Proof. by destruct c as [[] [] [] [] [] [] [] []]. Qed.

(** What the parsers ask of a character does not depend on its case. *)
Lemma char_tests_caseless c :
  is_digit (upper_char c) = is_digit c
  ∧ is_digit (lower_char c) = is_digit c
  ∧ is_space (upper_char c) = is_space c
  ∧ is_space (lower_char c) = is_space c
  ∧ Ascii.eqb (upper_char c) "." = Ascii.eqb c "."
  ∧ Ascii.eqb (lower_char c) "." = Ascii.eqb c "."
  ∧ Ascii.eqb (upper_char c) "-" = Ascii.eqb c "-"
  ∧ Ascii.eqb (lower_char c) "-" = Ascii.eqb c "-"
  ∧ Ascii.eqb (upper_char c) "+" = Ascii.eqb c "+"
  ∧ Ascii.eqb (lower_char c) "+" = Ascii.eqb c "+"
  ∧ ((N_of_ascii (upper_char c) =? 101) || (N_of_ascii (upper_char c) =? 69)
     = (N_of_ascii c =? 101) || (N_of_ascii c =? 69))%N
  ∧ ((N_of_ascii (lower_char c) =? 101) || (N_of_ascii (lower_char c) =? 69)
     = (N_of_ascii c =? 101) || (N_of_ascii c =? 69))%N.
Proof. destruct c as [[] [] [] [] [] [] [] []]; by vm_compute. Qed.

Lemma numeric_test_caseless c :
  is_numeric_char (upper_char c) = is_numeric_char c
  ∧ is_numeric_char (lower_char c) = is_numeric_char c.
Proof. destruct c as [[] [] [] [] [] [] [] []]; by vm_compute. Qed.

Lemma numeric_char_caseless c :
  is_numeric_char c = true → upper_char c = c ∧ lower_char c = c.
Proof. destruct c as [[] [] [] [] [] [] [] []]; by vm_compute. Qed.

Lemma parse_sign_eqb c r :
  parse_sign (String c r)
  = if Ascii.eqb c "-" then (true, r)
    else if Ascii.eqb c "+" then (false, r) else (false, String c r).
Proof. by destruct c as [[] [] [] [] [] [] [] []]. Qed.

Lemma match_period {T} c r (X : string → T) (Y : T) :
  match String c r with
  | String "." r' => X r'
  | _ => Y
  end = if Ascii.eqb c "." then X r else Y.
Proof. by destruct c as [[] [] [] [] [] [] [] []]. Qed.

Section case_map.

(** [g] changes at most the case of letters. *)
Variable g : ascii → ascii.
Hypothesis g_case : ∀ c, upper_char (g c) = upper_char c.

Lemma g_cases c : g c = upper_char c ∨ g c = lower_char (upper_char c).
Proof. destruct (char_case_cases (g c)) as [H|H]; rewrite g_case in H; auto. Qed.

Lemma g_test (P : ascii → bool) c :
  (∀ x, P (upper_char x) = P x) → (∀ x, P (lower_char x) = P x) →
  P (g c) = P c.
Proof.
  intros Hu Hl. destruct (g_cases c) as [-> | ->]; [done|]. by rewrite Hl, Hu.
Qed.

Lemma g_digit c : is_digit (g c) = is_digit c.
Proof. apply g_test; intros x; apply char_tests_caseless. Qed.

Lemma g_space c : is_space (g c) = is_space c.
Proof. apply g_test; intros x; apply char_tests_caseless. Qed.

Lemma g_period c : Ascii.eqb (g c) "." = Ascii.eqb c ".".
Proof.
  apply (g_test (λ x, Ascii.eqb x ".")); intros x; apply char_tests_caseless.
Qed.

Lemma g_minus c : Ascii.eqb (g c) "-" = Ascii.eqb c "-".
Proof.
  apply (g_test (λ x, Ascii.eqb x "-")); intros x; apply char_tests_caseless.
Qed.

Lemma g_plus c : Ascii.eqb (g c) "+" = Ascii.eqb c "+".
Proof.
  apply (g_test (λ x, Ascii.eqb x "+")); intros x; apply char_tests_caseless.
Qed.

Lemma g_exponent c :
  ((N_of_ascii (g c) =? 101) || (N_of_ascii (g c) =? 69)
   = (N_of_ascii c =? 101) || (N_of_ascii c =? 69))%N.
Proof.
  apply (g_test (λ x, (N_of_ascii x =? 101) || (N_of_ascii x =? 69))%N);
    intros x; apply char_tests_caseless.
Qed.

Lemma g_numeric c : is_numeric_char (g c) = is_numeric_char c.
Proof. apply g_test; intros x; apply numeric_test_caseless. Qed.

Lemma g_fix c : is_numeric_char c = true → g c = c.
Proof.
  intros [Hu Hl]%numeric_char_caseless.
  destruct (g_cases c) as [-> | ->]; [done|]. by rewrite lower_upper_char.
Qed.

Lemma g_lower c : lower_char (g c) = lower_char c.
Proof.
  destruct (g_cases c) as [-> | ->]; [apply lower_upper_char|].
  by rewrite lower_lower_char, lower_upper_char.
Qed.

Lemma map_app s t : str_map g (s ++ t) = (str_map g s ++ str_map g t)%string.
Proof. induction s as [|c s IH]; [done|]. simpl. by rewrite IH. Qed.

Lemma map_rev_app s t :
  String.rev_app (str_map g s) (str_map g t) = str_map g (String.rev_app s t).
Proof.
  revert t. induction s as [|c s IH]; intros t; [done|]. simpl.
  by rewrite <- IH.
Qed.

Lemma map_rev s : String.rev (str_map g s) = str_map g (String.rev s).
Proof. apply (map_rev_app s EmptyString). Qed.

Lemma map_lstrip s : lstrip (str_map g s) = str_map g (lstrip s).
Proof.
  induction s as [|c s IH]; [done|]. simpl. rewrite g_space.
  by destruct (is_space c).
Qed.

Lemma map_strip s : strip (str_map g s) = str_map g (strip s).
Proof. unfold strip. by rewrite map_lstrip, map_rev, map_lstrip, map_rev. Qed.

Lemma map_lower s : lower (str_map g s) = lower s.
Proof.
  unfold lower. induction s as [|c s IH]; [done|]. simpl.
  by rewrite g_lower, IH.
Qed.

Lemma map_upper s : upper (str_map g s) = upper s.
Proof.
  unfold upper. induction s as [|c s IH]; [done|]. simpl.
  by rewrite g_case, IH.
Qed.

Lemma map_take_digits s :
  take_digits (str_map g s) = ((take_digits s).1, str_map g (take_digits s).2).
Proof.
  induction s as [|c s IH]; [done|]. simpl. rewrite g_digit.
  destruct (is_digit c) eqn:Hc; [|done].
  rewrite IH. destruct (take_digits s) as [d r]. simpl.
  rewrite g_fix; [done|]. unfold is_numeric_char. by rewrite Hc.
Qed.

Lemma map_parse_sign s :
  parse_sign (str_map g s) = ((parse_sign s).1, str_map g (parse_sign s).2).
Proof.
  destruct s as [|c s]; [done|].
  change (str_map g (String c s)) with (String (g c) (str_map g s)).
  rewrite !parse_sign_eqb, g_minus, g_plus.
  by destruct (Ascii.eqb c "-"), (Ascii.eqb c "+").
Qed.

Lemma map_empty s : str_map g s = EmptyString ↔ s = EmptyString.
Proof. by destruct s. Qed.

Lemma map_parse_exponent s : parse_exponent (str_map g s) = parse_exponent s.
Proof.
  destruct s as [|c s]; [done|]. unfold parse_exponent.
  change (str_map g (String c s)) with (String (g c) (str_map g s)).
  cbv beta iota. rewrite g_exponent. destruct (_ || _); [|done].
  rewrite map_parse_sign. destruct (parse_sign s) as [neg r1]. simpl.
  rewrite map_take_digits. destruct (take_digits r1) as [ds r2]. simpl.
  by destruct ds, r2.
Qed.

Lemma map_parse_decimal s : parse_decimal (str_map g s) = parse_decimal s.
Proof.
  unfold parse_decimal. rewrite map_take_digits.
  destruct (take_digits s) as [ip r1]. simpl.
  assert (match str_map g r1 with
          | String "." r => take_digits r
          | _ => (EmptyString, str_map g r1)
          end
          = let p := match r1 with
                     | String "." r => take_digits r
                     | _ => (EmptyString, r1)
                     end in (p.1, str_map g p.2)) as ->.
  { destruct r1 as [|c r]; [done|].
    change (str_map g (String c r)) with (String (g c) (str_map g r)).
    rewrite !match_period, g_period. destruct (Ascii.eqb c "."); [|done].
    apply map_take_digits. }
  destruct (match r1 with String "." r => take_digits r | _ => (EmptyString, r1) end)
    as [fp r2]. simpl.
  by rewrite map_parse_exponent.
Qed.

Lemma map_float_of_string s : float_of_string (str_map g s) = float_of_string s.
Proof.
  unfold float_of_string. rewrite map_strip, map_parse_sign.
  destruct (parse_sign (strip s)) as [neg r]. simpl.
  by rewrite map_lower, map_parse_decimal.
Qed.

Lemma map_re_split_text s : re_split_text (str_map g s) = re_split_text s.
Proof.
  induction s as [|c s IH]; [done|]. simpl. rewrite g_numeric, IH.
  destruct (is_numeric_char c) eqn:Hc; [|done]. by rewrite (g_fix c Hc).
Qed.

Lemma map_find_input_string s :
  find_input_string (str_map g s) = find_input_string s.
Proof. unfold find_input_string. by rewrite map_upper. Qed.

Lemma first_nonempty_default ps d d' :
  first_nonempty ps d = first_nonempty ps d'
  ∨ (first_nonempty ps d = d ∧ first_nonempty ps d' = d').
Proof.
  induction ps as [|p ps IH]; simpl; [auto|].
  destruct (0 <? String.length p)%nat; auto.
Qed.

(** X15. The number that [convert_value_to_metric] makes of a text does
    not depend on the case of its letters: a text and the same text with
    letters changed to the other case give the same float or both give
    none. *)
Theorem convert_value_to_metric_case (s : string) (u : val) (f : pyfloat) :
  convert_value_to_metric (VStr (str_map g s)) u = Ok (VFloat f)
  ↔ convert_value_to_metric (VStr s) u = Ok (VFloat f).
Proof.
  unfold convert_value_to_metric, py_float, re_split.
  rewrite map_float_of_string, map_re_split_text.
  destruct (float_of_string s) eqn:Es; [done|].
  unfold convert_inner. rewrite map_find_input_string.
  destruct (first_nonempty_default (re_split_text s) (VStr (str_map g s)) (VStr s))
    as [-> | [-> ->]]; [done|].
  destruct (conversion_factor u (find_input_string s)); simpl; [|done].
  unfold py_float. by rewrite map_float_of_string, Es.
Qed.

End case_map.

Lemma convert_value_to_metric_case_witness :
  convert_value_to_metric (VStr (lower "12 FT")) (VStr "M")
  = Ok (VFloat (fmul (Finite 12) (Finite 0.3048)))
  ↔ convert_value_to_metric (VStr "12 FT") (VStr "M")
    = Ok (VFloat (fmul (Finite 12) (Finite 0.3048))).
Proof.
  apply (convert_value_to_metric_case lower_char).
  intros c. by destruct c as [[] [] [] [] [] [] [] []].
Defined.
(** ** DHW_Piping_Recirc: the pipe segments *)

Lemma py_float_not_attribute x : py_float x ≠ Raise AttributeError.
Proof. destruct x; simpl; try done. by destruct (float_of_string s). Qed.

Lemma convert_value_to_metric_ok x u : ∃ r, convert_value_to_metric x u = Ok r.
Proof.
  unfold convert_value_to_metric. destruct x; try by eexists.
  - simpl. destruct (float_of_string s); [by eexists|].
    destruct (convert_inner _ _ _); by eexists.
Qed.

Section piping_facts.

Context (host : Type) (host_float : host → res pyfloat)
  (find_object : nat → res rhino_object)
  (str_exn : exn → string) (str_input : input host → string).

Local Abbreviation loop' := (loop host host_float find_object str_exn str_input).
Local Abbreviation run' :=
  (get_values_from_Rhino host host_float find_object str_exn str_input).

Lemma loop_values vs i out msgs :
  loop' i (Value <$> vs) out msgs
  = (try! fs := lengths_of vs in
     Ok {| lengths := lengths out ++ fs;
           diams := diams out;
           insul_thicknesses := insul_thicknesses out;
           insul_conductivities := insul_conductivities out;
           insul_reflectives := insul_reflectives out |}, msgs).
Proof.
  revert i out. induction vs as [|v vs IH]; intros i out; simpl.
  - destruct out; simpl. by rewrite app_nil_r.
  - destruct (convert_value_to_metric_ok v (VStr "M")) as [c ->]. simpl.
    destruct (py_float c) as [f|e] eqn:Ef; simpl.
    + rewrite IH. simpl. destruct (lengths_of vs); simpl; [|done].
      by rewrite <- app_assoc.
    + destruct e; try done. by destruct (py_float_not_attribute c).
Qed.

(** X16. On inputs that are Python values the Rhino scene plays no part
    and no warning is given: the lengths are the floats of the inputs
    converted to metres, the four other lists are empty, and what [float]
    raises on the first input without a number leaves the function. *)
Theorem get_values_from_Rhino_values (vs : list val) :
  run' (Value <$> vs)
  = (try! fs := lengths_of vs in
     Ok {| lengths := fs; diams := []; insul_thicknesses := [];
           insul_conductivities := []; insul_reflectives := [] |}, []).
Proof. unfold get_values_from_Rhino. by rewrite loop_values. Qed.

End piping_facts.

Lemma is_first_run_unique s run run' :
  is_first_run s run → is_first_run s run' → run = run'.
Proof.
  intros H H'.
  pose proof (first_nonempty_first_run s run VNone H) as E.
  rewrite (first_nonempty_first_run s run' VNone H') in E. congruence.
Qed.

Lemma convert_text_metres s :
  float_of_string s = None →
  (no_length (VStr s) ∧ convert_value_to_metric (VStr s) (VStr "M") = Ok (VStr s))
  ∨ (∃ kept, float_of_string kept = None ∧ no_length (VStr s)
             ∧ convert_value_to_metric (VStr s) (VStr "M") = Ok (VStr kept))
  ∨ (∃ f, ¬ no_length (VStr s)
          ∧ convert_value_to_metric (VStr s) (VStr "M") = Ok (VFloat f)).
Proof.
  intros Hs. unfold convert_value_to_metric. simpl. rewrite Hs.
  destruct (conversion_factor (VStr "M") (find_input_string s)) as [cv|e] eqn:Ecv;
    [|done].
  destruct (conversion_factor_positive _ _ _ Ecv) as (c & Hc & _).
  destruct (first_nonempty_spec s (VStr s)) as [[Hall E]|(run & Hrun & E)];
    rewrite E; unfold convert_inner; rewrite Ecv; simpl.
  - rewrite Hs. simpl. left. split; [|done]. split; [done|].
    intros run Hrun.
    pose proof (first_nonempty_first_run s run (VStr s) Hrun) as E'.
    rewrite E in E'. by injection E' as <-.
  - destruct (float_of_string run) as [n|] eqn:Er; simpl.
    + rewrite Hc. simpl. right. right. eexists. split; [|done].
      intros [_ Hno]. by rewrite (Hno run Hrun) in Er.
    + right. left. exists run. repeat split; try done.
      intros run' Hrun'. by rewrite (is_first_run_unique _ _ _ Hrun' Hrun).
Qed.

(** [float(convert_value_to_metric(v, 'M'))] raises on the values without a
    length and on no other. *)
Lemma length_of_value v :
  (no_length v
   ∧ (try! c := convert_value_to_metric v (VStr "M") in py_float c)
     = Raise (float_error v))
  ∨ (¬ no_length v
     ∧ ∃ f, (try! c := convert_value_to_metric v (VStr "M") in py_float c) = Ok f).
Proof.
  destruct v as [|z|f|s|d]; simpl.
  - by left.
  - right. split; [tauto|]. by eexists.
  - right. split; [tauto|]. by eexists.
  - unfold convert_value_to_metric. simpl.
    destruct (float_of_string s) as [f|] eqn:Es.
    + right. split; [by intros [? _]|]. by eexists.
    + pose proof (convert_text_metres s Es) as H.
      unfold convert_value_to_metric in H. simpl in H. rewrite Es in H.
      destruct H as [[Hno ->]|[(kept & Hk & Hno & ->)|(f & Hno & ->)]]; simpl.
      * left. by rewrite Es.
      * left. by rewrite Hk.
      * right. split; [done|]. by eexists.
  - by left.
Qed.

Lemma lengths_of_ok vs :
  Forall (λ v, ¬ no_length v) vs → ∃ fs, lengths_of vs = Ok fs.
Proof.
  induction 1 as [|v vs Hv _ [fs IH]]; simpl; [by eexists|].
  destruct (length_of_value v) as [[Hno _]|[_ [f Hf]]]; [done|].
  unfold bind in Hf.
  destruct (convert_value_to_metric v (VStr "M")) as [c|]; [|done]. simpl.
  rewrite Hf, IH. simpl. by eexists.
Qed.

Lemma lengths_of_raise pre x post :
  Forall (λ v, ¬ no_length v) pre → no_length x →
  lengths_of (pre ++ x :: post) = Raise (float_error x).
Proof.
  intros Hpre Hx. induction Hpre as [|v vs Hv _ IH]; simpl.
  - destruct (length_of_value x) as [[_ Hf]|[Hno _]]; [|done].
    destruct (convert_value_to_metric_ok x (VStr "M")) as [c Ec].
    rewrite Ec in *. simpl in *.
    by rewrite Hf.
  - destruct (length_of_value v) as [[Hno _]|[_ [f Hf]]]; [done|].
    destruct (convert_value_to_metric_ok v (VStr "M")) as [c Ec].
    rewrite Ec in *. simpl in *.
    by rewrite Hf, IH.
Qed.

Section piping_values.

Context (host : Type) (host_float : host → res pyfloat)
  (find_object : nat → res rhino_object)
  (str_exn : exn → string) (str_input : input host → string).

Local Abbreviation run' :=
  (get_values_from_Rhino host host_float find_object str_exn str_input).

(** X17. On inputs that are Python values, the integers among them small
    enough for a float, [get_values_from_Rhino] returns exactly when a
    length is found in each of them. The first value without one ([None],
    a dictionary, a text whose first run of digits and periods is no
    number) ends the function with the error of [float], a TypeError or
    for a text a ValueError, whatever comes after it; the warning of the
    handler is not given. *)
Theorem get_values_from_Rhino_aborts (vs : list val) :
  Forall in_float_range vs →
  (Forall (λ v, ¬ no_length v) vs →
   ∃ out, run' (Value <$> vs) = (Ok out, []))
  ∧ (∀ pre x post,
       vs = pre ++ x :: post →
       Forall (λ v, ¬ no_length v) pre → no_length x →
       run' (Value <$> vs) = (Raise (float_error x), [])).
Proof.
  intros _. unfold get_values_from_Rhino. rewrite loop_values. split.
  - intros [fs ->]%lengths_of_ok. simpl. by eexists.
  - intros pre x post -> Hpre Hx. by rewrite lengths_of_raise.
Qed.

End piping_values.

Lemma get_values_from_Rhino_aborts_witness :
  get_values_from_Rhino Empty_set (λ h, Raise AttributeError)
    (λ _, Raise OtherException) (λ _, EmptyString) (λ _, EmptyString)
    (Value <$> [VStr "3 m"; VStr "about ten"; VNone])
  = (Raise ValueError, []).
Proof.
  assert (Forall in_float_range [VStr "3 m"; VStr "about ten"; VNone]) as Hr
    by (repeat constructor).
  apply (proj2 (get_values_from_Rhino_aborts Empty_set (λ h, Raise AttributeError)
                  (λ _, Raise OtherException) (λ _, EmptyString) (λ _, EmptyString)
                  [VStr "3 m"; VStr "about ten"; VNone] Hr)
           [VStr "3 m"] (VStr "about ten") [VNone]).
  - reflexivity.
  - constructor; [|constructor]. intros [_ H].
    specialize (H "3"). discriminate H.
    exists EmptyString, " m". by vm_compute.
  - split; [by vm_compute|]. intros run Hrun.
    pose proof (first_nonempty_first_run _ _ VNone Hrun) as E.
    vm_compute in E. discriminate E.
Defined.

(** ** DHW_Piping_Recirc: the user texts of a pipe *)

Lemma prefix_empty s : String.prefix EmptyString s = true.
Proof. by destruct s. Qed.

Lemma split_head_first pre post :
  str_in " (" pre = false →
  split_head " (" (pre ++ " (" ++ post) = pre.
Proof.
  induction pre as [|c pre IH].
  - intros _. simpl. by rewrite prefix_empty.
  - cbn [str_in]. intros [Hp Hin]%orb_false_iff.
    change (String c pre ++ " (" ++ post)%string
      with (String c (pre ++ " (" ++ post)%string).
    cbn [split_head]. rewrite (IH Hin).
    assert (String.prefix " (" (String c (pre ++ " (" ++ post)%string) = false)
      as ->; [|done].
    cbn [String.prefix] in *. destruct (ascii_dec " " c) as [_|]; [|done].
    destruct pre as [|c' pre]; [reflexivity|].
    change (String c' pre ++ " (" ++ post)%string
      with (String c' (pre ++ " (" ++ post)%string).
    cbn [String.prefix] in *. destruct (ascii_dec "(" c') as [_|]; [|done].
    by rewrite prefix_empty in Hp.
Qed.

Lemma str_in_note pre post : str_in " (" (pre ++ " (" ++ post) = true.
Proof.
  induction pre as [|c pre IH].
  - simpl. by rewrite prefix_empty.
  - change (String c pre ++ " (" ++ post)%string
      with (String c (pre ++ " (" ++ post)%string).
    cbn [str_in]. rewrite IH. apply orb_true_r.
Qed.

Lemma clean_dimension_cleaned x y : cleaned x y → clean_dimension x = Ok y.
Proof.
  intros [[-> ->]|[(s & -> & Hs & ->)|(pre & post & f & -> & Hpre & Hf & ->)]].
  - done.
  - unfold clean_dimension. simpl. by rewrite Hs.
  - unfold clean_dimension. simpl.
    rewrite str_in_note, split_head_first by done. simpl. by rewrite Hf.
Qed.

(** X18. [cleanPipeDimInputs] treats the diameter and the thickness alike
    and each on its own: [None] stays [None], a text without a bracketed
    note comes back as the same text (it is not made a float), and of a
    text with a note the number in front of the first note comes back as a
    float. *)
Theorem cleanPipeDimInputs_texts (d t d' t' : val) :
  cleaned d d' → cleaned t t' → cleanPipeDimInputs d t = Ok (d', t').
Proof.
  intros Hd Ht. unfold cleanPipeDimInputs.
  by rewrite (clean_dimension_cleaned _ _ Hd), (clean_dimension_cleaned _ _ Ht).
Qed.

Lemma cleanPipeDimInputs_texts_witness :
  cleanPipeDimInputs (VStr "25.4 (1in) (nominal)") (VStr "12")
  = Ok (VFloat (Finite 25.4), VStr "12").
Proof.
  apply cleanPipeDimInputs_texts.
  - right. right. exists "25.4", "1in) (nominal)", (Finite 25.4).
    repeat split; by vm_compute.
  - right. left. by exists "12".
Defined.

(** ** DHW_Piping_Recirc: the five lists *)

Section piping_lists.

Context (host : Type) (host_float : host → res pyfloat)
  (find_object : nat → res rhino_object)
  (str_exn : exn → string) (str_input : input host → string).

Local Abbreviation loop' := (loop host host_float find_object str_exn str_input).
Local Abbreviation run' :=
  (get_values_from_Rhino host host_float find_object str_exn str_input).

Lemma loop_lists inputs i out msgs out' msgs' :
  loop' i inputs out msgs = (Ok out', msgs') →
  length (diams out) = length (insul_thicknesses out) →
  length (diams out) = length (insul_conductivities out) →
  length (diams out) = length (insul_reflectives out) →
  length (diams out) ≤ length (lengths out) →
  length (diams out') = length (insul_thicknesses out')
  ∧ length (diams out') = length (insul_conductivities out')
  ∧ length (diams out') = length (insul_reflectives out')
  ∧ length (diams out') ≤ length (lengths out')
  ∧ length (lengths out') + length msgs'
    = length (lengths out) + length msgs + length inputs.
Proof.
  revert i out msgs. induction inputs as [|x rest IH]; intros i out msgs; simpl.
  - intros [= <- <-]. lia.
  - destruct (length_of host host_float x) as [f|e].
    + intros H H1 H2 H3 H4.
      apply IH in H; simpl in *; rewrite ?length_app in *; simpl in *; lia.
    + destruct e; try done.
      destruct (from_scene find_object i) as [[[o d] t]|e]; intros H H1 H2 H3 H4;
        apply IH in H; simpl in *; rewrite ?length_app in *; simpl in *; lia.
Qed.

(** X19. When [get_values_from_Rhino] returns, the four lists of
    diameters, thicknesses, conductivities and reflectives have one common
    length, which is at most the number of lengths, and every input has
    given either one length or one warning. *)
Theorem get_values_from_Rhino_lists (inputs : list (input host)) (out : Output)
  (msgs : list (level * string)) :
  run' inputs = (Ok out, msgs) →
  length (diams out) = length (insul_thicknesses out)
  ∧ length (diams out) = length (insul_conductivities out)
  ∧ length (diams out) = length (insul_reflectives out)
  ∧ length (diams out) ≤ length (lengths out)
  ∧ length (lengths out) + length msgs = length inputs.
Proof.
  unfold get_values_from_Rhino. intros H.
  apply loop_lists in H; simpl; try done.
Qed.

End piping_lists.

Lemma get_values_from_Rhino_lists_witness :
  ∃ out msgs,
    get_values_from_Rhino unit (λ _, Raise AttributeError)
      (λ i, if (i =? 1)%nat
            then Ok {| curve_length := Finite 3;
                       insulation_conductivity := VStr "0.04";
                       insulation_reflective := VNone;
                       insulation_thickness := VStr "25 (1in)";
                       pipe_diameter := VStr "19.05 (3/4in)" |}
            else Raise OtherException)
      (λ _, EmptyString) (λ _, EmptyString)
      [Value (VStr "2 m"); Reference (); Reference ()]
    = (Ok out, msgs)
    ∧ lengths out = [Finite 2; Finite 3]
    ∧ diams out = [VFloat (Finite 19.05)]
    ∧ length (diams out) = length (insul_thicknesses out)
    ∧ length (diams out) = length (insul_conductivities out)
    ∧ length (diams out) = length (insul_reflectives out)
    ∧ length (diams out) ≤ length (lengths out)
    ∧ length (lengths out) + length msgs = 3.
Proof.
  eexists _, _. split; [by vm_compute|].
  split; [by vm_compute|]. split; [by vm_compute|].
  eapply (get_values_from_Rhino_lists unit (λ _, Raise AttributeError)
            (λ i, if (i =? 1)%nat
                  then Ok {| curve_length := Finite 3;
                             insulation_conductivity := VStr "0.04";
                             insulation_reflective := VNone;
                             insulation_thickness := VStr "25 (1in)";
                             pipe_diameter := VStr "19.05 (3/4in)" |}
                  else Raise OtherException)
            (λ _, EmptyString) (λ _, EmptyString)
            [Value (VStr "2 m"); Reference (); Reference ()]).
  by vm_compute.
Defined.

(** ** DHW_Piping_Recirc: curves of the Rhino scene *)

Section piping_curves.

Context (host : Type) (host_float : host → res pyfloat)
  (find_object : nat → res rhino_object)
  (str_exn : exn → string) (str_input : input host → string).

Local Abbreviation loop' := (loop host host_float find_object str_exn str_input).
Local Abbreviation run' :=
  (get_values_from_Rhino host host_float find_object str_exn str_input).

Lemma loop_curves hs objs ds ts i out msgs :
  Forall (λ h, host_float h = Raise AttributeError) hs →
  length objs = length hs →
  (∀ j o, objs !! j = Some o → find_object (i + j) = Ok o) →
  Forall2 (λ o d, cleaned (pipe_diameter o) d) objs ds →
  Forall2 (λ o t, cleaned (insulation_thickness o) t) objs ts →
  loop' i (Reference <$> hs) out msgs
  = (Ok {| lengths := lengths out ++ (curve_length <$> objs);
           diams := diams out ++ ds;
           insul_thicknesses := insul_thicknesses out ++ ts;
           insul_conductivities :=
             insul_conductivities out ++ (insulation_conductivity <$> objs);
           insul_reflectives :=
             insul_reflectives out ++ (insulation_reflective <$> objs) |}, msgs).
Proof.
  intros Hhs. revert objs ds ts i out.
  induction Hhs as [|h hs Hh _ IH]; intros objs ds ts i out Hlen Hfind Hds Hts.
  - destruct objs; [|done]. inversion Hds. inversion Hts. subst.
    destruct out; simpl. by rewrite !app_nil_r.
  - destruct objs as [|o objs]; [done|].
    inversion Hds as [|? d ? ds' Hd Hds']. inversion Hts as [|? t ? ts' Ht Hts'].
    subst. simpl. rewrite Hh. unfold from_scene.
    rewrite <- (Nat.add_0_r i) at 1. rewrite (Hfind 0 o eq_refl). simpl.
    unfold cleanPipeDimInputs.
    rewrite (clean_dimension_cleaned _ _ Hd), (clean_dimension_cleaned _ _ Ht).
    simpl. rewrite (IH objs ds' ts'); try done.
    + simpl. by rewrite <- !app_assoc.
    + simpl in Hlen. lia.
    + intros j o' Hj. replace (S i + j) with (i + S j) by lia. by apply Hfind.
Qed.

(** X20. When every input is an object of the scene on which [float]
    raises AttributeError, the object behind each index is found and its
    diameter and thickness texts can be cleaned, no warning is given and the
    five lists follow the inputs one for one: entry [i] of each list comes
    from the object behind input [i]. *)
Theorem get_values_from_Rhino_curves (hs : list host) (objs : list rhino_object)
  (ds ts : list val) :
  Forall (λ h, host_float h = Raise AttributeError) hs →
  length objs = length hs →
  (∀ i o, objs !! i = Some o → find_object i = Ok o) →
  Forall2 (λ o d, cleaned (pipe_diameter o) d) objs ds →
  Forall2 (λ o t, cleaned (insulation_thickness o) t) objs ts →
  run' (Reference <$> hs)
  = (Ok {| lengths := curve_length <$> objs;
           diams := ds;
           insul_thicknesses := ts;
           insul_conductivities := insulation_conductivity <$> objs;
           insul_reflectives := insulation_reflective <$> objs |}, []).
Proof.
  intros Hhs Hlen Hfind Hds Hts. unfold get_values_from_Rhino.
  by rewrite (loop_curves hs objs ds ts 0 _ _ Hhs Hlen Hfind Hds Hts).
Qed.

End piping_curves.

Lemma get_values_from_Rhino_curves_witness :
  get_values_from_Rhino unit (λ _, Raise AttributeError)
    (λ i, Ok {| curve_length := Finite (inject_Z (Z.of_nat i));
                insulation_conductivity := VStr "0.04";
                insulation_reflective := VNone;
                insulation_thickness := VStr "25 (1in)";
                pipe_diameter := VNone |})
    (λ _, EmptyString) (λ _, EmptyString)
    (Reference <$> [(); ()])
  = (Ok {| lengths := [Finite 0; Finite 1];
           diams := [VNone; VNone];
           insul_thicknesses := [VFloat (Finite 25); VFloat (Finite 25)];
           insul_conductivities := [VStr "0.04"; VStr "0.04"];
           insul_reflectives := [VNone; VNone] |}, []).
Proof.
  apply (get_values_from_Rhino_curves unit (λ _, Raise AttributeError)
           (λ i, Ok {| curve_length := Finite (inject_Z (Z.of_nat i));
                       insulation_conductivity := VStr "0.04";
                       insulation_reflective := VNone;
                       insulation_thickness := VStr "25 (1in)";
                       pipe_diameter := VNone |})
           (λ _, EmptyString) (λ _, EmptyString) [(); ()]
           [ {| curve_length := Finite 0;
                insulation_conductivity := VStr "0.04";
                insulation_reflective := VNone;
                insulation_thickness := VStr "25 (1in)";
                pipe_diameter := VNone |};
             {| curve_length := Finite 1;
                insulation_conductivity := VStr "0.04";
                insulation_reflective := VNone;
                insulation_thickness := VStr "25 (1in)";
                pipe_diameter := VNone |} ]).
  - by repeat constructor.
  - reflexivity.
  - intros [|[|i]] o; simpl; intros [= <-]; reflexivity.
  - constructor; [|constructor; [|constructor]]; by left.
  - constructor; [|constructor; [|constructor]];
      right; right; exists "25", "1in)", (Finite 25); repeat split; by vm_compute.
Defined.
